(** * redep: configuration provider, CLI actions and daemon supervision

    A shallow embedding of [lib/config.js] and [bin/index.js].  JavaScript
    values are JSON data (what the [conf] store can persist) plus
    [undefined]; every action is a function on an explicit [world] holding
    the persisted store, the process environment, the operating system's
    process table and the trace of observable effects. *)

From Stdlib Require Import String Ascii List ZArith Lia Bool DecimalString.
From Stdlib Require Strings.Byte.
From stdpp Require Import gmap strings.
Import ListNotations.
Local Open Scope string_scope.

(** ** JavaScript values *)

Module JS.

Set Warnings "-register-all".

(** Data that survives [JSON.stringify]/[JSON.parse].  Numbers are the
    integers the program handles (ports and process ids).  An object is the
    list of its own properties in enumeration order. *)
Inductive json : Type :=
| JNull
| JBool (b : bool)
| JNum (n : Z)
| JStr (s : string)
| JObj (fields : list (string * json)).

(** The result of reading a variable or a property: [undefined], a JSON
    value, or a built-in member reached through the prototype chain (for
    instance [servers["toString"]]), which is a truthy non-JSON object. *)
Inductive jsval : Type :=
| Undefined
| Val (j : json)
| Inherited (member : string).

Record error := { err_code : option string; err_message : string }.

Definition TypeError (msg : string) : error :=
  {| err_code := None; err_message := msg |}.

Inductive res (A : Type) : Type :=
| Got (a : A)
| Raised (e : error).
Arguments Got {A} a.
Arguments Raised {A} e.

(** [ToBoolean]. *)
Definition truthy (v : jsval) : bool :=
  match v with
  | Undefined => false
  | Val JNull => false
  | Val (JBool b) => b
  | Val (JNum n) => negb (n =? 0)%Z
  | Val (JStr s) => negb (String.eqb s "")
  | Val (JObj _) => true
  | Inherited _ => true
  end.

(** [a || b]. *)
Definition jor (a b : jsval) : jsval := if truthy a then a else b.

Definition of_option_string (o : option string) : jsval :=
  match o with
  | Some s => Val (JStr s)
  | None => Undefined
  end.

Definition string_of_Z (z : Z) : string := NilZero.string_of_int (Z.to_int z).

(** Interpolation in a template literal, [`${v}`]. *)
Definition to_string (v : jsval) : string :=
  match v with
  | Undefined => "undefined"
  | Val JNull => "null"
  | Val (JBool true) => "true"
  | Val (JBool false) => "false"
  | Val (JNum n) => string_of_Z n
  | Val (JStr s) => s
  | Val (JObj _) => "[object Object]"
  | Inherited m => "function " +:+ m +:+ "() { [native code] }"
  end.

Definition in_list (s : string) (l : list string) : bool :=
  existsb (String.eqb s) l.

(** Own property lookup. *)
Fixpoint assoc (k : string) (fs : list (string * json)) : option json :=
  match fs with
  | [] => None
  | (k', v) :: rest => if String.eqb k k' then Some v else assoc k rest
  end.

(** Members every ordinary object inherits from [Object.prototype]. *)
Definition object_prototype_members : list string :=
  [ "constructor"; "__defineGetter__"; "__defineSetter__"; "hasOwnProperty";
    "__lookupGetter__"; "__lookupSetter__"; "isPrototypeOf";
    "propertyIsEnumerable"; "toString"; "valueOf"; "__proto__";
    "toLocaleString" ].

Definition string_prototype_members : list string :=
  [ "anchor"; "at"; "big"; "blink"; "bold"; "charAt"; "charCodeAt";
    "codePointAt"; "concat"; "endsWith"; "fontcolor"; "fontsize"; "fixed";
    "includes"; "indexOf"; "isWellFormed"; "italics"; "lastIndexOf"; "link";
    "localeCompare"; "match"; "matchAll"; "normalize"; "padEnd"; "padStart";
    "repeat"; "replace"; "replaceAll"; "search"; "slice"; "small"; "split";
    "strike"; "sub"; "substr"; "substring"; "sup"; "startsWith";
    "toWellFormed"; "trim"; "trimStart"; "trimLeft"; "trimEnd"; "trimRight";
    "toLocaleLowerCase"; "toLocaleUpperCase"; "toLowerCase"; "toUpperCase" ].

Definition number_prototype_members : list string :=
  [ "toExponential"; "toFixed"; "toPrecision" ].

(** [obj[k]] on an object created by a literal or by [JSON.parse]: own
    properties first, then [Object.prototype]. *)
Definition obj_member (fs : list (string * json)) (k : string) : jsval :=
  match assoc k fs with
  | Some j => Val j
  | None => if in_list k object_prototype_members then Inherited k else Undefined
  end.

(** Canonical array indices, ["0"], ["1"], ... up to 2^32 - 2. *)
Definition digit_of (c : ascii) : option N :=
  let n := N_of_ascii c in
  if ((48 <=? n) && (n <=? 57))%N then Some (n - 48)%N else None.

Fixpoint digits_value (acc : N) (s : string) : option N :=
  match s with
  | EmptyString => Some acc
  | String c rest =>
      match digit_of c with
      | Some d => digits_value (10 * acc + d)%N rest
      | None => None
      end
  end.

Definition array_index (s : string) : option N :=
  match s with
  | EmptyString => None
  | String c rest =>
      if Ascii.eqb c "0"%char && negb (String.eqb rest "") then None
      else match digits_value 0 s with
           | Some n => if (n <=? 4294967294)%N then Some n else None
           | None => None
           end
  end.

Definition char_at (s : string) (i : N) : jsval :=
  match String.get (N.to_nat i) s with
  | Some c => Val (JStr (String c EmptyString))
  | None => Undefined
  end.

(** Property read [v[k]] (or [v.k]).  Reading from [null] or [undefined]
    throws.  On a built-in receiver only names that are not themselves
    built-in members are read by the program ([url], [secret]); they are
    [undefined] there. *)
Definition member (v : jsval) (k : string) : res jsval :=
  match v with
  | Undefined =>
      Raised (TypeError ("Cannot read properties of undefined (reading '" +:+ k +:+ "')"))
  | Val JNull =>
      Raised (TypeError ("Cannot read properties of null (reading '" +:+ k +:+ "')"))
  | Val (JObj fs) => Got (obj_member fs k)
  | Val (JStr s) =>
      if String.eqb k "length" then Got (Val (JNum (Z.of_nat (String.length s))))
      else match array_index k with
           | Some i => Got (char_at s i)
           | None =>
               if in_list k string_prototype_members || in_list k object_prototype_members
               then Got (Inherited k) else Got Undefined
           end
  | Val (JNum _) =>
      if in_list k number_prototype_members || in_list k object_prototype_members
      then Got (Inherited k) else Got Undefined
  | Val (JBool _) =>
      if in_list k object_prototype_members then Got (Inherited k) else Got Undefined
  | Inherited _ => Got Undefined
  end.

(** [Object.keys]. *)
Fixpoint string_indices (n : nat) : list string :=
  match n with
  | O => []
  | S m => string_indices m ++ [string_of_Z (Z.of_nat m)]
  end.

Definition keys (v : jsval) : res (list string) :=
  match v with
  | Undefined | Val JNull =>
      Raised (TypeError "Cannot convert undefined or null to object")
  | Val (JObj fs) => Got (map fst fs)
  | Val (JStr s) => Got (string_indices (String.length s))
  | Val (JNum _) | Val (JBool _) | Inherited _ => Got []
  end.

(** Assignment [obj[k] = v]: an existing property keeps its place, a new
    array index is enumerated in ascending order before every other key,
    any other new key comes last. *)
Fixpoint obj_replace (k : string) (v : json) (fs : list (string * json))
  : list (string * json) :=
  match fs with
  | [] => []
  | (k', v') :: rest =>
      if String.eqb k k' then (k, v) :: rest else (k', v') :: obj_replace k v rest
  end.

Fixpoint obj_insert_index (i : N) (k : string) (v : json) (fs : list (string * json))
  : list (string * json) :=
  match fs with
  | [] => [(k, v)]
  | (k', v') :: rest =>
      match array_index k' with
      | Some j => if (j <? i)%N then (k', v') :: obj_insert_index i k v rest
                  else (k, v) :: fs
      | None => (k, v) :: fs
      end
  end.

Definition obj_set (k : string) (v : json) (fs : list (string * json))
  : list (string * json) :=
  match assoc k fs with
  | Some _ => obj_replace k v fs
  | None =>
      match array_index k with
      | Some i => obj_insert_index i k v fs
      | None => fs ++ [(k, v)]
      end
  end.

Definition lower_ascii (c : ascii) : ascii :=
  let n := N_of_ascii c in
  if ((65 <=? n) && (n <=? 90))%N then ascii_of_N (n + 32) else c.

(** [s.toLowerCase()] on the ASCII letters. *)
Fixpoint toLowerCase (s : string) : string :=
  match s with
  | EmptyString => EmptyString
  | String c rest => String (lower_ascii c) (toLowerCase rest)
  end.

(** [s.startsWith(p)]. *)
Definition startsWith (s p : string) : bool := String.prefix p s.

End JS.
Export JS.

(** ** The world the program runs in *)

Inductive level : Type := LError | LWarn | LInfo | LSuccess.

Inductive signal : Type := SIG0 | SIGTERM.

(** What the operating system knows of a live process: a server this tool
    detached itself, another process of the same user, or a process of
    another user (which this user may not signal). *)
Inductive proc_kind : Type := Daemon | OwnProcess | ForeignProcess.

(** Observable effects, in the order they happen. *)
Inductive event : Type :=
| Log (l : level) (msg : string)                       (* logger.error / warn / info / success *)
| Spawned (cmd : string) (args : list string) (detached : bool)
          (child_env : gmap string string)             (* child_process.spawn *)
| Signalled (pid : Z) (sig : signal)                    (* process.kill delivered *)
| ServerStarted (port secret workingDir deploymentCommand : jsval)
                                                        (* startServer(...) of lib/server *)
| Triggered (serverName : string) (serverUrl secret : jsval).
                                                        (* deploy(...) of lib/client *)

Record world : Type := {
  store : list (string * json);   (* the conf file: one top-level object *)
  env : gmap string string;       (* process.env *)
  procs : gmap Z proc_kind;       (* live processes, by pid *)
  pid_supply : list Z;            (* pids the OS hands to the next spawned children *)
  clock : string;                 (* new Date().toISOString() *)
  argv0 : string;                 (* process.argv[0], the node executable *)
  argv1 : string;                 (* process.argv[1], this script *)
  script_path : string;           (* resolved path of ../server-entry.js *)
  trace : list event
}.

Definition set_store (s : list (string * json)) (w : world) : world :=
  {| store := s; env := env w; procs := procs w; pid_supply := pid_supply w;
     clock := clock w; argv0 := argv0 w; argv1 := argv1 w;
     script_path := script_path w; trace := trace w |}.

Definition set_procs (p : gmap Z proc_kind) (w : world) : world :=
  {| store := store w; env := env w; procs := p; pid_supply := pid_supply w;
     clock := clock w; argv0 := argv0 w; argv1 := argv1 w;
     script_path := script_path w; trace := trace w |}.

Definition set_pid_supply (l : list Z) (w : world) : world :=
  {| store := store w; env := env w; procs := procs w; pid_supply := l;
     clock := clock w; argv0 := argv0 w; argv1 := argv1 w;
     script_path := script_path w; trace := trace w |}.

Definition emit (e : event) (w : world) : world :=
  {| store := store w; env := env w; procs := procs w; pid_supply := pid_supply w;
     clock := clock w; argv0 := argv0 w; argv1 := argv1 w;
     script_path := script_path w; trace := trace w ++ [e] |}.

(** ** Actions: state, [process.exit] and exceptions *)

Inductive outcome (A : Type) : Type :=
| Returned (a : A) (w : world)       (* ran to completion *)
| Exited (code : Z) (w : world)      (* process.exit(code) *)
| Thrown (e : error) (w : world).    (* an exception is propagating *)
Arguments Returned {A} a w.
Arguments Exited {A} code w.
Arguments Thrown {A} e w.

Definition M (A : Type) : Type := world -> outcome A.

Definition ret {A} (a : A) : M A := fun w => Returned a w.

Definition bind {A B} (m : M A) (k : A -> M B) : M B :=
  fun w =>
    match m w with
    | Returned a w' => k a w'
    | Exited c w' => Exited c w'
    | Thrown e w' => Thrown e w'
    end.

#[global] Instance M_ret : MRet M := @ret.
#[global] Instance M_bind : MBind M := fun A B k m => bind m k.

Definition exit {A} (code : Z) : M A := fun w => Exited code w.
Definition throw {A} (e : error) : M A := fun w => Thrown e w.

(** [try { m } catch (e) { h e }]. *)
Definition try_catch {A} (m : M A) (h : error -> M A) : M A :=
  fun w =>
    match m w with
    | Thrown e w' => h e w'
    | o => o
    end.

Definition logger (l : level) (msg : string) : M unit :=
  fun w => Returned tt (emit (Log l msg) w).

(** The exit status the shell sees: 0 when the action runs to completion,
    the argument of [process.exit], 1 for an uncaught exception. *)
Definition exit_code {A} (o : outcome A) : Z :=
  match o with
  | Returned _ _ => 0
  | Exited c _ => c
  | Thrown _ _ => 1
  end.

Definition final_world {A} (o : outcome A) : world :=
  match o with
  | Returned _ w | Exited _ w | Thrown _ w => w
  end.

#[global] Instance res_ret : MRet res := @Got.
#[global] Instance res_bind : MBind res :=
  fun A B k r => match r with Got a => k a | Raised e => Raised e end.

Fixpoint res_map {A B} (f : A -> res B) (l : list A) : res (list B) :=
  match l with
  | [] => Got []
  | x :: rest => y ← f x; ys ← res_map f rest; Got (y :: ys)
  end.

(** ** The [conf] store (npm dependency), with dot-notation keys

    Keys are split at every dot; the escapes and bracketed indices that
    dot-prop also accepts are not interpreted, and no key of the program
    contains them. *)

Module Conf.

Fixpoint split_dots (s : string) : list string :=
  match s with
  | EmptyString => [EmptyString]
  | String c rest =>
      if Ascii.eqb c "."%char then EmptyString :: split_dots rest
      else match split_dots rest with
           | [] => [String c EmptyString]
           | seg :: segs => String c seg :: segs
           end
  end.

Definition disallowed_keys : list string := ["__proto__"; "prototype"; "constructor"].

(** [getPathSegments]: no segments at all when one of them is disallowed. *)
Definition segments (key : string) : list string :=
  let segs := split_dots key in
  if existsb (fun seg => in_list seg disallowed_keys) segs then [] else segs.

(** [getProperty] below the first segment. *)
Fixpoint walk (path : list string) (v : jsval) : jsval :=
  match path with
  | [] => v
  | k :: rest =>
      match v with
      | Undefined | Val JNull => Undefined
      | _ => match member v k with
             | Got v' => walk rest v'
             | Raised _ => Undefined
             end
      end
  end.

(** [config.get(key)]: the store itself has no prototype, the objects
    nested in it come from [JSON.parse]. *)
Definition get (key : string) (st : list (string * json)) : jsval :=
  match segments key with
  | [] => Undefined
  | k :: rest =>
      match assoc k st with
      | Some j => walk rest (Val j)
      | None => Undefined
      end
  end.

(** [setProperty]: intermediate segments that do not hold an object are
    replaced by a fresh one. *)
Fixpoint set_path (path : list string) (v : json) (fs : list (string * json))
  : list (string * json) :=
  match path with
  | [] => fs
  | k :: rest =>
      match rest with
      | [] => obj_set k v fs
      | _ :: _ =>
          let child := match assoc k fs with
                       | Some (JObj cfs) => cfs
                       | _ => []
                       end in
          obj_set k (JObj (set_path rest v child)) fs
      end
  end.

Definition INTERNAL_KEY : string := "__internal__".

(** [config.set(key, value)]: refuses [undefined], functions and the
    reserved key, otherwise writes the file. *)
Definition set (key : string) (value : jsval) (st : list (string * json))
  : res (list (string * json)) :=
  match value with
  | Undefined => Raised (TypeError "Use `delete()` to clear values")
  | Inherited _ =>
      Raised (TypeError ("Setting a value of type `function` for key `" +:+ key
                         +:+ "` is not allowed as it's not supported by JSON"))
  | Val j =>
      if String.eqb key INTERNAL_KEY || String.prefix (INTERNAL_KEY +:+ ".") key
      then Raised (TypeError ("Please don't use the " +:+ INTERNAL_KEY
                              +:+ " key, as it's used to manage this module internal operations."))
      else Got (set_path (segments key) j st)
  end.

End Conf.

(** ** lib/config.js *)

Module Config.

Record schema_entry : Type := {
  sch_default : json;
  sch_security : string;
  sch_env : option string;
  sch_description : string
}.

Definition CONFIG_SCHEMA : list (string * schema_entry) :=
  [ ("server_port",
      {| sch_default := JNum 3000; sch_security := "low";
         sch_env := Some "SERVER_PORT"; sch_description := "Server Port" |});
    ("secret_key",
      {| sch_default := JNull; sch_security := "critical";
         sch_env := Some "SECRET_KEY"; sch_description := "Authentication Secret" |});
    ("working_dir",
      {| sch_default := JNull; sch_security := "medium";
         sch_env := Some "WORKING_DIR"; sch_description := "Working Directory" |});
    ("deployment_command",
      {| sch_default := JNull; sch_security := "high";
         sch_env := Some "DEPLOYMENT_COMMAND"; sch_description := "Deployment Command" |});
    ("server_url",
      {| sch_default := JNull; sch_security := "low";
         sch_env := Some "SERVER_URL"; sch_description := "Default Server URL" |});
    ("servers",
      {| sch_default := JObj []; sch_security := "medium";
         sch_env := None; sch_description := "Server Profiles" |});
    ("server_pid",
      {| sch_default := JNull; sch_security := "low";
         sch_env := None; sch_description := "Server Process ID" |}) ].

(** [CONFIG_SCHEMA[key]].  A name inherited from [Object.prototype] also
    yields a truthy value there, but one whose [env] and [default] are
    [undefined], so [getConfig] answers as for a key that is not in the
    schema. *)
Definition schema (key : string) : option schema_entry :=
  snd <$> List.find (fun p => String.eqb key (fst p)) CONFIG_SCHEMA.

Definition getConfig (key : string) (w : world) : jsval :=
  let envValue :=
    match schema key with
    | Some sch => match sch_env sch with
                  | Some var => env w !! var
                  | None => None
                  end
    | None => None
    end in
  match envValue with
  | Some s => Val (JStr s)
  | None =>
      let value := Conf.get key (store w) in
      match value, schema key with
      | Undefined, Some sch => Val (sch_default sch)
      | _, _ => value
      end
  end.

Definition setConfig (key : string) (value : jsval) : M unit :=
  fun w =>
    match Conf.set key value (store w) with
    | Raised e => Thrown e w
    | Got st1 =>
        let meta := Val (JObj [("updatedAt", JStr (clock w))]) in
        match Conf.set ("_meta." +:+ key) meta st1 with
        | Raised e => Thrown e (set_store st1 w)
        | Got st2 => Returned tt (set_store st2 w)
        end
    end.

Definition clearConfig : M unit := fun w => Returned tt (set_store [] w).

Definition getAllConfig (w : world) : list (string * json) := store w.

Definition descriptions : list (string * json) :=
  [ ("prod", JStr "Production environment with high security");
    ("staging", JStr "Staging environment for testing");
    ("uat", JStr "User Acceptance Testing environment");
    ("dev", JStr "Development environment");
    ("test", JStr "Testing environment") ].

Definition getServerDescription (serverName : string) : jsval :=
  jor (obj_member descriptions (toLowerCase serverName))
      (Val (JStr "Custom environment")).

Definition getServerSecurityLevel (host : jsval) : res string :=
  if negb (truthy host) then Got "unknown"
  else match host with
       | Val (JStr h) =>
           if startsWith h "https://" then Got "high"
           else if startsWith h "http://localhost" || startsWith h "http://127.0.0.1"
                then Got "low"
           else if startsWith h "http://" then Got "medium"
           else Got "unknown"
       | _ => Raised (TypeError "host.startsWith is not a function")
       end.

Record client_row : Type := {
  row_server : string;
  row_host : jsval;
  row_secret_key : string;
  row_description : jsval;
  row_security : string
}.

Definition client_row_of (servers : jsval) (serverName : string) : res client_row :=
  server ← member servers serverName;
  url ← member server "url";
  secret ← member server "secret";
  security ← getServerSecurityLevel url;
  Got {| row_server := serverName;
         row_host := jor url (Val (JStr "Not configured"));
         row_secret_key := if truthy secret then "********" else "Not set";
         row_description := getServerDescription serverName;
         row_security := security |}.

Definition getClientConfig (w : world) : res (list client_row) :=
  let servers := jor (Conf.get "servers" (store w)) (Val (JObj [])) in
  names ← keys servers;
  res_map (client_row_of servers) names.

Definition validateMandatoryConfig (w : world) : list string :=
  let errors : list string := [] in
  let errors := if truthy (getConfig "secret_key" w) then errors
                else (errors ++ ["secret_key"])%list in
  let errors := if truthy (getConfig "working_dir" w) then errors
                else (errors ++ ["working_dir"])%list in
  let errors := if truthy (getConfig "deployment_command" w) then errors
                else (errors ++ ["deployment_command"])%list in
  errors.

Definition newline : string := String (ascii_of_nat 10) EmptyString.

Definition quote (param : string) : string := "'" +:+ param +:+ "'".

Definition instruction (param : string) : string :=
  match schema param with
  | Some {| sch_env := Some envVar |} =>
      "  - Set '" +:+ param +:+ "' using 'redep config set " +:+ param
      +:+ " <value>' or add '" +:+ envVar +:+ "=<value>' to your .env file"
  | _ =>
      "  - Set '" +:+ param +:+ "' using 'redep config set " +:+ param +:+ " <value>'"
  end.

(** [None] is JavaScript's [null]. *)
Definition getMissingConfigMessage (missingParams : list string) : option string :=
  match missingParams with
  | [] => None
  | _ =>
      let paramList := String.concat ", " (map quote missingParams) in
      let instructions := String.concat newline (map instruction missingParams) in
      Some ("Error: Required configuration parameter(s) " +:+ paramList
            +:+ " are not set." +:+ newline +:+ instructions)
  end.

End Config.
Export Config.

(** ** Operating-system and library primitives used by bin/index.js *)

Module Sys.

Definition gets {A} (f : world -> A) : M A := fun w => Returned (f w) w.

Definition lift_res {A} (r : res A) : M A :=
  fun w => match r with Got a => Returned a w | Raised e => Thrown e w end.

Fixpoint for_each {A} (f : A -> M unit) (l : list A) : M unit :=
  match l with
  | [] => mret tt
  | x :: rest => f x;; for_each f rest
  end.

Definition int32 (n : Z) : bool :=
  ((-2147483648 <=? n) && (n <=? 2147483647))%Z.

(** A string of decimal digits with an optional minus sign, read as a
    number; the empty string reads as 0. *)
Definition decimal_int (s : string) : option Z :=
  match s with
  | String "-"%char rest =>
      match rest with
      | EmptyString => None
      | _ => (fun n => (- Z.of_N n)%Z) <$> digits_value 0 rest
      end
  | _ => Z.of_N <$> digits_value 0 s
  end.

(** The argument check of [process.kill], [pid != (pid | 0)], followed by
    the conversion to a 32-bit integer.  Of the strings only plain decimal
    ones are recognised as numbers: the other notations JavaScript reads
    as a number (a sign [+], surrounding blanks, a fraction, an exponent,
    the prefixes [0x], [0o], [0b]) are outside the model, and the
    statements about a recorded pid are made for the records the program
    itself writes. *)
Definition to_pid (v : jsval) : option Z :=
  match v with
  | Val (JNum n) => if int32 n then Some n else None
  | Val (JStr s) =>
      match decimal_int s with
      | Some n => if int32 n then Some n else None
      | None => None
      end
  | Val (JBool b) => Some (if b then 1 else 0)%Z
  | _ => None
  end.

Definition dq : string := String (ascii_of_nat 34) EmptyString.

(** The error of the argument check.  Its message is the fixed opening
    of Node's text, which goes on to describe the value received. *)
Definition ERR_INVALID_ARG_TYPE : error :=
  {| err_code := Some "ERR_INVALID_ARG_TYPE";
     err_message := "The " +:+ dq +:+ "pid" +:+ dq +:+ " argument must be of type number." |}.
Definition ESRCH : error := {| err_code := Some "ESRCH"; err_message := "kill ESRCH" |}.
Definition EPERM : error := {| err_code := Some "EPERM"; err_message := "kill EPERM" |}.

(** [process.kill(pid, sig)].  Signal 0 only tests whether the process can
    be signalled; SIGTERM ends it.  The table holds positive pids only:
    process groups (pid <= 0) are not modelled. *)
Definition kill (pid : jsval) (sig : signal) : M unit :=
  fun w =>
    match to_pid pid with
    | None => Thrown ERR_INVALID_ARG_TYPE w
    | Some p =>
        match procs w !! p with
        | None => Thrown ESRCH w
        | Some ForeignProcess => Thrown EPERM w
        | Some _ =>
            let w' := match sig with
                      | SIG0 => w
                      | SIGTERM => set_procs (delete p (procs w)) w
                      end in
            Returned tt (emit (Signalled p sig) w')
        end
    end.

(** Events a child process delivers to its listeners. *)
Inductive child_event : Type :=
| ChildError (e : error)
| ChildClose (code : option Z).   (* [None] is a null exit code *)

(** How a [spawn(..., { shell: true })] of the process manager goes: the
    call itself throws, or the child is created and later delivers events. *)
Inductive shell_run : Type :=
| SpawnThrows (e : error)
| Delivers (events : list child_event).

Definition spawn_shell (cmd : string) (args : list string)
    (child_env : gmap string string) (run : shell_run) : M (list child_event) :=
  fun w =>
    match run with
    | SpawnThrows e => Thrown e w
    | Delivers evs => Returned evs (emit (Spawned cmd args false child_env) w)
    end.

(** [spawn(cmd, args, { detached: true, stdio: 'ignore' })] followed by
    [child.unref()]: the child's pid, or [undefined] when the OS creates no
    process. *)
Definition spawn_detached (cmd : string) (args : list string) : M jsval :=
  fun w =>
    match pid_supply w with
    | [] => Returned Undefined w
    | p :: rest =>
        Returned (Val (JNum p))
          (emit (Spawned cmd args true (env w))
             (set_procs (<[p := Daemon]> (procs w)) (set_pid_supply rest w)))
    end.

(** [startServer] of lib/server: hands the process over to the server. *)
Definition startServer (port secret workingDir deploymentCommand : jsval) : M unit :=
  fun w => Returned tt (emit (ServerStarted port secret workingDir deploymentCommand) w).

(** [deploy] of lib/client: the promise resolves, or rejects with an error. *)
Definition deploy (serverName : string) (serverUrl secret : jsval)
    (rejection : option error) : M unit :=
  fun w =>
    let w' := emit (Triggered serverName serverUrl secret) w in
    match rejection with
    | None => Returned tt w'
    | Some e => Thrown e w'
    end.

Record answers : Type := {
  server_name : string;
  server_url : string;
  secret_key : string;
  server_port : string;
  working_dir : string;
  deployment_command : string
}.

(** [inquirer.prompt]: the answers typed in, or a rejection. *)
Inductive prompt_run : Type :=
| PromptRejects (e : error)
| Answers (a : answers).

Definition prompt (run : prompt_run) : M answers :=
  fun w =>
    match run with
    | PromptRejects e => Thrown e w
    | Answers a => Returned a w
    end.

(** [typeof v]. *)
Definition type_of (v : jsval) : string :=
  match v with
  | Undefined => "undefined"
  | Val JNull | Val (JObj _) => "object"
  | Val (JBool _) => "boolean"
  | Val (JNum _) => "number"
  | Val (JStr _) => "string"
  | Inherited _ => "function"
  end.

(** [obj[k] = x] in strict mode (the CLI is an ES module). *)
Definition assign (v : jsval) (k : string) (x : json) : res jsval :=
  match v with
  | Val (JObj fs) =>
      if String.eqb k "__proto__" then Got v
      else Got (Val (JObj (obj_set k x fs)))
  | Val (JStr _) | Val (JNum _) | Val (JBool _) =>
      Raised (TypeError ("Cannot create property '" +:+ k +:+ "' on " +:+ type_of v
                         +:+ " '" +:+ to_string v +:+ "'"))
  | Undefined | Val JNull =>
      Raised (TypeError ("Cannot set properties of " +:+ to_string v
                         +:+ " (setting '" +:+ k +:+ "')"))
  | Inherited _ => Got v
  end.

End Sys.
Export Sys.

(** ** bin/index.js *)

Module Cli.

Record options : Type := { port : option string }.

(** [options.port] as a JavaScript value. *)
Definition options_port (o : options) : jsval := of_option_string (port o).

(** What [logger.error] is handed: the message, or [null]. *)
Definition message_text (m : option string) : string :=
  match m with
  | Some s => s
  | None => "null"
  end.

(** The validation block that opens both the [start] and the [listen]
    action. *)
Definition validate_or_exit : M unit :=
  missingParams ← gets validateMandatoryConfig;
  if (0 <? length missingParams)%nat then
    logger LError (message_text (getMissingConfigMessage missingParams));;
    exit 1
  else mret tt.

Definition startNativeBackground (o : options) : M unit :=
  existingPid ← gets (getConfig "server_pid");
  running ←
    (if truthy existingPid then
       try_catch
         (kill existingPid SIG0;;
          logger LWarn ("Server is already running with PID " +:+ to_string existingPid);;
          mret true)
         (fun _ => setConfig "server_pid" (Val JNull);; mret false)
     else mret false);
  if (running : bool) then mret tt
  else
    let args := "listen" :: (if truthy (options_port o)
                             then ["--port"; to_string (options_port o)] else []) in
    node ← gets argv0;
    script ← gets argv1;
    child_pid ← spawn_detached node (script :: args);
    setConfig "server_pid" child_pid;;
    logger LSuccess ("Server started in background (native) with PID "
                     +:+ to_string child_pid).

(** The listeners [start] registers on the process-manager child. *)
Definition on_pm2_start_event (o : options) (e : child_event) : M unit :=
  match e with
  | ChildError _ =>
      logger LInfo "PM2 not found, falling back to native background process...";;
      startNativeBackground o
  | ChildClose code =>
      if negb (bool_decide (code = Some 0%Z)) then
        logger LWarn "PM2 start failed, falling back to native background process...";;
        startNativeBackground o
      else logger LSuccess "Server started in background using PM2"
  end.

Definition start_action (o : options) (pm2 : shell_run) : M unit :=
  validate_or_exit;;
  events ←
    try_catch
      (scriptPath ← gets script_path;
       let args := ["start"; scriptPath; "--name"; "redep-server"] in
       penv ← gets env;
       let penv := if truthy (options_port o)
                   then <["SERVER_PORT" := to_string (options_port o)]> penv
                   else penv in
       spawn_shell "pm2" args penv pm2)
      (fun _ => startNativeBackground o;; mret []);
  for_each (on_pm2_start_event o) events.

(** [stop] and [status] register a [close] listener only: an [error]
    event of the child has no listener and is thrown. *)
Definition on_pm2_stop_event (e : child_event) : M unit :=
  match e with
  | ChildError err => throw err
  | ChildClose code =>
      if bool_decide (code = Some 0%Z) then logger LSuccess "Server stopped (PM2)"
      else
        pid ← gets (getConfig "server_pid");
        if negb (truthy pid) then logger LWarn "No active server found."
        else
          try_catch
            (kill pid SIGTERM;;
             setConfig "server_pid" (Val JNull);;
             logger LSuccess ("Server stopped (PID " +:+ to_string pid +:+ ")"))
            (fun e =>
               if bool_decide (err_code e = Some "ESRCH") then
                 logger LWarn ("Process " +:+ to_string pid
                               +:+ " not found. Cleaning up config.");;
                 setConfig "server_pid" (Val JNull)
               else logger LError ("Failed to stop server: " +:+ err_message e))
  end.

Definition stop_action (pm2 : shell_run) : M unit :=
  penv ← gets env;
  events ← spawn_shell "pm2" ["stop"; "redep-server"] penv pm2;
  for_each on_pm2_stop_event events.

Definition on_pm2_status_event (e : child_event) : M unit :=
  match e with
  | ChildError err => throw err
  | ChildClose code =>
      if negb (bool_decide (code = Some 0%Z)) then
        pid ← gets (getConfig "server_pid");
        if negb (truthy pid) then logger LInfo "Server is NOT running."
        else
          try_catch
            (kill pid SIG0;;
             logger LSuccess ("Server is RUNNING (PID " +:+ to_string pid +:+ ")"))
            (fun _ =>
               logger LWarn ("Server is NOT running (Stale PID " +:+ to_string pid
                             +:+ " found).");;
               setConfig "server_pid" (Val JNull))
      else mret tt
  end.

Definition status_action (pm2 : shell_run) : M unit :=
  penv ← gets env;
  events ← spawn_shell "pm2" ["describe"; "redep-server"] penv pm2;
  for_each on_pm2_status_event events.

Definition process_env (var : string) (w : world) : jsval :=
  of_option_string (env w !! var).

Definition listen_action (o : options) : M unit :=
  validate_or_exit;;
  port ← gets (fun w => jor (jor (jor (options_port o) (getConfig "server_port" w))
                                 (process_env "SERVER_PORT" w))
                            (Val (JNum 3000)));
  secret ← gets (fun w => jor (getConfig "secret_key" w) (process_env "SECRET_KEY" w));
  workingDir ← gets (fun w => jor (getConfig "working_dir" w) (process_env "WORKING_DIR" w));
  deploymentCommand ←
    gets (fun w => jor (getConfig "deployment_command" w)
                       (process_env "DEPLOYMENT_COMMAND" w));
  startServer port secret workingDir deploymentCommand.

(** The first lines of the [deploy] action: the profile lookup and the
    fallback to the global settings, giving [(serverUrl, secret)]. *)
Definition deploy_target (serverName : string) : M (jsval * jsval) :=
  servers ← gets (fun w => jor (getConfig "servers" w) (Val (JObj [])));
  profile ← lift_res (member servers serverName);
  if truthy profile then
    url ← lift_res (member profile "url");
    sec ← lift_res (member profile "secret");
    mret (url, sec)
  else
    url ← gets (fun w => jor (getConfig "server_url" w) (process_env "SERVER_URL" w));
    sec ← gets (fun w => jor (getConfig "secret_key" w) (process_env "SECRET_KEY" w));
    mret (url, sec).

Definition deploy_action (serverName : string) (rejection : option error) : M unit :=
  target ← deploy_target serverName;
  let serverUrl := fst target in
  let secret := snd target in
  (if negb (truthy serverUrl) then
     logger LError ("Error: Server " +:+ dq +:+ serverName +:+ dq
                    +:+ " not found in config, and global " +:+ dq +:+ "server_url"
                    +:+ dq +:+ " is not set.");;
     logger LInfo ("Run " +:+ dq +:+ "redep init client" +:+ dq +:+ " to configure a server.");;
     exit 1
   else mret tt);;
  (if negb (truthy secret) then
     logger LError ("Error: " +:+ dq +:+ "secret_key" +:+ dq
                    +:+ " is not set. Set SECRET_KEY env var or run " +:+ dq
                    +:+ "redep config set secret_key <your-secret>" +:+ dq);;
     exit 1
   else mret tt);;
  try_catch
    (deploy serverName serverUrl secret rejection)
    (fun e => logger LError ("Deploy failed: " +:+ err_message e);; exit 1).

(** [token] is what [generateSecureToken()] draws from the random source. *)
Definition init_action (type : string) (answered : prompt_run) (token : string) : M unit :=
  (if negb (String.eqb type "client") && negb (String.eqb type "server") then
     logger LError ("Type must be either " +:+ dq +:+ "client" +:+ dq +:+ " or "
                    +:+ dq +:+ "server" +:+ dq);;
     exit 1
   else mret tt);;
  try_catch
    (if String.eqb type "client" then
       a ← prompt answered;
       servers ← gets (fun w => jor (getConfig "servers" w) (Val (JObj [])));
       servers ← lift_res (assign servers (server_name a)
                             (JObj [("url", JStr (server_url a));
                                    ("secret", JStr (secret_key a))]));
       setConfig "servers" servers;;
       logger LSuccess ("Client configuration for '" +:+ server_name a
                        +:+ "' saved successfully.")
     else
       a ← prompt answered;
       secret ← (if negb (truthy (Val (JStr (secret_key a)))) then
                   logger LInfo ("Generated Secret Key: " +:+ token);; mret token
                 else mret (secret_key a));
       setConfig "server_port" (Val (JStr (server_port a)));;
       setConfig "working_dir" (Val (JStr (working_dir a)));;
       (if truthy (Val (JStr (deployment_command a)))
        then setConfig "deployment_command" (Val (JStr (deployment_command a)))
        else mret tt);;
       setConfig "secret_key" (Val (JStr secret));;
       logger LSuccess "Server configuration saved successfully.")
    (fun e => logger LError ("Initialization failed: " +:+ err_message e);; exit 1).

(** The commands of the lifecycle and trigger surface, each with what the
    outside world answers during its run. *)
Inductive command : Type :=
| CmdInit (type : string) (answered : prompt_run) (token : string)
| CmdStart (o : options) (pm2 : shell_run)
| CmdStop (pm2 : shell_run)
| CmdStatus (pm2 : shell_run)
| CmdListen (o : options)
| CmdDeploy (serverName : string) (rejection : option error).

Definition run (c : command) : M unit :=
  match c with
  | CmdInit type answered token => init_action type answered token
  | CmdStart o pm2 => start_action o pm2
  | CmdStop pm2 => stop_action pm2
  | CmdStatus pm2 => status_action pm2
  | CmdListen o => listen_action o
  | CmdDeploy serverName rejection => deploy_action serverName rejection
  end.

End Cli.
Export Cli.

(** ** Vocabulary of the properties *)

(** The signal-0 liveness probe, as [start] and [status] run it. *)
Definition probe (pid : jsval) (w : world) : bool :=
  match kill pid SIG0 w with
  | Returned _ _ => true
  | _ => false
  end.

Definition valid_pid (p : Z) : Prop := (0 < p <= 2147483647)%Z.

(** Every live self-managed server is the one whose pid is persisted. *)
Definition tracked (w : world) : Prop :=
  forall p, procs w !! p = Some Daemon ->
            valid_pid p /\ getConfig "server_pid" w = Val (JNum p).

Definition at_most_one_daemon (w : world) : Prop :=
  forall p q, procs w !! p = Some Daemon -> procs w !! q = Some Daemon -> p = q.

Definition supply_valid (w : world) : Prop :=
  forall p rest, pid_supply w = p :: rest -> valid_pid p.

Definition mandatory_keys : list string :=
  ["secret_key"; "working_dir"; "deployment_command"].

(** [msg] names the key [k], in quotes. *)
Definition names_key (msg k : string) : Prop :=
  exists pre post, msg = pre +:+ quote k +:+ post.

Definition is_error_log (e : event) : bool :=
  match e with
  | Log LError _ => true
  | _ => false
  end.

Definition error_logs (t : list event) : list event := List.filter is_error_log t.

(** The environment variable of a schema key is not set. *)
Definition env_unset (sch : schema_entry) (w : world) : Prop :=
  match sch_env sch with
  | Some var => env w !! var = None
  | None => True
  end.

(** A key [Conf] reads and writes as one segment, clear of the reserved
    names; every schema key is one. *)
Definition plain_key (k : string) : bool :=
  bool_decide (Conf.segments k = [k])
  && bool_decide (Conf.segments ("_meta." +:+ k) = ["_meta"; k])
  && negb (String.eqb k Conf.INTERNAL_KEY || String.prefix (Conf.INTERNAL_KEY +:+ ".") k)
  && negb (String.eqb ("_meta." +:+ k) Conf.INTERNAL_KEY
           || String.prefix (Conf.INTERNAL_KEY +:+ ".") ("_meta." +:+ k))
  && negb (String.eqb k "_meta").

(** The store after [setConfig k v] at time [t]. *)
Definition stored (k : string) (v : json) (t : string) (st : list (string * json))
  : list (string * json) :=
  let st1 := obj_set k v st in
  let child := match assoc "_meta" st1 with
               | Some (JObj cfs) => cfs
               | _ => []
               end in
  obj_set "_meta" (JObj (obj_set k (JObj [("updatedAt", JStr t)]) child)) st1.

(** Two property lists that differ at most in the non-empty string held
    under [secret]. *)
Definition field_sim (f1 f2 : string * json) : Prop :=
  fst f1 = fst f2 /\
  (snd f1 = snd f2 \/
   (fst f1 = "secret" /\
    exists s1 s2, snd f1 = JStr s1 /\ snd f2 = JStr s2 /\ s1 <> "" /\ s2 <> "")).

Definition profile_sim (p1 p2 : json) : Prop :=
  p1 = p2 \/ exists fs1 fs2, p1 = JObj fs1 /\ p2 = JObj fs2 /\ Forall2 field_sim fs1 fs2.

(** Two profile maps that differ only in the secret strings of their
    profiles. *)
Definition servers_sim (ss1 ss2 : list (string * json)) : Prop :=
  Forall2 (fun e1 e2 => fst e1 = fst e2 /\ profile_sim (snd e1) (snd e2)) ss1 ss2.

(** The secret of a profile, as [getClientConfig] reads it. *)
Definition profile_secret (p : jsval) : jsval :=
  match member p "secret" with
  | Got s => s
  | Raised _ => Undefined
  end.

(** The arguments [start] hands to the detached child. *)
Definition native_args (o : options) : list string :=
  "listen" :: (if truthy (options_port o) then ["--port"; to_string (options_port o)] else []).

(** The world once [setConfig('server_pid', null)] has run. *)
Definition cleared (w : world) : world :=
  set_store (stored "server_pid" JNull (clock w) (store w)) w.

(** The world once a detached child with pid [p] has been spawned, its
    pid persisted and the success logged. *)
Definition launched (o : options) (p : Z) (rest : list Z) (w : world) : world :=
  let w1 := emit (Spawned (argv0 w) (argv1 w :: native_args o) true (env w))
              (set_procs (<[p := Daemon]> (procs w)) (set_pid_supply rest w)) in
  emit (Log LSuccess ("Server started in background (native) with PID " +:+ string_of_Z p))
    (set_store (stored "server_pid" (JNum p) (clock w) (store w1)) w1).

Definition detached_spawns (t : list event) : nat :=
  length (List.filter (fun e => match e with Spawned _ _ true _ => true | _ => false end) t).

(** The environment [start] passes to the process manager. *)
Definition pm2_env (o : options) (w : world) : gmap string string :=
  if truthy (options_port o)
  then <["SERVER_PORT" := to_string (options_port o)]> (env w)
  else env w.

(** The world once [start] has spawned the process manager. *)
Definition pm2_asked (o : options) (w : world) : world :=
  emit (Spawned "pm2" ["start"; script_path w; "--name"; "redep-server"] false (pm2_env o w)) w.

(** An action that calls [process.exit] with no code other than 1. *)
Definition exits_with_1 {A} (m : M A) : Prop :=
  forall w, match m w with Exited c _ => c = 1%Z | _ => True end.

(** The texts of the errors the commands print before exiting. *)
Definition bad_type_message : string :=
  "Type must be either " +:+ dq +:+ "client" +:+ dq +:+ " or " +:+ dq +:+ "server" +:+ dq.

Definition no_server_message (serverName : string) : string :=
  "Error: Server " +:+ dq +:+ serverName +:+ dq +:+ " not found in config, and global "
  +:+ dq +:+ "server_url" +:+ dq +:+ " is not set.".

Definition init_hint_message : string :=
  "Run " +:+ dq +:+ "redep init client" +:+ dq +:+ " to configure a server.".

Definition no_secret_message : string :=
  "Error: " +:+ dq +:+ "secret_key" +:+ dq
  +:+ " is not set. Set SECRET_KEY env var or run " +:+ dq
  +:+ "redep config set secret_key <your-secret>" +:+ dq.

(** ** Sample worlds *)

Definition blank : world :=
  {| store := []; env := ∅; procs := ∅; pid_supply := [4243%Z]; clock := "2026-01-22T14:28:14.000Z";
     argv0 := "/usr/bin/node"; argv1 := "/usr/lib/node_modules/redep/bin/index.js";
     script_path := "/usr/lib/node_modules/redep/server-entry.js"; trace := [] |}.

Definition configured : world :=
  set_store [ ("secret_key", JStr "s3cret"); ("working_dir", JStr "/srv/app");
              ("deployment_command", JStr "docker compose up -d") ] blank.

(** A configured host whose recorded server 4242 is running. *)
Definition running : world :=
  set_procs (<[4242%Z := Daemon]> ∅)
    (set_store (store configured ++ [("server_pid", JNum 4242)]) configured).

(** The same record, but the process is gone. *)
Definition stale : world := set_procs ∅ running.

(** A client with a global endpoint and secret and no profile at all. *)
Definition global_client : world :=
  set_store [ ("server_url", JStr "http://10.0.0.5:3000"); ("secret_key", JStr "s3cret") ]
    blank.

Definition prod_profile (secret : string) : list (string * json) :=
  [ ("prod", JObj [("url", JStr "https://deploy.example.com"); ("secret", JStr secret)]) ].

Definition client_with (secret : string) : world :=
  set_store [("servers", JObj (prod_profile secret))] blank.

Definition no_port : options := {| port := None |}.

(** The configured host with [SECRET_KEY] exported in the environment. *)
Definition overridden : world :=
  {| store := store configured; env := <["SECRET_KEY" := "from-env"]> ∅;
     procs := ∅; pid_supply := []; clock := clock configured;
     argv0 := argv0 configured; argv1 := argv1 configured;
     script_path := script_path configured; trace := [] |}.

(** * More of the code *)

(** ** lib/config.js: the detailed listings *)

Module Listing.

Record detail_row : Type := {
  det_key : string;
  det_value : jsval;
  det_defaultValue : jsval;
  det_source : string;
  det_security : string;
  det_updatedAt : jsval;
  det_description : string
}.

(** [CONFIG_SCHEMA[key]] used as a condition: truthy for the keys of the
    schema and for the names every object inherits. *)
Definition in_schema_object (key : string) : bool :=
  match schema key with
  | Some _ => true
  | None => in_list key object_prototype_members
  end.

(** [meta[key]?.updatedAt || 'N/A']. *)
Definition updatedAt_of (meta : jsval) (key : string) : res jsval :=
  entry ← member meta key;
  match entry with
  | Undefined | Val JNull => Got (Val (JStr "N/A"))
  | _ => u ← member entry "updatedAt"; Got (jor u (Val (JStr "N/A")))
  end.

(** The row pushed for one key of the schema. *)
Definition schema_row (w : world) (meta : jsval) (entry : string * schema_entry)
  : res detail_row :=
  let key := fst entry in
  let sch := snd entry in
  let fileValue := Conf.get key (store w) in
  let envValue := match sch_env sch with
                  | Some var => env w !! var
                  | None => None
                  end in
  let current :=
    match envValue with
    | Some s => (Val (JStr s), "Environment")
    | None =>
        match fileValue with
        | Undefined => (Val (sch_default sch), "Default")
        | _ => (fileValue, "File")
        end
    end in
  updatedAt ← updatedAt_of meta key;
  Got {| det_key := key;
         det_value := fst current;
         det_defaultValue := Val (sch_default sch);
         det_source := snd current;
         det_security := sch_security sch;
         det_updatedAt := updatedAt;
         det_description := sch_description sch |}.

(** The row pushed for a key of the store that is not in the schema. *)
Definition custom_row (w : world) (meta : jsval) (key : string) : res detail_row :=
  updatedAt ← updatedAt_of meta key;
  Got {| det_key := key;
         det_value := match assoc key (store w) with
                      | Some j => Val j
                      | None => Undefined
                      end;
         det_defaultValue := Undefined;
         det_source := "File";
         det_security := "unknown";
         det_updatedAt := updatedAt;
         det_description := "Custom Configuration" |}.

Definition is_custom_key (key : string) : bool :=
  negb (in_schema_object key) && negb (String.eqb key "_meta").

Definition getDetailedConfig (w : world) : res (list detail_row) :=
  let all := store w in
  let meta := jor (match assoc "_meta" all with
                   | Some j => Val j
                   | None => Undefined
                   end) (Val (JObj [])) in
  schema_rows ← res_map (schema_row w meta) CONFIG_SCHEMA;
  custom_rows ← res_map (custom_row w meta) (List.filter is_custom_key (map fst all));
  Got (schema_rows ++ custom_rows)%list.

Definition server_keys : list string :=
  ["server_port"; "secret_key"; "working_dir"; "deployment_command"; "server_pid"].

Definition getServerConfig (w : world) : res (list detail_row) :=
  detailed ← getDetailedConfig w;
  Got (List.filter (fun item => in_list (det_key item) server_keys) detailed).

End Listing.
Export Listing.

(** ** bin/index.js: token generation and the remaining commands *)

Module Token.

(** The character of a six-bit value in the base64 alphabet. *)
Definition base64_char (i : N) : ascii :=
  if (i <? 26)%N then ascii_of_N (65 + i)
  else if (i <? 52)%N then ascii_of_N (71 + i)
  else if (i <? 62)%N then ascii_of_N (i - 4)
  else if (i =? 62)%N then "+"%char
  else "/"%char.

(** The 24 bits of up to three bytes, and the six-bit group [k] of them. *)
Definition bits24 (a b c : Byte.byte) : N :=
  (65536 * Byte.to_N a + 256 * Byte.to_N b + Byte.to_N c)%N.

Definition sextet (n : N) (k : N) : ascii :=
  base64_char ((n / 2 ^ (6 * (3 - k))) mod 64)%N.

(** [buffer.toString('base64')], padded with [=]. *)
Fixpoint base64 (bs : list Byte.byte) : list ascii :=
  match bs with
  | [] => []
  | [a] =>
      let n := bits24 a Byte.x00 Byte.x00 in
      [sextet n 0; sextet n 1; "="%char; "="%char]
  | [a; b] =>
      let n := bits24 a b Byte.x00 in
      [sextet n 0; sextet n 1; sextet n 2; "="%char]
  | a :: b :: c :: rest =>
      let n := bits24 a b c in
      sextet n 0 :: sextet n 1 :: sextet n 2 :: sextet n 3 :: base64 rest
  end.

(** [Math.ceil(length * 0.75)]. *)
Definition bytes_needed (length : nat) : nat := ((3 * length + 3) / 4)%nat.

(** [crypto.randomBytes(n)]: the next [n] bytes of the random source. *)
Definition randomBytes (n : nat) (entropy : list Byte.byte) : list Byte.byte :=
  firstn n entropy.

(** [.replace(/\+/g, '-').replace(/\//g, '_')], one character at a time. *)
Definition url_char (c : ascii) : ascii :=
  if Ascii.eqb c "+"%char then "-"%char
  else if Ascii.eqb c "/"%char then "_"%char
  else c.

Definition generateSecureToken (length : nat) (entropy : list Byte.byte) : string :=
  string_of_list_ascii
    (map url_char (firstn length (base64 (randomBytes (bytes_needed length) entropy)))).

(** The default [length]. *)
Definition default_token_length : nat := 32.

End Token.
Export Token.

Module Commands.

(** [generate secret_key]. *)
Definition generate_secret_key_action (entropy : list Byte.byte) : M unit :=
  try_catch
    (let secret := generateSecureToken default_token_length entropy in
     setConfig "secret_key" (Val (JStr secret));;
     logger LSuccess ("Secret Key generated and saved: " +:+ secret))
    (fun error => logger LError ("Generation failed: " +:+ err_message error)).

(** [generate working_dir]; [cwd] is [process.cwd()]. *)
Definition generate_working_dir_action (cwd : string) : M unit :=
  try_catch
    (setConfig "working_dir" (Val (JStr cwd));;
     logger LSuccess ("Working Directory set to: " +:+ cwd))
    (fun error => logger LError ("Failed to set working directory: " +:+ err_message error)).

(** [config set <key> <value>]. *)
Definition config_set_action (key value : string) : M unit :=
  setConfig key (Val (JStr value));;
  logger LSuccess ("Configuration updated: " +:+ key +:+ " = " +:+ value).

(** [config get <key>]. *)
Definition config_get_action (key : string) : M unit :=
  value ← gets (getConfig key);
  logger LInfo (key +:+ ": " +:+ to_string value).

(** [config clear]. *)
Definition config_clear_action : M unit :=
  clearConfig;;
  logger LSuccess "All configurations have been cleared.".

(** The comparator of [config list --sort security]:
    [(levels[a] || 4) - (levels[b] || 4)]. *)
Definition levels : list (string * json) :=
  [ ("critical", JNum 0); ("high", JNum 1); ("medium", JNum 2); ("low", JNum 3);
    ("unknown", JNum 4) ].

Definition security_rank (security : string) : jsval :=
  jor (obj_member levels security) (Val (JNum 4)).

(** The [security] branch of the comparator handed to [detailed.sort]:
    [(levels[a.security] || 4) - (levels[b.security] || 4)].  Both ranks
    are numbers for the levels the listing uses; [None] stands for the NaN
    that the difference is otherwise. *)
Definition security_compare (a b : detail_row) : option Z :=
  match security_rank (det_security a), security_rank (det_security b) with
  | Val (JNum x), Val (JNum y) => Some (x - y)%Z
  | _, _ => None
  end.

End Commands.
Export Commands.

(** ** Vocabulary of the further properties *)

(** The world once [setConfig k v] has run. *)
Definition put (k : string) (v : json) (w : world) : world :=
  set_store (stored k v (clock w) (store w)) w.

(** Characters that need no escaping in a URL: letters, digits, [-], [_]. *)
Definition url_safe (c : ascii) : bool :=
  let n := N_of_ascii c in
  ((48 <=? n) && (n <=? 57) || (65 <=? n) && (n <=? 90) || (97 <=? n) && (n <=? 122)
   || (n =? 45) || (n =? 95))%N.

(** The three environment variables of the mandatory keys are not set. *)
Definition mandatory_env_unset (w : world) : Prop :=
  env w !! "SECRET_KEY" = None /\ env w !! "WORKING_DIR" = None
  /\ env w !! "DEPLOYMENT_COMMAND" = None.

(** A profile [getClientConfig] can list: an object whose [url], when
    present, is a string or a falsy value. *)
Definition listable (p : json) : Prop :=
  exists fs, p = JObj fs /\
    match assoc "url" fs with
    | Some (JStr _) | None => True
    | Some j => truthy (Val j) = false
    end.

(** Between two worlds: nothing persisted changed except, possibly, the
    recorded pid and its timestamp. *)
Definition only_pid_written (w w' : world) : Prop :=
  env w' = env w /\
  forall k, k <> "server_pid" -> k <> "_meta" -> assoc k (store w') = assoc k (store w).

(** Between two worlds: no process has ended. *)
Definition none_ended (w w' : world) : Prop :=
  forall p, procs w !! p <> None -> procs w' !! p <> None.

(** Between two worlds: a process that ended is the one whose pid was on
    record, no process appeared, and the record is kept or cleared. *)
Definition only_recorded_ended (w w' : world) : Prop :=
  (forall p, procs w !! p <> None -> procs w' !! p = None ->
             to_pid (getConfig "server_pid" w) = Some p)
  /\ (forall p, procs w !! p = None -> procs w' !! p = None)
  /\ (getConfig "server_pid" w' = getConfig "server_pid" w
      \/ getConfig "server_pid" w' = Val JNull).

(** An action whose every run, from any world, ends in a world related to
    the initial one. *)
Definition keeps {A} (R : world -> world -> Prop) (m : M A) : Prop :=
  forall w, R w (final_world (m w)).

Definition sample_answers : answers :=
  {| server_name := "staging"; server_url := "http://10.0.0.5:3000";
     secret_key := "st4ging"; server_port := "3000"; working_dir := "/srv/app";
     deployment_command := "docker compose up -d" |}.

Definition zero_bytes (n : nat) : list Byte.byte := repeat Byte.x00 n.

(** A host where [SECRET_KEY=] was exported empty over a stored secret. *)
Definition blanked : world :=
  {| store := store configured; env := <["SECRET_KEY" := ""]> ∅;
     procs := ∅; pid_supply := []; clock := clock configured;
     argv0 := argv0 configured; argv1 := argv1 configured;
     script_path := script_path configured; trace := [] |}.

(** How many characters of the base64 text of [m] bytes carry data, the
    rest being padding. *)
Fixpoint data_length (m : nat) : nat :=
  match m with
  | 0 => 0
  | 1 => 2
  | 2 => 3
  | S (S (S m')) => 4 + data_length m'
  end.

(** Between two worlds: the same processes are alive and the same pids
    are still to be handed out. *)
Definition same_processes (w w' : world) : Prop :=
  procs w' = procs w /\ pid_supply w' = pid_supply w.

(** The secret [init server] stores: the one typed in, or the generated
    token when none was typed. *)
Definition chosen_secret (a : answers) (token : string) : string :=
  if truthy (Val (JStr (secret_key a))) then secret_key a else token.

(** The world [init server] leaves when the prompt is answered. *)
Definition init_server_world (a : answers) (token : string) (w : world) : world :=
  let w1 := if truthy (Val (JStr (secret_key a))) then w
            else emit (Log LInfo ("Generated Secret Key: " +:+ token)) w in
  let w2 := put "working_dir" (JStr (working_dir a))
              (put "server_port" (JStr (server_port a)) w1) in
  let w3 := if truthy (Val (JStr (deployment_command a)))
            then put "deployment_command" (JStr (deployment_command a)) w2
            else w2 in
  emit (Log LSuccess "Server configuration saved successfully.")
    (put "secret_key" (JStr (chosen_secret a token)) w3).

(** The profiles [init client] and [deploy] start from: the object held
    under [servers], or the empty object when a falsy value is held there;
    none when a truthy value that is not an object is. *)
Definition profiles_of (w : world) : option (list (string * json)) :=
  match getConfig "servers" w with
  | Val (JObj ss) => Some ss
  | v => if truthy v then None else Some []
  end.

(** The profile [init client] writes for the answers given. *)
Definition profile_of (a : answers) : json :=
  JObj [("url", JStr (server_url a)); ("secret", JStr (secret_key a))].

(** The port [listen] serves on. *)
Definition listen_port (o : options) (w : world) : jsval :=
  jor (jor (options_port o) (getConfig "server_port" w)) (Val (JNum 3000)).

(** A profile written with the field names [host] and [secret_key], on a
    client whose global settings are complete. *)
Definition host_profile : list (string * json) :=
  [("host", JStr "http://localhost:3000"); ("secret_key", JStr "mysecret")].

Definition host_client : world :=
  put "servers" (JObj [("dev", JObj host_profile)]) global_client.

(** The security levels a row of the detailed listing can carry. *)
Definition listing_levels : list string :=
  ["low"; "critical"; "medium"; "high"; "unknown"].

(** The recorded pid is there and passes the probe. *)
Definition settled (w : world) : Prop :=
  truthy (getConfig "server_pid" w) = true
  /\ probe (getConfig "server_pid" w) w = true.

(** ** Sample runs *)

(** A configured host to which the OS will hand the pids 4243 and 4244. *)
Definition two_pids : world := set_pid_supply [4243%Z; 4244%Z] configured.

(** The process manager is not installed: its shell exits with 127. *)
Definition no_pm2 : shell_run := Delivers [ChildClose (Some 127%Z)].

(** [start]; then [config clear] and [init server]; then [start] again. *)
Definition first_start : world := final_world (start_action no_port no_pm2 two_pids).

Definition reconfigured : world :=
  final_world (init_action "server" (Answers sample_answers) "t0ken"
                 (final_world (config_clear_action first_start))).

Definition second_start : world := final_world (start_action no_port no_pm2 reconfigured).

(** [start]; then [config set server_pid 999]. *)
Definition misrecorded : world :=
  final_world (config_set_action "server_pid" "999" first_start).

(** A host whose recorded pid 4242 now belongs to a process of another
    user. *)
Definition guarded : world := set_procs (<[4242%Z := ForeignProcess]> ∅) running.

(** ** Vocabulary of the exit codes and of the record *)

(** The record is one the program itself writes: none, or the pid of a
    child it spawned. *)
Definition own_record (w : world) : Prop :=
  getConfig "server_pid" w = Val JNull
  \/ exists p, valid_pid p /\ getConfig "server_pid" w = Val (JNum p).

(** An action that logs at level error only on its way to
    [process.exit(1)], and then exactly one message. *)
Definition accounted {A} (m : M A) : Prop :=
  forall w,
    match m w with
    | Exited c w' =>
        c = 1%Z
        /\ exists msg, error_logs (trace w') = (error_logs (trace w) ++ [Log LError msg])%list
    | Returned _ w' | Thrown _ w' => error_logs (trace w') = error_logs (trace w)
    end.

(** An action that lets no exception escape. *)
Definition never_throws {A} (m : M A) : Prop :=
  forall w, match m w with Thrown _ _ => False | _ => True end.

Definition is_stop (c : command) : bool :=
  match c with CmdStop _ => true | _ => false end.

(** The commands that wrap all they do in [try]/[catch], so that every
    failure ends in [process.exit(1)]. *)
Definition settles (c : command) : bool :=
  match c with
  | CmdInit _ _ _ | CmdDeploy _ _ => true
  | _ => false
  end.

Definition is_letter (c : ascii) : bool :=
  let n := N_of_ascii c in
  ((65 <=? n) && (n <=? 90) || (97 <=? n) && (n <=? 122))%N.

(** * Properties *)

(** ** Objects and the store *)

Section ObjectLemmas.

Implicit Types (k : string) (v : json) (fs : list (string * json)).

Lemma assoc_obj_replace_eq k v fs :
  assoc k fs <> None -> assoc k (obj_replace k v fs) = Some v.
Proof.
  induction fs as [|[k' v'] rest IH]; simpl; [congruence |].
  destruct (String.eqb k k') eqn:E; simpl.
  - now rewrite String.eqb_refl.
  - rewrite E. exact IH.
Qed.

Lemma assoc_obj_replace_ne k k' v fs :
  k <> k' -> assoc k' (obj_replace k v fs) = assoc k' fs.
Proof.
  intros Hne. induction fs as [|[k0 v0] rest IH]; simpl; [reflexivity |].
  destruct (String.eqb k k0) eqn:E; simpl.
  - apply String.eqb_eq in E. subst k0.
    assert (String.eqb k' k = false) as -> by (apply String.eqb_neq; congruence).
    reflexivity.
  - destruct (String.eqb k' k0); [reflexivity | exact IH].
Qed.

Lemma assoc_obj_insert_index_eq i k v fs :
  assoc k fs = None -> assoc k (obj_insert_index i k v fs) = Some v.
Proof.
  induction fs as [|[k' v'] rest IH]; simpl; intros Hnone.
  - now rewrite String.eqb_refl.
  - destruct (String.eqb k k') eqn:E; [discriminate |].
    destruct (array_index k') as [j|]; [destruct (j <? i)%N |]; simpl;
      rewrite ?E, ?String.eqb_refl; auto.
Qed.

Lemma assoc_obj_insert_index_ne i k k' v fs :
  k <> k' -> assoc k' (obj_insert_index i k v fs) = assoc k' fs.
Proof.
  intros Hne.
  assert (String.eqb k' k = false) as Hkk by (apply String.eqb_neq; congruence).
  induction fs as [|[k0 v0] rest IH]; simpl.
  - now rewrite Hkk.
  - destruct (array_index k0) as [j|]; [destruct (j <? i)%N |]; simpl;
      rewrite ?Hkk, ?IH; reflexivity.
Qed.

Lemma assoc_app k fs gs :
  assoc k (fs ++ gs) = match assoc k fs with Some x => Some x | None => assoc k gs end.
Proof.
  induction fs as [|[k' v'] rest IH]; simpl; [reflexivity |].
  destruct (String.eqb k k'); [reflexivity | exact IH].
Qed.

Lemma assoc_obj_set_eq k v fs : assoc k (obj_set k v fs) = Some v.
Proof.
  unfold obj_set. destruct (assoc k fs) eqn:E.
  - apply assoc_obj_replace_eq. congruence.
  - destruct (array_index k).
    + now apply assoc_obj_insert_index_eq.
    + rewrite assoc_app, E. simpl. now rewrite String.eqb_refl.
Qed.

Lemma assoc_obj_set_ne k k' v fs : k <> k' -> assoc k' (obj_set k v fs) = assoc k' fs.
Proof.
  intros Hne. unfold obj_set. destruct (assoc k fs).
  - now apply assoc_obj_replace_ne.
  - destruct (array_index k).
    + now apply assoc_obj_insert_index_ne.
    + rewrite assoc_app. destruct (assoc k' fs); [reflexivity |].
      simpl. assert (String.eqb k' k = false) as -> by (apply String.eqb_neq; congruence).
      reflexivity.
Qed.

End ObjectLemmas.

Lemma plain_key_parts k :
  plain_key k = true ->
  Conf.segments k = [k]
  /\ Conf.segments ("_meta." +:+ k) = ["_meta"; k]
  /\ (String.eqb k Conf.INTERNAL_KEY || String.prefix (Conf.INTERNAL_KEY +:+ ".") k) = false
  /\ (String.eqb ("_meta." +:+ k) Conf.INTERNAL_KEY
      || String.prefix (Conf.INTERNAL_KEY +:+ ".") ("_meta." +:+ k)) = false
  /\ k <> "_meta".
Proof.
  unfold plain_key. intros H.
  apply andb_prop in H as [H H5]. apply andb_prop in H as [H H4].
  apply andb_prop in H as [H H3]. apply andb_prop in H as [H1 H2].
  apply bool_decide_eq_true in H1. apply bool_decide_eq_true in H2.
  apply negb_true_iff in H3. apply negb_true_iff in H4.
  apply negb_true_iff, String.eqb_neq in H5. auto.
Qed.

Section PlainKeys.

Variable k : string.
Hypothesis Hplain : plain_key k = true.

Lemma plain_key_not_meta : k <> "_meta".
Proof. apply plain_key_parts in Hplain. tauto. Qed.

Lemma conf_set_plain v st : Conf.set k (Val v) st = Got (obj_set k v st).
Proof.
  destruct (plain_key_parts k Hplain) as (H1 & _ & H3 & _).
  unfold Conf.set. now rewrite H3, H1.
Qed.

Lemma conf_set_meta_plain v st :
  Conf.set ("_meta." +:+ k) (Val v) st
  = Got (obj_set "_meta"
           (JObj (obj_set k v match assoc "_meta" st with
                              | Some (JObj cfs) => cfs
                              | _ => []
                              end)) st).
Proof.
  destruct (plain_key_parts k Hplain) as (_ & H2 & _ & H4 & _).
  unfold Conf.set. now rewrite H4, H2.
Qed.

Lemma conf_get_plain st :
  Conf.get k st = match assoc k st with Some j => Val j | None => Undefined end.
Proof.
  destruct (plain_key_parts k Hplain) as (H1 & _).
  unfold Conf.get. rewrite H1. now destruct (assoc k st).
Qed.

(** [setConfig] on a plain key always succeeds and leaves [stored]. *)
Lemma setConfig_plain v w :
  setConfig k (Val v) w = Returned tt (set_store (stored k v (clock w) (store w)) w).
Proof.
  unfold setConfig. rewrite conf_set_plain, conf_set_meta_plain. reflexivity.
Qed.

Lemma conf_get_stored v t st : Conf.get k (stored k v t st) = Val v.
Proof.
  rewrite conf_get_plain. unfold stored.
  rewrite assoc_obj_set_ne by (intros E; symmetry in E; now apply plain_key_not_meta).
  now rewrite assoc_obj_set_eq.
Qed.

Lemma assoc_stored_other k' v t st :
  k' <> k -> k' <> "_meta" -> assoc k' (stored k v t st) = assoc k' st.
Proof.
  intros H1 H2. unfold stored.
  rewrite assoc_obj_set_ne by congruence. now rewrite assoc_obj_set_ne by congruence.
Qed.

End PlainKeys.

Lemma schema_keys k sch :
  schema k = Some sch ->
  In k ["server_port"; "secret_key"; "working_dir"; "deployment_command";
        "server_url"; "servers"; "server_pid"].
Proof.
  unfold schema, CONFIG_SCHEMA. simpl.
  repeat match goal with
         | |- context [String.eqb k ?s] =>
             destruct (String.eqb_spec k s); [subst; simpl; tauto |]
         end.
  discriminate.
Qed.

Lemma schema_key_plain k sch : schema k = Some sch -> plain_key k = true.
Proof.
  intros H. apply schema_keys in H. simpl in H.
  repeat (destruct H as [<- | H]; [vm_compute; reflexivity |]). contradiction.
Qed.

(** ** The configuration provider *)

(** C4. For every schema key: an environment value, when set, is what
    [getConfig] returns whatever is stored; otherwise [setConfig k v]
    succeeds and [getConfig k] then returns [v]; and with neither an
    environment value nor a stored one it returns the schema default. *)
Theorem getConfig_precedence (k : string) (sch : schema_entry)
    (Hk : schema k = Some sch) :
  (forall w var s, sch_env sch = Some var -> env w !! var = Some s ->
                   getConfig k w = Val (JStr s))
  /\ (forall w v, env_unset sch w ->
                  exists w', setConfig k (Val v) w = Returned tt w'
                             /\ getConfig k w' = Val v)
  /\ (forall w, env_unset sch w -> Conf.get k (store w) = Undefined ->
                getConfig k w = Val (sch_default sch)).
Proof.
  pose proof (schema_key_plain k sch Hk) as Hplain.
  split; [| split].
  - intros w var s Hvar Hs. unfold getConfig. now rewrite Hk, Hvar, Hs.
  - intros w v Hunset.
    exists (set_store (stored k v (clock w) (store w)) w). split.
    + now apply setConfig_plain.
    + unfold getConfig. rewrite Hk. unfold env_unset in Hunset. simpl.
      destruct (sch_env sch) as [var|]; rewrite ?Hunset;
        now rewrite conf_get_stored.
  - intros w Hunset Hnone. unfold getConfig. rewrite Hk.
    unfold env_unset in Hunset.
    destruct (sch_env sch) as [var|]; rewrite ?Hunset; now rewrite Hnone.
Qed.

Lemma getConfig_precedence_witness :
  getConfig "secret_key" overridden = Val (JStr "from-env")
  /\ getConfig "server_pid" blank = Val JNull.
Proof.
  split.
  - destruct (getConfig_precedence "secret_key" _ eq_refl) as (Henv & _ & _).
    apply (Henv overridden "SECRET_KEY" "from-env"); reflexivity.
  - destruct (getConfig_precedence "server_pid" _ eq_refl) as (_ & _ & Hdef).
    apply (Hdef blank); reflexivity.
Defined.

(** ** Mandatory configuration *)

Lemma append_assoc (a b c : string) : (a +:+ b) +:+ c = a +:+ b +:+ c.
Proof.
  induction a as [|x a IH]; [reflexivity |].
  change (String x ((a +:+ b) +:+ c) = String x (a +:+ b +:+ c)). now rewrite IH.
Qed.

Lemma append_empty_r (a : string) : a +:+ "" = a.
Proof.
  induction a as [|x a IH]; [reflexivity |].
  change (String x (a +:+ "") = String x a). now rewrite IH.
Qed.

Lemma names_key_context (pre post msg k : string) :
  names_key msg k -> names_key (pre +:+ msg +:+ post) k.
Proof.
  intros (a & b & ->). exists (pre +:+ a), (b +:+ post).
  now rewrite !append_assoc.
Qed.

Lemma concat_names_key (sep k : string) (l : list string) :
  In k l -> names_key (String.concat sep (map quote l)) k.
Proof.
  induction l as [|x xs IH]; [contradiction |].
  intros [-> | Hin].
  - destruct xs as [|y ys]; simpl.
    + exists "", "". simpl. now rewrite append_empty_r.
    + exists "", (sep +:+ String.concat sep (quote y :: map quote ys)).
      reflexivity.
  - destruct xs as [|y ys]; [contradiction |].
    change (names_key (quote x +:+ sep +:+ String.concat sep (map quote (y :: ys))) k).
    destruct (IH Hin) as (a & b & ->).
    exists (quote x +:+ sep +:+ a), b. now rewrite !append_assoc.
Qed.

Lemma missing_key_listed (w : world) (k : string) :
  In k mandatory_keys -> truthy (getConfig k w) = false ->
  In k (validateMandatoryConfig w).
Proof.
  unfold mandatory_keys, validateMandatoryConfig. simpl.
  intros [<- | [<- | [<- | []]]] ->;
    destruct (truthy (getConfig "secret_key" w));
    destruct (truthy (getConfig "working_dir" w));
    destruct (truthy (getConfig "deployment_command" w)); simpl; tauto.
Qed.

Lemma missing_message_names (l : list string) (k : string) :
  In k l -> names_key (message_text (getMissingConfigMessage l)) k.
Proof.
  intros Hin. destruct l as [|x xs]; [contradiction |].
  unfold getMissingConfigMessage, message_text.
  apply (names_key_context "Error: Required configuration parameter(s) ").
  now apply concat_names_key.
Qed.

Lemma validate_or_exit_missing (w : world) :
  validateMandatoryConfig w <> [] ->
  validate_or_exit w
  = Exited 1 (emit (Log LError (message_text
                                  (getMissingConfigMessage (validateMandatoryConfig w)))) w).
Proof.
  intros Hne. unfold validate_or_exit, mbind, M_bind, bind, gets.
  destruct (validateMandatoryConfig w) as [|x xs]; [congruence | reflexivity].
Qed.

Lemma validate_or_exit_complete (w : world) :
  validateMandatoryConfig w = [] -> validate_or_exit w = Returned tt w.
Proof.
  intros He. unfold validate_or_exit, mbind, M_bind, bind, gets. now rewrite He.
Qed.

(** C3. When one or more of the three mandatory keys resolves to a falsy
    value, [start] and [listen] both end with exit code 1 having done
    nothing but log one error (no process spawned, no server started), and
    that message names every missing key. *)
Theorem missing_config_fails_fast (o : options) (pm2 : shell_run) (w : world)
    (Hmissing : exists k, In k mandatory_keys /\ truthy (getConfig k w) = false) :
  exists msg,
    start_action o pm2 w = Exited 1 (emit (Log LError msg) w)
    /\ listen_action o w = Exited 1 (emit (Log LError msg) w)
    /\ forall k, In k mandatory_keys -> truthy (getConfig k w) = false ->
                 names_key msg k.
Proof.
  destruct Hmissing as (k0 & Hin0 & Hfalsy0).
  assert (validateMandatoryConfig w <> []) as Hne.
  { intros He. pose proof (missing_key_listed w k0 Hin0 Hfalsy0) as Hin.
    rewrite He in Hin. contradiction. }
  exists (message_text (getMissingConfigMessage (validateMandatoryConfig w))).
  split; [| split].
  - unfold start_action, mbind, M_bind, bind.
    now rewrite (validate_or_exit_missing w Hne).
  - unfold listen_action, mbind, M_bind, bind.
    now rewrite (validate_or_exit_missing w Hne).
  - intros k Hin Hfalsy. apply missing_message_names.
    now apply missing_key_listed.
Qed.

Lemma missing_config_fails_fast_witness :
  exists msg,
    start_action no_port (Delivers [ChildClose (Some 0%Z)]) blank
    = Exited 1 (emit (Log LError msg) blank)
    /\ listen_action no_port blank = Exited 1 (emit (Log LError msg) blank)
    /\ forall k, In k mandatory_keys -> truthy (getConfig k blank) = false ->
                 names_key msg k.
Proof.
  apply missing_config_fails_fast.
  exists "working_dir". split; [simpl; tauto | reflexivity].
Defined.

(** ** The native supervisor *)

Lemma plain_server_pid : plain_key "server_pid" = true.
Proof. vm_compute. reflexivity. Qed.

Lemma getConfig_server_pid (w : world) :
  getConfig "server_pid" w
  = match assoc "server_pid" (store w) with Some j => Val j | None => Val JNull end.
Proof.
  unfold getConfig. change (schema "server_pid") with
    (Some {| sch_default := JNull; sch_security := "low"; sch_env := None;
             sch_description := "Server Process ID" |}).
  cbv iota beta. rewrite (conf_get_plain _ plain_server_pid).
  now destruct (assoc "server_pid" (store w)).
Qed.

Lemma getConfig_server_pid_stored (v : json) (t : string) (st : list (string * json))
    (w : world) :
  store w = stored "server_pid" v t st -> getConfig "server_pid" w = Val v.
Proof.
  intros Hst. rewrite getConfig_server_pid, Hst.
  pose proof (conf_get_stored _ plain_server_pid v t st) as H.
  rewrite (conf_get_plain _ plain_server_pid) in H.
  destruct (assoc "server_pid" (stored "server_pid" v t st)); congruence.
Qed.

Lemma setConfig_server_pid (v : json) (w : world) :
  setConfig "server_pid" (Val v) w
  = Returned tt (set_store (stored "server_pid" v (clock w) (store w)) w).
Proof. apply (setConfig_plain _ plain_server_pid). Qed.

(** The probe either succeeds on a process this user may signal, or throws
    and leaves the world as it was. *)
Lemma kill_SIG0_cases (pid : jsval) (w : world) :
  (exists p, to_pid pid = Some p
             /\ (procs w !! p = Some Daemon \/ procs w !! p = Some OwnProcess)
             /\ kill pid SIG0 w = Returned tt (emit (Signalled p SIG0) w)
             /\ probe pid w = true)
  \/ (exists e, kill pid SIG0 w = Thrown e w /\ probe pid w = false).
Proof.
  unfold probe, kill. destruct (to_pid pid) as [p|]; [| right; eauto].
  destruct (procs w !! p) as [[]|] eqn:E; try (right; eauto; fail);
    left; exists p; auto.
Qed.

Ltac run_action :=
  unfold mbind, mret, M_bind, M_ret, bind, ret, gets, try_catch, logger,
    spawn_detached, exit, throw; cbn beta iota.

Lemma start_native_live (o : options) (w : world) (p : Z) :
  truthy (getConfig "server_pid" w) = true ->
  kill (getConfig "server_pid" w) SIG0 w = Returned tt (emit (Signalled p SIG0) w) ->
  startNativeBackground o w
  = Returned tt (emit (Log LWarn ("Server is already running with PID "
                                  +:+ to_string (getConfig "server_pid" w)))
                   (emit (Signalled p SIG0) w)).
Proof.
  intros Ht Hk. unfold startNativeBackground. run_action.
  rewrite Ht. cbn beta iota. now rewrite Hk.
Qed.

Lemma start_native_gone (o : options) (w : world) (e : error) (p : Z) (rest : list Z) :
  truthy (getConfig "server_pid" w) = true ->
  kill (getConfig "server_pid" w) SIG0 w = Thrown e w ->
  pid_supply w = p :: rest ->
  startNativeBackground o w = Returned tt (launched o p rest (cleared w)).
Proof.
  intros Ht Hk Hs. unfold startNativeBackground. run_action.
  rewrite Ht. cbn beta iota. rewrite Hk, setConfig_server_pid. cbn.
  rewrite Hs, setConfig_server_pid. reflexivity.
Qed.

Lemma start_native_gone_no_child (o : options) (w : world) (e : error) :
  truthy (getConfig "server_pid" w) = true ->
  kill (getConfig "server_pid" w) SIG0 w = Thrown e w ->
  pid_supply w = [] ->
  startNativeBackground o w
  = Thrown (TypeError "Use `delete()` to clear values") (cleared w).
Proof.
  intros Ht Hk Hs. unfold startNativeBackground. run_action.
  rewrite Ht. cbn beta iota. rewrite Hk, setConfig_server_pid. cbn.
  rewrite Hs. reflexivity.
Qed.

Lemma start_native_absent (o : options) (w : world) (p : Z) (rest : list Z) :
  truthy (getConfig "server_pid" w) = false ->
  pid_supply w = p :: rest ->
  startNativeBackground o w = Returned tt (launched o p rest w).
Proof.
  intros Ht Hs. unfold startNativeBackground. run_action.
  rewrite Ht. cbn beta iota. rewrite Hs, setConfig_server_pid. reflexivity.
Qed.

Lemma start_native_absent_no_child (o : options) (w : world) :
  truthy (getConfig "server_pid" w) = false ->
  pid_supply w = [] ->
  startNativeBackground o w = Thrown (TypeError "Use `delete()` to clear values") w.
Proof.
  intros Ht Hs. unfold startNativeBackground. run_action.
  rewrite Ht. cbn beta iota. rewrite Hs. reflexivity.
Qed.

Lemma probe_same_table (pid : jsval) (w w' : world) :
  procs w' = procs w -> probe pid w' = probe pid w.
Proof.
  intros H. unfold probe, kill. rewrite H.
  destruct (to_pid pid) as [p|]; [| reflexivity].
  now destruct (procs w !! p) as [[]|].
Qed.

Lemma getConfig_same_store (k : string) (w w' : world) :
  store w' = store w -> env w' = env w -> getConfig k w' = getConfig k w.
Proof. intros Hs He. unfold getConfig. now rewrite Hs, He. Qed.

Lemma valid_pid_recorded (p : Z) :
  valid_pid p -> truthy (Val (JNum p)) = true /\ to_pid (Val (JNum p)) = Some p.
Proof.
  unfold valid_pid, truthy, to_pid, int32. intros [Hlo Hhi]. split.
  - apply negb_true_iff, Z.eqb_neq. lia.
  - assert ((-2147483648 <=? p)%Z && (p <=? 2147483647)%Z = true) as ->; [| reflexivity].
    apply andb_true_intro. split; apply Z.leb_le; lia.
Qed.

(** A recorded, valid pid of a live daemon passes the probe. *)
Lemma probe_daemon (p : Z) (w : world) :
  valid_pid p -> procs w !! p = Some Daemon -> probe (Val (JNum p)) w = true.
Proof.
  intros Hv Hp. destruct (valid_pid_recorded p Hv) as [_ Hpid].
  unfold probe, kill. now rewrite Hpid, Hp.
Qed.

Lemma launched_procs o p rest w : procs (launched o p rest w) = <[p := Daemon]> (procs w).
Proof. reflexivity. Qed.

Lemma launched_recorded o p rest w :
  getConfig "server_pid" (launched o p rest w) = Val (JNum p).
Proof. now apply (getConfig_server_pid_stored (JNum p) (clock w) (store w)). Qed.

Lemma cleared_recorded w : getConfig "server_pid" (cleared w) = Val JNull.
Proof. now apply (getConfig_server_pid_stored JNull (clock w) (store w)). Qed.

(** The three ways [startNativeBackground] can go. *)
Lemma start_native_cases (o : options) (w : world) :
  let pid := getConfig "server_pid" w in
  (exists p, truthy pid = true /\ probe pid w = true /\ to_pid pid = Some p
             /\ startNativeBackground o w
                = Returned tt (emit (Log LWarn ("Server is already running with PID "
                                                +:+ to_string pid))
                                 (emit (Signalled p SIG0) w)))
  \/ (exists p rest w0,
         pid_supply w = p :: rest
         /\ (w0 = w /\ truthy pid = false
             \/ w0 = cleared w /\ truthy pid = true /\ probe pid w = false)
         /\ startNativeBackground o w = Returned tt (launched o p rest w0))
  \/ (exists e w0,
         pid_supply w = []
         /\ (w0 = w /\ truthy pid = false
             \/ w0 = cleared w /\ truthy pid = true /\ probe pid w = false)
         /\ startNativeBackground o w = Thrown e w0).
Proof.
  intros pid. destruct (truthy pid) eqn:Ht.
  - destruct (kill_SIG0_cases pid w) as [(p & Hp & _ & Hk & Hpr) | (e & Hk & Hpr)].
    + left. exists p. repeat split; auto. now apply start_native_live.
    + right. destruct (pid_supply w) as [|p rest] eqn:Hs.
      * right. eexists _, (cleared w). repeat split; [right; auto |].
        now apply (start_native_gone_no_child o w e).
      * left. exists p, rest, (cleared w). repeat split; [right; auto |].
        now apply (start_native_gone o w e).
  - right. destruct (pid_supply w) as [|p rest] eqn:Hs.
    + right. eexists _, w. repeat split; [left; auto |].
      now apply start_native_absent_no_child.
    + left. exists p, rest, w. repeat split; [left; auto |].
      now apply start_native_absent.
Qed.

(** No daemon is alive when the record is absent or fails the probe. *)
Lemma tracked_no_daemon (w : world) :
  tracked w ->
  truthy (getConfig "server_pid" w) = false
  \/ probe (getConfig "server_pid" w) w = false ->
  forall q, procs w !! q <> Some Daemon.
Proof.
  intros Htr Hcase q Hq. destruct (Htr q Hq) as [Hv Hrec].
  rewrite Hrec in Hcase. destruct (valid_pid_recorded q Hv) as [Ht _].
  destruct Hcase as [Hf | Hf].
  - congruence.
  - rewrite (probe_daemon q w Hv Hq) in Hf. discriminate.
Qed.

Lemma tracked_at_most_one (w : world) : tracked w -> at_most_one_daemon w.
Proof.
  intros Htr p q Hp Hq. destruct (Htr p Hp) as [_ H1], (Htr q Hq) as [_ H2].
  congruence.
Qed.

Lemma start_native_keeps_tracked (o : options) (w w' : world) :
  tracked w -> supply_valid w ->
  startNativeBackground o w = Returned tt w' -> tracked w'.
Proof.
  intros Htr Hsup Hrun.
  destruct (start_native_cases o w)
    as [(p & _ & _ & _ & E) | [(p & rest & w0 & Hs & Hw0 & E) | (e & w0 & _ & _ & E)]];
    rewrite E in Hrun; [| | discriminate]; injection Hrun as <-.
  - exact Htr.
  - assert (forall q, procs w0 !! q <> Some Daemon) as Hnone.
    { destruct Hw0 as [[-> Hf] | (-> & _ & Hf)].
      - apply tracked_no_daemon; auto.
      - apply (tracked_no_daemon w); auto. }
    intros q Hq. rewrite launched_procs in Hq. rewrite launched_recorded.
    destruct (decide (p = q)) as [<- | Hne].
    + split; [exact (Hsup p rest Hs) | reflexivity].
    + rewrite lookup_insert_ne in Hq by exact Hne. now apply Hnone in Hq.
Qed.

(** After a start that returned, the record is there and passes the probe. *)
Lemma start_native_settled (o : options) (w w' : world) :
  supply_valid w ->
  startNativeBackground o w = Returned tt w' ->
  truthy (getConfig "server_pid" w') = true
  /\ probe (getConfig "server_pid" w') w' = true.
Proof.
  intros Hsup Hrun.
  destruct (start_native_cases o w)
    as [(p & Ht & Hpr & _ & E) | [(p & rest & w0 & Hs & Hw0 & E) | (e & w0 & _ & _ & E)]];
    rewrite E in Hrun; [| | discriminate]; injection Hrun as <-.
  - split; [exact Ht |].
    rewrite (getConfig_same_store _ w) by reflexivity.
    now rewrite (probe_same_table _ w) by reflexivity.
  - rewrite launched_recorded.
    assert (valid_pid p) as Hv by exact (Hsup p rest Hs).
    split; [apply (valid_pid_recorded p Hv) |].
    apply probe_daemon; [exact Hv |].
    rewrite launched_procs. apply lookup_insert_eq.
Qed.

(** C1. With a pid on record, the native [start] probes it first; for a
    positive pid the probe succeeds when a process of this user has it,
    such as the server it detached, and fails when no process has it.  If
    the probe succeeds, nothing is spawned, the record and the process
    table stay as they are and the existing pid is reported.  If the probe
    fails, the stale record is cleared and then exactly one detached child
    is spawned and its pid persisted.  Hence, as long as every live
    self-managed server is the recorded one, this stays so and there is at
    most one of them; and a second [start] against the live instance spawns
    nothing. *)
Theorem start_native_single_instance (o : options) (w : world)
    (Hrecorded : truthy (getConfig "server_pid" w) = true) :
  let pid := getConfig "server_pid" w in
  (forall p, to_pid pid = Some p -> valid_pid p ->
     (procs w !! p = Some Daemon \/ procs w !! p = Some OwnProcess -> probe pid w = true)
     /\ (procs w !! p = None -> probe pid w = false))
  /\ (probe pid w = true ->
     exists p w',
       to_pid pid = Some p
       /\ startNativeBackground o w = Returned tt w'
       /\ store w' = store w /\ procs w' = procs w /\ pid_supply w' = pid_supply w
       /\ trace w' = (trace w ++ [ Signalled p SIG0;
                                   Log LWarn ("Server is already running with PID "
                                              +:+ to_string pid) ])%list)
  /\ (probe pid w = false ->
        (forall p rest, pid_supply w = p :: rest ->
           exists w',
             startNativeBackground o w = Returned tt w'
             /\ procs w' = <[p := Daemon]> (procs w)
             /\ pid_supply w' = rest
             /\ getConfig "server_pid" w' = Val (JNum p)
             /\ trace w' = (trace w ++ [ Spawned (argv0 w) (argv1 w :: native_args o)
                                                 true (env w);
                                         Log LSuccess
                                           ("Server started in background (native) with PID "
                                            +:+ string_of_Z p) ])%list)
        /\ (pid_supply w = [] ->
              exists e w',
                startNativeBackground o w = Thrown e w'
                /\ getConfig "server_pid" w' = Val JNull
                /\ procs w' = procs w /\ trace w' = trace w))
  /\ (tracked w -> supply_valid w ->
        forall w', startNativeBackground o w = Returned tt w' ->
                   tracked w' /\ at_most_one_daemon w')
  /\ (supply_valid w ->
        forall w1, startNativeBackground o w = Returned tt w1 ->
          exists w2,
            startNativeBackground o w1 = Returned tt w2
            /\ store w2 = store w1 /\ procs w2 = procs w1
            /\ detached_spawns (trace w2) = detached_spawns (trace w1)).
Proof.
  intros pid. split; [| split; [| split; [| split]]].
  - intros p Hp _. unfold probe, kill. rewrite Hp.
    split; [intros [-> | ->] | intros ->]; reflexivity.
  - intros Hlive.
    destruct (kill_SIG0_cases pid w) as [(p & Hp & _ & Hk & _) | (e & _ & Hpr)];
      [| unfold pid in *; congruence].
    exists p. eexists. split; [exact Hp |].
    split; [exact (start_native_live o w p Hrecorded Hk) |].
    split; [reflexivity |]. split; [reflexivity |]. split; [reflexivity |].
    cbn. now rewrite <- app_assoc.
  - intros Hgone.
    destruct (kill_SIG0_cases pid w) as [(q & _ & _ & _ & Hpr) | (e & Hk & _)];
      [unfold pid in *; congruence |].
    split.
    + intros p rest Hs. exists (launched o p rest (cleared w)).
      split; [exact (start_native_gone o w e p rest Hrecorded Hk Hs) |].
      split; [reflexivity |]. split; [reflexivity |].
      split; [apply launched_recorded |]. cbn. now rewrite <- app_assoc.
    + intros Hs. eexists _, (cleared w).
      split; [exact (start_native_gone_no_child o w e Hrecorded Hk Hs) |].
      split; [apply cleared_recorded |]. split; reflexivity.
  - intros Htr Hsup w' Hrun.
    pose proof (start_native_keeps_tracked o w w' Htr Hsup Hrun) as Htr'.
    split; [exact Htr' | now apply tracked_at_most_one].
  - intros Hsup w1 Hrun.
    destruct (start_native_settled o w w1 Hsup Hrun) as [Ht Hpr].
    destruct (kill_SIG0_cases (getConfig "server_pid" w1) w1)
      as [(p & _ & _ & Hk & _) | (e & _ & Hpr')]; [| congruence].
    eexists. split; [exact (start_native_live o w1 p Ht Hk) |].
    split; [reflexivity |]. split; [reflexivity |].
    unfold emit; simpl trace. unfold detached_spawns.
    rewrite !List.filter_app, !length_app. simpl. lia.
Qed.

Lemma start_native_single_instance_witness :
  truthy (getConfig "server_pid" running) = true
  /\ exists p w',
       to_pid (getConfig "server_pid" running) = Some p
       /\ startNativeBackground no_port running = Returned tt w'
       /\ store w' = store running /\ procs w' = procs running
       /\ pid_supply w' = pid_supply running
       /\ trace w' = (trace running
                      ++ [ Signalled p SIG0;
                           Log LWarn ("Server is already running with PID "
                                      +:+ to_string (getConfig "server_pid" running)) ])%list.
Proof.
  split; [reflexivity |].
  apply (start_native_single_instance no_port running); reflexivity.
Defined.

(** Two detached servers alive at once: after [start], [config clear],
    [init server] and [start] again, each of which ends with status 0; and
    after [start], [config set server_pid 999] and the native [start],
    which finds a pid on record, probes it, clears it as stale and spawns
    one child. *)
Lemma start_beside_forgotten_server :
  exit_code (start_action no_port no_pm2 two_pids) = 0%Z
  /\ exit_code (config_clear_action first_start) = 0%Z
  /\ exit_code (init_action "server" (Answers sample_answers) "t0ken"
                  (final_world (config_clear_action first_start))) = 0%Z
  /\ exit_code (start_action no_port no_pm2 reconfigured) = 0%Z
  /\ procs second_start !! 4243%Z = Some Daemon
  /\ procs second_start !! 4244%Z = Some Daemon
  /\ ~ at_most_one_daemon second_start
  /\ truthy (getConfig "server_pid" misrecorded) = true
  /\ probe (getConfig "server_pid" misrecorded) misrecorded = false
  /\ exit_code (startNativeBackground no_port misrecorded) = 0%Z
  /\ detached_spawns (trace (final_world (startNativeBackground no_port misrecorded)))
     = (detached_spawns (trace misrecorded) + 1)%nat
  /\ ~ at_most_one_daemon (final_world (startNativeBackground no_port misrecorded)).
Proof.
  assert (procs second_start !! 4243%Z = Some Daemon) as H1 by (vm_compute; reflexivity).
  assert (procs second_start !! 4244%Z = Some Daemon) as H2 by (vm_compute; reflexivity).
  assert (procs (final_world (startNativeBackground no_port misrecorded)) !! 4243%Z
          = Some Daemon) as H3 by (vm_compute; reflexivity).
  assert (procs (final_world (startNativeBackground no_port misrecorded)) !! 4244%Z
          = Some Daemon) as H4 by (vm_compute; reflexivity).
  repeat split; try (vm_compute; reflexivity); try assumption.
  - intros Hone. specialize (Hone _ _ H1 H2). discriminate.
  - intros Hone. specialize (Hone _ _ H3 H4). discriminate.
Qed.

(** Every way [process.kill] can go. *)
Lemma kill_cases (pid : jsval) (sig : signal) (w : world) :
  (to_pid pid = None /\ kill pid sig w = Thrown ERR_INVALID_ARG_TYPE w)
  \/ exists p, to_pid pid = Some p
     /\ (procs w !! p = None /\ kill pid sig w = Thrown ESRCH w
         \/ procs w !! p = Some ForeignProcess /\ kill pid sig w = Thrown EPERM w
         \/ (procs w !! p = Some Daemon \/ procs w !! p = Some OwnProcess)
            /\ kill pid sig w
               = Returned tt (emit (Signalled p sig)
                                match sig with
                                | SIG0 => w
                                | SIGTERM => set_procs (delete p (procs w)) w
                                end)).
Proof.
  unfold kill. destruct (to_pid pid) as [p|]; [right; exists p; split; [reflexivity|] | now left].
  destruct (procs w !! p) as [[]|]; auto 10.
Qed.

(** What [status] does after the process manager reported failure. *)
Lemma status_native (code : option Z) (w : world) :
  code <> Some 0%Z ->
  status_action (Delivers [ChildClose code]) w
  = (let asked := emit (Spawned "pm2" ["describe"; "redep-server"] false (env w)) w in
     let pid := getConfig "server_pid" w in
     if negb (truthy pid) then Returned tt (emit (Log LInfo "Server is NOT running.") asked)
     else match kill pid SIG0 asked with
          | Returned _ w1 =>
              Returned tt (emit (Log LSuccess ("Server is RUNNING (PID " +:+ to_string pid
                                               +:+ ")")) w1)
          | Exited c w1 => Exited c w1
          | Thrown _ w1 =>
              Returned tt (cleared (emit (Log LWarn ("Server is NOT running (Stale PID "
                                                     +:+ to_string pid +:+ " found).")) w1))
          end).
Proof.
  intros Hcode. unfold status_action, spawn_shell, for_each, on_pm2_status_event.
  run_action. rewrite (bool_decide_eq_false_2 _ Hcode). cbn [negb]. cbv zeta.
  set (w0 := emit _ w).
  assert (getConfig "server_pid" w0 = getConfig "server_pid" w) as -> by reflexivity.
  destruct (truthy (getConfig "server_pid" w)); cbn [negb]; [| reflexivity].
  destruct (kill _ SIG0 w0) as [[] w1 | c w1 | e w1]; reflexivity.
Qed.



(** What [stop] does after the process manager could not stop the server. *)
Lemma stop_native (code : option Z) (w : world) :
  code <> Some 0%Z ->
  truthy (getConfig "server_pid" w) = true ->
  stop_action (Delivers [ChildClose code]) w
  = (let w0 := emit (Spawned "pm2" ["stop"; "redep-server"] false (env w)) w in
     let pid := getConfig "server_pid" w in
     match kill pid SIGTERM w0 with
     | Returned _ w1 =>
         Returned tt (emit (Log LSuccess ("Server stopped (PID " +:+ to_string pid +:+ ")"))
                        (cleared w1))
     | Exited c w1 => Exited c w1
     | Thrown e w1 =>
         if bool_decide (err_code e = Some "ESRCH")
         then Returned tt (cleared (emit (Log LWarn ("Process " +:+ to_string pid
                                                     +:+ " not found. Cleaning up config."))
                                      w1))
         else Returned tt (emit (Log LError ("Failed to stop server: " +:+ err_message e)) w1)
     end).
Proof.
  intros Hcode Ht. unfold stop_action, spawn_shell, for_each, on_pm2_stop_event.
  run_action. rewrite (bool_decide_eq_false_2 _ Hcode). cbv zeta.
  set (w0 := emit _ w).
  assert (getConfig "server_pid" w0 = getConfig "server_pid" w) as -> by reflexivity.
  rewrite Ht. cbn [negb].
  destruct (kill _ SIGTERM w0) as [[] w1 | c w1 | e w1]; try reflexivity.
  now destruct (bool_decide (err_code e = Some "ESRCH")).
Qed.

(** C7. In native mode, with a pid on record: when signalling it fails
    with ESRCH, [stop] logs a warning, clears the persisted pid and
    completes normally, with no error raised or logged; when the signal is
    delivered, the process ends and the persisted pid is cleared too. *)
Theorem stop_native_clears (code : option Z) (w : world)
    (Hnative : code <> Some 0%Z)
    (Hrecorded : truthy (getConfig "server_pid" w) = true) :
  let pid := getConfig "server_pid" w in
  let asked := Spawned "pm2" ["stop"; "redep-server"] false (env w) in
  (kill pid SIGTERM w = Thrown ESRCH w ->
     exists w', stop_action (Delivers [ChildClose code]) w = Returned tt w'
       /\ getConfig "server_pid" w' = Val JNull /\ procs w' = procs w
       /\ trace w' = (trace w ++ [ asked;
                                    Log LWarn ("Process " +:+ to_string pid
                                               +:+ " not found. Cleaning up config.") ])%list)
  /\ (forall w1, kill pid SIGTERM w = Returned tt w1 ->
        exists p w', to_pid pid = Some p
          /\ stop_action (Delivers [ChildClose code]) w = Returned tt w'
          /\ getConfig "server_pid" w' = Val JNull
          /\ procs w' = delete p (procs w)
          /\ trace w' = (trace w ++ [ asked; Signalled p SIGTERM;
                                       Log LSuccess ("Server stopped (PID "
                                                     +:+ to_string pid +:+ ")") ])%list).
Proof.
  intros pid asked. rewrite (stop_native code w Hnative Hrecorded). cbv zeta.
  fold pid. fold asked. set (w0 := emit asked w).
  split.
  - intros Hk.
    destruct (kill_cases pid SIGTERM w)
      as [[_ E] | (p & Hp & [[Hnone E] | [[_ E] | [_ E]]])];
      rewrite E in Hk; try discriminate.
    assert (kill pid SIGTERM w0 = Thrown ESRCH w0) as ->.
    { unfold kill. rewrite Hp. change (procs w0) with (procs w). now rewrite Hnone. }
    eexists. split; [reflexivity |].
    split; [apply cleared_recorded |]. split; [reflexivity |].
    cbn. now rewrite <- app_assoc.
  - intros w1 Hk.
    destruct (kill_cases pid SIGTERM w)
      as [[_ E] | (p & Hp & [[_ E] | [[_ E] | [Hlive E]]])];
      rewrite E in Hk; try discriminate.
    assert (kill pid SIGTERM w0
            = Returned tt (emit (Signalled p SIGTERM) (set_procs (delete p (procs w)) w0)))
      as ->.
    { unfold kill. rewrite Hp. change (procs w0) with (procs w).
      now destruct Hlive as [-> | ->]. }
    exists p. eexists. split; [exact Hp |]. split; [reflexivity |].
    split; [| split; [reflexivity |]].
    + rewrite (getConfig_same_store _ (cleared (emit (Signalled p SIGTERM)
                                                 (set_procs (delete p (procs w)) w0))))
        by reflexivity.
      apply cleared_recorded.
    + cbn. now rewrite <- !app_assoc.
Qed.

Lemma stop_native_clears_witness :
  exists w', stop_action (Delivers [ChildClose (Some 1%Z)]) stale = Returned tt w'
    /\ getConfig "server_pid" w' = Val JNull /\ procs w' = procs stale
    /\ trace w' = (trace stale
                   ++ [ Spawned "pm2" ["stop"; "redep-server"] false (env stale);
                        Log LWarn ("Process " +:+ to_string (getConfig "server_pid" stale)
                                   +:+ " not found. Cleaning up config.") ])%list.
Proof.
  assert (Some 1%Z <> Some 0%Z) as Hcode by discriminate.
  apply (stop_native_clears (Some 1%Z) stale Hcode); reflexivity.
Defined.

(** ** Process manager first, native fallback *)

Lemma then_done (m : M unit) (w : world) : (m;; mret tt) w = m w.
Proof. run_action. now destruct (m w) as [[] w' | c w' | e w']. Qed.

Lemma error_logs_snoc (t : list event) (e : event) :
  is_error_log e = false -> error_logs (t ++ [e]) = error_logs t.
Proof.
  intros He. unfold error_logs. rewrite List.filter_app. simpl. rewrite He.
  apply app_nil_r.
Qed.

Lemma start_native_logs_no_error (o : options) (w : world) :
  error_logs (trace (final_world (startNativeBackground o w))) = error_logs (trace w).
Proof.
  destruct (start_native_cases o w)
    as [(p & _ & _ & _ & E) | [(p & rest & w0 & _ & Hw0 & E) | (e & w0 & _ & Hw0 & E)]];
    rewrite E; simpl final_world.
  - unfold emit; simpl trace. now rewrite !error_logs_snoc.
  - unfold launched, emit; simpl trace. rewrite !error_logs_snoc by reflexivity.
    now destruct Hw0 as [[-> _] | (-> & _)].
  - now destruct Hw0 as [[-> _] | (-> & _)].
Qed.

Lemma pm2_start_event_logs_no_error (o : options) (e : child_event) (w : world) :
  error_logs (trace (final_world (on_pm2_start_event o e w))) = error_logs (trace w).
Proof.
  destruct e as [err | code]; unfold on_pm2_start_event.
  - run_action. rewrite start_native_logs_no_error.
    unfold emit; simpl trace. now rewrite error_logs_snoc.
  - destruct (bool_decide (code = Some 0%Z)); cbn [negb].
    + run_action. unfold emit; simpl. now rewrite error_logs_snoc.
    + run_action. rewrite start_native_logs_no_error.
      unfold emit; simpl trace. now rewrite error_logs_snoc.
Qed.

Lemma pm2_start_events_log_no_error (o : options) (evs : list child_event) (w : world) :
  error_logs (trace (final_world (for_each (on_pm2_start_event o) evs w)))
  = error_logs (trace w).
Proof.
  revert w. induction evs as [|e rest IH]; intros w; [reflexivity |].
  pose proof (pm2_start_event_logs_no_error o e w) as He.
  cbn [for_each]. unfold mbind, M_bind, bind.
  destruct (on_pm2_start_event o e w) as [[] w' | c w' | err w']; simpl in He.
  - now rewrite IH.
  - exact He.
  - exact He.
Qed.

Lemma start_action_valid (o : options) (pm2 : shell_run) (w : world) :
  validateMandatoryConfig w = [] ->
  start_action o pm2 w
  = match pm2 with
    | SpawnThrows _ => startNativeBackground o w
    | Delivers evs => for_each (on_pm2_start_event o) evs (pm2_asked o w)
    end.
Proof.
  intros Hv. unfold start_action. unfold mbind at 1, M_bind at 1, bind at 1.
  rewrite (validate_or_exit_complete w Hv).
  destruct pm2 as [e | evs]; unfold spawn_shell; run_action.
  - now destruct (startNativeBackground o w) as [[] w' | c w' | err w'].
  - unfold pm2_asked, pm2_env. now destruct (truthy (options_port o)).
Qed.

(** C5. With the mandatory configuration present, [start] first spawns
    the process manager, before anything else.  A clean exit of that
    subprocess ends the command with nothing else spawned; an error event,
    a non-zero (or null) exit code, or a spawn that throws at once, hands
    over to the native path, announced at level info or warn.  No run logs
    at level error. *)
Theorem start_prefers_pm2 (o : options) (w : world)
    (Hvalid : validateMandatoryConfig w = []) :
  (forall evs, start_action o (Delivers evs) w
               = for_each (on_pm2_start_event o) evs (pm2_asked o w))
  /\ start_action o (Delivers [ChildClose (Some 0%Z)]) w
     = Returned tt (emit (Log LSuccess "Server started in background using PM2")
                      (pm2_asked o w))
  /\ (forall e, start_action o (Delivers [ChildError e]) w
                = startNativeBackground o
                    (emit (Log LInfo "PM2 not found, falling back to native background process...")
                       (pm2_asked o w)))
  /\ (forall code, code <> Some 0%Z ->
        start_action o (Delivers [ChildClose code]) w
        = startNativeBackground o
            (emit (Log LWarn "PM2 start failed, falling back to native background process...")
               (pm2_asked o w)))
  /\ (forall e, start_action o (SpawnThrows e) w = startNativeBackground o w)
  /\ (forall pm2, error_logs (trace (final_world (start_action o pm2 w)))
                  = error_logs (trace w)).
Proof.
  split; [| split; [| split; [| split; [| split]]]].
  - intros evs. now rewrite start_action_valid.
  - now rewrite start_action_valid.
  - intros e. rewrite start_action_valid by exact Hvalid.
    cbn [for_each]. rewrite then_done. reflexivity.
  - intros code Hcode. rewrite start_action_valid by exact Hvalid.
    cbn [for_each]. rewrite then_done. unfold on_pm2_start_event.
    now rewrite (bool_decide_eq_false_2 _ Hcode).
  - intros e. now rewrite start_action_valid.
  - intros pm2. rewrite start_action_valid by exact Hvalid.
    destruct pm2 as [e | evs].
    + apply start_native_logs_no_error.
    + rewrite pm2_start_events_log_no_error. unfold pm2_asked, emit; simpl trace.
      now rewrite error_logs_snoc.
Qed.

Lemma start_prefers_pm2_witness :
  start_action no_port (Delivers [ChildClose (Some 0%Z)]) configured
  = Returned tt (emit (Log LSuccess "Server started in background using PM2")
                   (pm2_asked no_port configured)).
Proof.
  apply (start_prefers_pm2 no_port configured). reflexivity.
Defined.

(** ** Exit codes *)

Create HintDb exits discriminated.

Lemma exits_ret {A} (a : A) : exits_with_1 (mret a).
Proof. now intros w. Qed.

Lemma exits_exit_1 {A} : exits_with_1 (@exit A 1).
Proof. now intros w. Qed.

Lemma exits_throw {A} (e : error) : exits_with_1 (@throw A e).
Proof. now intros w. Qed.

Lemma exits_bind {A B} (m : M A) (k : A -> M B) :
  exits_with_1 m -> (forall a, exits_with_1 (k a)) -> exits_with_1 (m ≫= k).
Proof.
  intros Hm Hk w. unfold mbind, M_bind, bind. specialize (Hm w).
  destruct (m w) as [a w' | c w' | e w']; [apply Hk | exact Hm | exact I].
Qed.

Lemma exits_try_catch {A} (m : M A) (h : error -> M A) :
  exits_with_1 m -> (forall e, exits_with_1 (h e)) -> exits_with_1 (try_catch m h).
Proof.
  intros Hm Hh w. unfold try_catch. specialize (Hm w).
  destruct (m w) as [a w' | c w' | e w']; [exact I | exact Hm | apply Hh].
Qed.

Lemma exits_gets {A} (f : world -> A) : exits_with_1 (gets f).
Proof. now intros w. Qed.

Lemma exits_logger (l : level) (msg : string) : exits_with_1 (logger l msg).
Proof. now intros w. Qed.

Lemma exits_lift_res {A} (r : res A) : exits_with_1 (lift_res r).
Proof. intros w. now destruct r. Qed.

Lemma exits_kill (pid : jsval) (sig : signal) : exits_with_1 (kill pid sig).
Proof.
  intros w. unfold kill. destruct (to_pid pid) as [p|]; [| exact I].
  now destruct (procs w !! p) as [[]|].
Qed.

Lemma exits_setConfig (k : string) (v : jsval) : exits_with_1 (setConfig k v).
Proof.
  intros w. unfold setConfig. destruct (Conf.set k v (store w)); [| exact I].
  now destruct (Conf.set _ _ _).
Qed.

Lemma exits_spawn_detached (cmd : string) (args : list string) :
  exits_with_1 (spawn_detached cmd args).
Proof. intros w. unfold spawn_detached. now destruct (pid_supply w). Qed.

Lemma exits_spawn_shell cmd args penv pm2 : exits_with_1 (spawn_shell cmd args penv pm2).
Proof. intros w. now destruct pm2. Qed.

Lemma exits_prompt (answered : prompt_run) : exits_with_1 (prompt answered).
Proof. intros w. now destruct answered. Qed.

Lemma exits_deploy name url secret rejection : exits_with_1 (deploy name url secret rejection).
Proof. intros w. now destruct rejection. Qed.

Lemma exits_startServer a b c d : exits_with_1 (startServer a b c d).
Proof. now intros w. Qed.

Lemma exits_for_each {A} (f : A -> M unit) (l : list A) :
  (forall a, exits_with_1 (f a)) -> exits_with_1 (for_each f l).
Proof.
  intros Hf. induction l as [|x rest IH]; cbn [for_each].
  - apply exits_ret.
  - apply exits_bind; [apply Hf | intros _; exact IH].
Qed.

#[local] Hint Resolve exits_ret exits_exit_1 exits_throw exits_gets exits_logger
  exits_lift_res exits_kill exits_setConfig exits_spawn_detached exits_spawn_shell
  exits_prompt exits_deploy exits_startServer : exits.

Ltac exits_step :=
  first
    [ apply exits_bind; [| intros ?]
    | apply exits_try_catch; [| intros ?]
    | apply exits_for_each; intros ?
    | match goal with
      | |- exits_with_1 (if ?b then _ else _) => destruct b
      | |- exits_with_1 (match ?x with _ => _ end) => destruct x
      end
    | solve [auto with exits] ].

Lemma exits_validate_or_exit : exits_with_1 validate_or_exit.
Proof. unfold validate_or_exit. repeat exits_step. Qed.

Lemma exits_startNativeBackground (o : options) : exits_with_1 (startNativeBackground o).
Proof. unfold startNativeBackground. repeat exits_step. Qed.

#[local] Hint Resolve exits_validate_or_exit exits_startNativeBackground : exits.

Lemma exits_run (c : command) : exits_with_1 (run c).
Proof.
  destruct c; cbn [run];
    unfold init_action, start_action, stop_action, status_action, listen_action,
      deploy_action, deploy_target, on_pm2_start_event, on_pm2_stop_event,
      on_pm2_status_event;
    repeat exits_step.
Qed.

Lemma truthy_jor_r (a b : jsval) : truthy b = true -> truthy (jor a b) = true.
Proof. intros Hb. unfold jor. now destruct (truthy a) eqn:E. Qed.

Lemma member_of_truthy (v : jsval) (k : string) :
  truthy v = true -> exists x, member v k = Got x.
Proof.
  destruct v as [|[]|]; intros Ht; try discriminate; unfold member;
    repeat match goal with
           | |- context [if ?b then _ else _] => destruct b
           | |- context [match array_index ?x with _ => _ end] => destruct (array_index x)
           end; eauto.
Qed.

(** The profile lookup never fails and changes nothing. *)
Lemma deploy_target_returns (serverName : string) (w : world) :
  exists url sec, deploy_target serverName w = Returned (url, sec) w.
Proof.
  unfold deploy_target. run_action. unfold lift_res.
  set (servers := jor (getConfig "servers" w) (Val (JObj []))).
  assert (truthy servers = true) as Hs by now apply truthy_jor_r.
  destruct (member_of_truthy servers serverName Hs) as [profile ->].
  destruct (truthy profile) eqn:Hp; [| eauto].
  destruct (member_of_truthy profile "url" Hp) as [url ->].
  destruct (member_of_truthy profile "secret" Hp) as [sec ->].
  eauto.
Qed.

Lemma deploy_action_cases (serverName : string) (rejection : option error) (w : world)
    (url sec : jsval) :
  deploy_target serverName w = Returned (url, sec) w ->
  deploy_action serverName rejection w
  = if negb (truthy url)
    then Exited 1 (emit (Log LInfo init_hint_message)
                     (emit (Log LError (no_server_message serverName)) w))
    else if negb (truthy sec)
    then Exited 1 (emit (Log LError no_secret_message) w)
    else match rejection with
         | None => Returned tt (emit (Triggered serverName url sec) w)
         | Some e =>
             Exited 1 (emit (Log LError ("Deploy failed: " +:+ err_message e))
                         (emit (Triggered serverName url sec) w))
         end.
Proof.
  intros Ht. unfold deploy_action. unfold mbind at 1, M_bind at 1, bind at 1.
  rewrite Ht. cbn [fst snd]. run_action.
  destruct (truthy url); cbn [negb]; [| reflexivity].
  destruct (truthy sec); cbn [negb]; [| reflexivity].
  unfold deploy. now destruct rejection.
Qed.

Lemma init_bad_type (type : string) (answered : prompt_run) (token : string) (w : world) :
  type <> "client" -> type <> "server" ->
  init_action type answered token w = Exited 1 (emit (Log LError bad_type_message) w).
Proof.
  intros Hc Hs. unfold init_action. run_action.
  apply String.eqb_neq in Hc, Hs. now rewrite Hc, Hs.
Qed.

Lemma init_prompt_rejected (type : string) (e : error) (token : string) (w : world) :
  type = "client" \/ type = "server" ->
  init_action type (PromptRejects e) token w
  = Exited 1 (emit (Log LError ("Initialization failed: " +:+ err_message e)) w).
Proof. intros [-> | ->]; reflexivity. Qed.

Lemma listen_valid (o : options) (w : world) :
  validateMandatoryConfig w = [] ->
  exists port secret workingDir deploymentCommand,
    listen_action o w
    = Returned tt (emit (ServerStarted port secret workingDir deploymentCommand) w).
Proof.
  intros Hv. unfold listen_action. unfold mbind at 1, M_bind at 1, bind at 1.
  rewrite (validate_or_exit_complete w Hv). run_action. unfold startServer. eauto.
Qed.

(** ** The deploy client's profile lookup *)

(** A name that is neither a profile nor a built-in member of the profile
    map is resolved from the global settings. *)
Lemma deploy_unlisted_falls_back (serverName : string) (w : world)
    (ss : list (string * json)) :
  getConfig "servers" w = Val (JObj ss) ->
  assoc serverName ss = None ->
  in_list serverName object_prototype_members = false ->
  deploy_target serverName w
  = Returned (jor (getConfig "server_url" w) (process_env "SERVER_URL" w),
              jor (getConfig "secret_key" w) (process_env "SECRET_KEY" w)) w.
Proof.
  intros Hss Hnone Hproto. unfold deploy_target. run_action. rewrite Hss.
  unfold jor at 1. cbn [truthy]. unfold lift_res, member, obj_member.
  now rewrite Hnone, Hproto.
Qed.

(** C9. [deploy toString] on a client whose global [server_url] and
    [secret_key] are both set and whose profile map is empty: the name is
    not a profile, yet the action does not fall back to the global
    settings; it reports that the global [server_url] is not set and exits
    with code 1.  Any ordinary unknown name, such as [prod] here, does fall
    back and triggers the deployment. *)
Theorem deploy_inherited_name_no_fallback :
  Conf.get "servers" (store global_client) = Undefined
  /\ getConfig "server_url" global_client = Val (JStr "http://10.0.0.5:3000")
  /\ getConfig "secret_key" global_client = Val (JStr "s3cret")
  /\ deploy_target "toString" global_client
     = Returned (Undefined, Undefined) global_client
  /\ deploy_action "toString" None global_client
     = Exited 1 (emit (Log LInfo init_hint_message)
                   (emit (Log LError (no_server_message "toString")) global_client))
  /\ deploy_action "prod" None global_client
     = Returned tt (emit (Triggered "prod" (Val (JStr "http://10.0.0.5:3000"))
                            (Val (JStr "s3cret"))) global_client).
Proof. repeat split; vm_compute; reflexivity. Qed.

(** ** The client listing *)

Lemma field_sim_assoc_other (fs1 fs2 : list (string * json)) (k : string) :
  Forall2 field_sim fs1 fs2 -> k <> "secret" -> assoc k fs1 = assoc k fs2.
Proof.
  intros Hsim Hk. induction Hsim as [|[k1 v1] [k2 v2] r1 r2 [Hkey Hval] _ IH];
    [reflexivity |].
  simpl in *. subst k2. destruct (String.eqb_spec k k1) as [-> | _]; [| exact IH].
  destruct Hval as [-> | [-> _]]; [reflexivity | contradiction].
Qed.

Lemma truthy_nonempty (s : string) : s <> "" -> truthy (Val (JStr s)) = true.
Proof. intros Hs. simpl. now apply negb_true_iff, String.eqb_neq. Qed.

Lemma field_sim_secret (fs1 fs2 : list (string * json)) :
  Forall2 field_sim fs1 fs2 ->
  truthy (obj_member fs1 "secret") = truthy (obj_member fs2 "secret").
Proof.
  unfold obj_member. change (in_list "secret" object_prototype_members) with false.
  intros Hsim. induction Hsim as [|[k1 v1] [k2 v2] r1 r2 [Hkey Hval] _ IH];
    [reflexivity |].
  cbn [assoc fst snd] in *. subst k2.
  destruct (String.eqb_spec "secret" k1) as [<- | _]; [| exact IH].
  destruct Hval as [-> | (_ & s1 & s2 & -> & -> & H1 & H2)]; [reflexivity |].
  now rewrite !truthy_nonempty.
Qed.

(** Related profiles answer alike for [url], and for whether a secret is set. *)
Lemma profile_sim_reads (p1 p2 : json) :
  profile_sim p1 p2 ->
  member (Val p1) "url" = member (Val p2) "url"
  /\ match member (Val p1) "secret", member (Val p2) "secret" with
     | Got s1, Got s2 => truthy s1 = truthy s2
     | Raised e1, Raised e2 => e1 = e2
     | _, _ => False
     end.
Proof.
  intros [-> | (fs1 & fs2 & -> & -> & Hsim)].
  - split; [reflexivity |]. now destruct (member (Val p2) "secret").
  - cbn [member]. split.
    + unfold obj_member. now rewrite (field_sim_assoc_other fs1 fs2 "url" Hsim).
    + now apply field_sim_secret.
Qed.

Lemma servers_sim_keys (ss1 ss2 : list (string * json)) :
  servers_sim ss1 ss2 -> map fst ss1 = map fst ss2.
Proof.
  intros Hsim. induction Hsim as [|e1 e2 r1 r2 [Hkey _] _ IH]; [reflexivity |].
  simpl. now rewrite Hkey, IH.
Qed.

Lemma servers_sim_assoc (ss1 ss2 : list (string * json)) (name : string) :
  servers_sim ss1 ss2 ->
  match assoc name ss1, assoc name ss2 with
  | Some p1, Some p2 => profile_sim p1 p2
  | None, None => True
  | _, _ => False
  end.
Proof.
  intros Hsim. induction Hsim as [|[k1 p1] [k2 p2] r1 r2 [Hkey Hp] _ IH]; [exact I |].
  simpl in *. subst k2. now destruct (String.eqb name k1).
Qed.

Lemma client_row_of_sim (ss1 ss2 : list (string * json)) (name : string) :
  servers_sim ss1 ss2 ->
  client_row_of (Val (JObj ss1)) name = client_row_of (Val (JObj ss2)) name.
Proof.
  intros Hsim. unfold client_row_of. cbn [member mbind res_bind]. unfold obj_member.
  pose proof (servers_sim_assoc ss1 ss2 name Hsim) as Ha.
  destruct (assoc name ss1) as [p1|], (assoc name ss2) as [p2|]; try contradiction;
    [| reflexivity].
  destruct (profile_sim_reads p1 p2 Ha) as [Hurl Hsec]. rewrite Hurl.
  destruct (member (Val p2) "url") as [url | e]; [| reflexivity].
  destruct (member (Val p1) "secret") as [s1 | e1],
           (member (Val p2) "secret") as [s2 | e2]; try contradiction.
  - cbn [mbind res_bind].
    destruct (getServerSecurityLevel url) as [lvl | e]; [| reflexivity].
    cbn [mbind res_bind]. now rewrite Hsec.
  - now subst e2.
Qed.

Lemma res_map_ext {A B} (f g : A -> res B) (l : list A) :
  (forall x, f x = g x) -> res_map f l = res_map g l.
Proof.
  intros Hfg. induction l as [|x rest IH]; [reflexivity |].
  simpl. now rewrite Hfg, IH.
Qed.

Lemma res_map_Forall {A B} (f : A -> res B) (P : B -> Prop) (l : list A) (ys : list B) :
  (forall x y, f x = Got y -> P y) -> res_map f l = Got ys -> Forall P ys.
Proof.
  intros Hf. revert ys. induction l as [|x rest IH]; simpl; intros ys Hys.
  - injection Hys as <-. constructor.
  - destruct (f x) as [y | e] eqn:Efx; [| discriminate]. cbn in Hys.
    destruct (res_map f rest) as [ys' | e]; [| discriminate]. cbn in Hys.
    injection Hys as <-. constructor; [now apply (Hf x) | now apply IH].
Qed.

Lemma getClientConfig_of_map (w : world) (ss : list (string * json)) :
  Conf.get "servers" (store w) = Val (JObj ss) ->
  getClientConfig w = res_map (client_row_of (Val (JObj ss))) (map fst ss).
Proof. intros H. unfold getClientConfig. now rewrite H. Qed.

Lemma client_row_masks (ss : list (string * json)) (name : string) (r : client_row) :
  client_row_of (Val (JObj ss)) name = Got r ->
  row_server r = name
  /\ row_secret_key r
     = if truthy (profile_secret (obj_member ss name)) then "********" else "Not set".
Proof.
  unfold client_row_of, profile_secret. cbn [member mbind res_bind].
  destruct (member (obj_member ss name) "url") as [url | e];
    cbn [mbind res_bind]; [| discriminate].
  destruct (member (obj_member ss name) "secret") as [sec | e];
    cbn [mbind res_bind]; [| discriminate].
  destruct (getServerSecurityLevel url) as [lvl | e];
    cbn [mbind res_bind]; [| discriminate].
  intros [= <-]. split; reflexivity.
Qed.

(** C10. For every persisted profile map, each row [getClientConfig]
    returns carries in [secret_key] exactly the mask when the profile's
    secret is set and "Not set" otherwise; and two stores whose profile
    maps differ only in the (non-empty) secret strings of their profiles
    give the very same listing. *)
Theorem client_listing_hides_secrets (w1 w2 : world) (ss1 ss2 : list (string * json))
    (H1 : Conf.get "servers" (store w1) = Val (JObj ss1))
    (H2 : Conf.get "servers" (store w2) = Val (JObj ss2))
    (Hsim : servers_sim ss1 ss2) :
  getClientConfig w1 = getClientConfig w2
  /\ forall rows, getClientConfig w1 = Got rows ->
       Forall (fun r =>
                 row_secret_key r
                 = if truthy (profile_secret (obj_member ss1 (row_server r)))
                   then "********" else "Not set") rows.
Proof.
  rewrite (getClientConfig_of_map w1 ss1 H1), (getClientConfig_of_map w2 ss2 H2).
  split.
  - rewrite (servers_sim_keys ss1 ss2 Hsim). apply res_map_ext.
    intros name. now apply client_row_of_sim.
  - intros rows Hrows.
    apply (res_map_Forall (client_row_of (Val (JObj ss1))) _ (map fst ss1)); [| exact Hrows].
    intros name r Hr. destruct (client_row_masks ss1 name r Hr) as [-> ->].
    reflexivity.
Qed.

Lemma client_listing_hides_secrets_witness :
  getClientConfig (client_with "hunter2") = getClientConfig (client_with "correct horse").
Proof.
  apply (client_listing_hides_secrets (client_with "hunter2") (client_with "correct horse")
           (prod_profile "hunter2") (prod_profile "correct horse"));
    [reflexivity | reflexivity |].
  constructor; [| constructor]. split; [reflexivity |].
  right. eexists _, _. split; [reflexivity |]. split; [reflexivity |].
  constructor; [split; [reflexivity | left; reflexivity] |].
  constructor; [| constructor]. split; [reflexivity |].
  right. split; [reflexivity |]. eexists _, _.
  split; [reflexivity |]. split; [reflexivity |]. split; discriminate.
Defined.

(** ** The sample worlds at work *)

Example running_is_tracked : tracked running.
Proof.
  intros p Hp. unfold running in Hp. cbn [procs set_procs] in Hp.
  destruct (decide (p = 4242%Z)) as [-> | Hne].
  - split; [unfold valid_pid; lia | vm_compute; reflexivity].
  - rewrite lookup_insert_ne in Hp by congruence. now rewrite lookup_empty in Hp.
Qed.

Example start_twice_spawns_once :
  exit_code (startNativeBackground no_port stale) = 0%Z
  /\ exit_code (startNativeBackground no_port
                  (final_world (startNativeBackground no_port stale))) = 0%Z
  /\ getConfig "server_pid"
       (final_world
          (startNativeBackground no_port
             (final_world (startNativeBackground no_port stale)))) = Val (JNum 4243)
  /\ detached_spawns
       (trace (final_world
                 (startNativeBackground no_port
                    (final_world (startNativeBackground no_port stale))))) = 1%nat.
Proof. repeat split; vm_compute; reflexivity. Qed.

Example stop_then_status_not_running :
  List.last
    (trace (final_world
              (status_action (Delivers [ChildClose (Some 1%Z)])
                 (final_world (stop_action (Delivers [ChildClose (Some 1%Z)]) running)))))
    (Log LInfo "Server is RUNNING")
  = Log LInfo "Server is NOT running.".
Proof. vm_compute. reflexivity. Qed.

Example missing_message_for_blank :
  getMissingConfigMessage (validateMandatoryConfig blank)
  = Some ("Error: Required configuration parameter(s) 'secret_key', 'working_dir', "
          +:+ "'deployment_command' are not set." +:+ newline
          +:+ instruction "secret_key" +:+ newline
          +:+ instruction "working_dir" +:+ newline
          +:+ instruction "deployment_command").
Proof. vm_compute. reflexivity. Qed.

Example listing_masks_prod :
  getClientConfig (client_with "hunter2")
  = Got [ {| row_server := "prod";
             row_host := Val (JStr "https://deploy.example.com");
             row_secret_key := "********";
             row_description := Val (JStr "Production environment with high security");
             row_security := "high" |} ].
Proof. vm_compute. reflexivity. Qed.

Example pm2_failure_starts_native :
  trace (final_world (start_action no_port (Delivers [ChildClose (Some 127%Z)]) configured))
  = [ Spawned "pm2" ["start"; script_path configured; "--name"; "redep-server"] false ∅;
      Log LWarn "PM2 start failed, falling back to native background process...";
      Spawned (argv0 configured) [argv1 configured; "listen"] true ∅;
      Log LSuccess "Server started in background (native) with PID 4243" ].
Proof. vm_compute. reflexivity. Qed.

(** * Further properties *)

(** ** The detailed listings *)

Lemma member_of_object (v : jsval) (k : string) :
  v <> Undefined -> v <> Val JNull -> exists x, member v k = Got x.
Proof.
  destruct v as [|[]|]; intros Hu Hn; try congruence; unfold member;
    repeat match goal with
           | |- context [if ?b then _ else _] => destruct b
           | |- context [match array_index ?x with _ => _ end] => destruct (array_index x)
           end; eauto.
Qed.

Lemma updatedAt_of_total (meta : jsval) (key : string) :
  truthy meta = true -> exists u, updatedAt_of meta key = Got u.
Proof.
  intros Ht. unfold updatedAt_of.
  destruct (member_of_truthy meta key Ht) as [entry ->]. cbn [mbind res_bind].
  destruct entry as [|j|m]; [eauto | |].
  - destruct j; [eauto | | | |];
      match goal with
      | |- context [member ?v "updatedAt"] =>
          destruct (member_of_object v "updatedAt") as [u ->]; [discriminate .. |]
      end; cbn [mbind res_bind]; eauto.
  - cbn [member mbind res_bind]. eauto.
Qed.

Lemma res_map_total {A B} (f : A -> res B) (l : list A) :
  (forall x, In x l -> exists y, f x = Got y) ->
  exists ys, res_map f l = Got ys /\ Forall2 (fun x y => f x = Got y) l ys.
Proof.
  induction l as [|x rest IH]; intros Hf.
  - exists []. split; [reflexivity | constructor].
  - destruct (Hf x (or_introl eq_refl)) as [y Hy].
    destruct IH as (ys & Hys & Hall); [intros z Hz; apply Hf; now right |].
    exists (y :: ys). split.
    + cbn [res_map]. rewrite Hy. cbn [mbind res_bind]. rewrite Hys. reflexivity.
    + now constructor.
Qed.

Lemma schema_of_entries :
  Forall (fun entry => schema (fst entry) = Some (snd entry)) CONFIG_SCHEMA.
Proof. unfold CONFIG_SCHEMA. repeat constructor. Qed.

Lemma schema_row_value (w : world) (meta : jsval) (entry : string * schema_entry)
    (r : detail_row) :
  schema (fst entry) = Some (snd entry) ->
  schema_row w meta entry = Got r ->
  det_key r = fst entry /\ det_value r = getConfig (fst entry) w.
Proof.
  intros Hs. unfold schema_row.
  destruct (updatedAt_of meta (fst entry)) as [u | e]; cbn [mbind res_bind];
    [| discriminate].
  intros [= <-]. cbn [det_key det_value]. split; [reflexivity |].
  unfold getConfig. rewrite Hs.
  destruct (sch_env (snd entry)) as [var|]; [destruct (env w !! var) |];
    cbn [fst]; try reflexivity;
    now destruct (Conf.get (fst entry) (store w)).
Qed.

Lemma custom_row_key (w : world) (meta : jsval) (key : string) (r : detail_row) :
  custom_row w meta key = Got r -> det_key r = key /\ det_security r = "unknown".
Proof.
  unfold custom_row.
  destruct (updatedAt_of meta key) as [u | e]; cbn [mbind res_bind]; [| discriminate].
  now intros [= <-].
Qed.

Lemma Forall2_map_eq {A B C} (f : A -> C) (g : B -> C) (l : list A) (l' : list B) :
  Forall2 (fun x y => g y = f x) l l' -> map g l' = map f l.
Proof. induction 1 as [|x y l l' H _ IH]; cbn; [reflexivity | now rewrite H, IH]. Qed.

Lemma meta_truthy (st : list (string * json)) :
  truthy (jor (match assoc "_meta" st with Some j => Val j | None => Undefined end)
              (Val (JObj []))) = true.
Proof. now apply truthy_jor_r. Qed.

(** The shape of every detailed listing. *)
Lemma getDetailedConfig_shape (w : world) :
  exists schema_rows custom_rows,
    getDetailedConfig w = Got (schema_rows ++ custom_rows)%list
    /\ map det_key schema_rows = map fst CONFIG_SCHEMA
    /\ Forall (fun r => det_value r = getConfig (det_key r) w) schema_rows
    /\ map det_key custom_rows = List.filter is_custom_key (map fst (store w))
    /\ Forall (fun r => det_security r = "unknown") custom_rows.
Proof.
  unfold getDetailedConfig. cbv zeta.
  set (meta := jor _ (Val (JObj []))).
  assert (truthy meta = true) as Hmeta by apply meta_truthy.
  destruct (res_map_total (schema_row w meta) CONFIG_SCHEMA) as (srows & -> & Hs).
  { intros entry _. unfold schema_row.
    destruct (updatedAt_of_total meta (fst entry) Hmeta) as [u ->].
    cbn [mbind res_bind]. eauto. }
  destruct (res_map_total (custom_row w meta)
              (List.filter is_custom_key (map fst (store w)))) as (crows & -> & Hc).
  { intros key _. unfold custom_row.
    destruct (updatedAt_of_total meta key Hmeta) as [u ->].
    cbn [mbind res_bind]. eauto. }
  cbn [mbind res_bind]. exists srows, crows. split; [reflexivity |].
  assert (Forall2 (fun entry r => det_key r = fst entry
                                  /\ det_value r = getConfig (fst entry) w)
            CONFIG_SCHEMA srows) as Hs'.
  { pose proof schema_of_entries as Hall. revert Hall.
    induction Hs as [|entry r es rs Hr _ IH]; intros Hall; [constructor |].
    inversion Hall as [|? ? He Hes]; subst.
    constructor; [now apply (schema_row_value w meta) | now apply IH]. }
  repeat split.
  - apply Forall2_map_eq. eapply Forall2_impl; [exact Hs' |]. now intros ? ? [? _].
  - clear Hs. induction Hs' as [|entry r es rs [Hk Hv] _ IH]; constructor; [| exact IH].
    now rewrite Hk.
  - rewrite <- (map_id (List.filter is_custom_key (map fst (store w)))).
    apply Forall2_map_eq. eapply Forall2_impl; [exact Hc |].
    intros key r Hr. now apply (custom_row_key w meta).
  - clear Hs Hs'. induction Hc as [|key r ks rs Hr _ IH]; constructor; [| exact IH].
    now apply (custom_row_key w meta key).
Qed.

Lemma custom_key_iff (k : string) :
  is_custom_key k = true
  <-> schema k = None /\ in_list k object_prototype_members = false /\ k <> "_meta".
Proof.
  unfold is_custom_key, in_schema_object. split.
  - intros H. apply andb_prop in H as [H1 H2].
    apply negb_true_iff in H1. apply negb_true_iff, String.eqb_neq in H2.
    destruct (schema k); [discriminate | auto].
  - intros (-> & -> & Hm). apply String.eqb_neq in Hm. now rewrite Hm.
Qed.

(** X1. [getDetailedConfig] never throws.  It lists the seven schema keys
    first, in schema order, each with the very value [getConfig] returns
    for that key, and then, in store order, one row of security "unknown"
    for every key of the store that is neither a schema key, nor [_meta],
    nor named like a member every object inherits: a stored key such as
    [toString] gets no row at all. *)
Theorem detailed_listing_agrees_with_getConfig (w : world) :
  exists schema_rows custom_rows,
    getDetailedConfig w = Got (schema_rows ++ custom_rows)%list
    /\ map det_key schema_rows
       = ["server_port"; "secret_key"; "working_dir"; "deployment_command";
          "server_url"; "servers"; "server_pid"]
    /\ Forall (fun r => det_value r = getConfig (det_key r) w) schema_rows
    /\ map det_key custom_rows = List.filter is_custom_key (map fst (store w))
    /\ Forall (fun r => det_security r = "unknown") custom_rows
    /\ (forall k, In k (map det_key custom_rows)
                  <-> In k (map fst (store w)) /\ schema k = None
                      /\ in_list k object_prototype_members = false /\ k <> "_meta")
    /\ (forall k, in_list k object_prototype_members = true ->
                  ~ In k (map det_key (schema_rows ++ custom_rows))).
Proof.
  destruct (getDetailedConfig_shape w) as (srows & crows & E & Hk & Hv & Hc & Hu).
  assert (forall k, In k (map det_key crows)
                    <-> In k (map fst (store w)) /\ schema k = None
                        /\ in_list k object_prototype_members = false /\ k <> "_meta")
    as Hiff.
  { intros k. rewrite Hc, filter_In, custom_key_iff. tauto. }
  exists srows, crows. repeat (split; [assumption |]).
  intros k Hproto Hin. rewrite map_app in Hin. apply in_app_or in Hin as [Hin | Hin].
  - rewrite Hk in Hin. cbn [map fst In] in Hin.
    repeat (destruct Hin as [<- | Hin]; [discriminate Hproto |]). contradiction.
  - apply Hiff in Hin as (_ & _ & Hf & _). congruence.
Qed.

Lemma filter_map_key (p : string -> bool) (rows : list detail_row) :
  map det_key (List.filter (fun item => p (det_key item)) rows)
  = List.filter p (map det_key rows).
Proof.
  induction rows as [|r rest IH]; [reflexivity |].
  cbn [List.filter map]. destruct (p (det_key r)); cbn [map]; now rewrite IH.
Qed.

Lemma filter_none {A} (p : A -> bool) (l : list A) :
  (forall x, In x l -> p x = false) -> List.filter p l = [].
Proof.
  induction l as [|x rest IH]; intros H; [reflexivity |].
  cbn [List.filter]. rewrite (H x (or_introl eq_refl)).
  apply IH. intros y Hy. apply H. now right.
Qed.

Lemma server_key_in_schema (k : string) :
  in_list k server_keys = true -> in_schema_object k = true.
Proof.
  unfold in_list. intros H. apply existsb_exists in H as (k' & Hin & He).
  apply String.eqb_eq in He. subst k'. cbn in Hin.
  repeat (destruct Hin as [<- | Hin]; [reflexivity |]). contradiction.
Qed.

(** X2. [getServerConfig] never throws and always returns exactly five
    rows, for [server_port], [secret_key], [working_dir],
    [deployment_command] and [server_pid] in this order, each with the
    value [getConfig] returns; client profiles and custom keys never
    appear in it. *)
Theorem server_listing_has_five_rows (w : world) :
  exists rows,
    getServerConfig w = Got rows
    /\ map det_key rows = server_keys
    /\ Forall (fun r => det_value r = getConfig (det_key r) w) rows.
Proof.
  destruct (getDetailedConfig_shape w) as (srows & crows & E & Hk & Hv & Hc & _).
  unfold getServerConfig. rewrite E. cbn [mbind res_bind].
  eexists. split; [reflexivity |].
  rewrite List.filter_app.
  assert (List.filter (fun item => in_list (det_key item) server_keys) crows = []) as ->.
  { apply filter_none. intros r Hr.
    destruct (in_list (det_key r) server_keys) eqn:Hin; [| reflexivity].
    apply server_key_in_schema in Hin.
    assert (In (det_key r) (List.filter is_custom_key (map fst (store w)))) as Hf.
    { rewrite <- Hc. now apply in_map. }
    apply filter_In in Hf as [_ Hcustom]. unfold is_custom_key in Hcustom.
    now rewrite Hin in Hcustom. }
  rewrite app_nil_r. split.
  - rewrite (filter_map_key (fun k => in_list k server_keys)), Hk. reflexivity.
  - apply List.Forall_forall. intros r Hr. apply filter_In in Hr as [Hr _].
    rewrite List.Forall_forall in Hv. now apply Hv.
Qed.

(** ** Mandatory keys, exactly *)

Lemma truthy_false_iff_listed (w : world) (k : string) :
  In k (validateMandatoryConfig w)
  <-> In k mandatory_keys /\ truthy (getConfig k w) = false.
Proof.
  split.
  - unfold validateMandatoryConfig, mandatory_keys.
    destruct (truthy (getConfig "secret_key" w)) eqn:E1;
      destruct (truthy (getConfig "working_dir" w)) eqn:E2;
      destruct (truthy (getConfig "deployment_command" w)) eqn:E3;
      cbn; intros H;
      repeat (destruct H as [<- | H]; [split; [tauto | assumption] |]);
      contradiction.
  - intros [Hin Hf]. now apply missing_key_listed.
Qed.

(** X3. [validateMandatoryConfig] returns exactly the mandatory keys whose
    resolved value is falsy, without repetition and in the fixed order
    secret_key, working_dir, deployment_command; it is empty exactly when
    all three are truthy. *)
Theorem missing_keys_exactly (w : world) :
  (forall k, In k (validateMandatoryConfig w)
             <-> In k mandatory_keys /\ truthy (getConfig k w) = false)
  /\ validateMandatoryConfig w
     = List.filter (fun k => negb (truthy (getConfig k w))) mandatory_keys
  /\ (validateMandatoryConfig w = []
      <-> truthy (getConfig "secret_key" w) = true
          /\ truthy (getConfig "working_dir" w) = true
          /\ truthy (getConfig "deployment_command" w) = true).
Proof.
  split; [intros k; apply truthy_false_iff_listed |].
  unfold validateMandatoryConfig, mandatory_keys. cbn [List.filter].
  destruct (truthy (getConfig "secret_key" w));
    destruct (truthy (getConfig "working_dir" w));
    destruct (truthy (getConfig "deployment_command" w));
    cbn; (split; [reflexivity | split; [intros; try discriminate; auto | intros (? & ? & ?); try discriminate; auto]]).
Qed.

(** X4. An environment variable that is set to the empty string hides
    whatever is stored for its key: the key resolves to the empty string
    and, when mandatory, is reported missing. *)
Theorem empty_env_value_hides_stored (w : world) (k var : string) (sch : schema_entry)
    (Hk : schema k = Some sch) (Hvar : sch_env sch = Some var)
    (Hempty : env w !! var = Some "") :
  getConfig k w = Val (JStr "")
  /\ (In k mandatory_keys -> In k (validateMandatoryConfig w)).
Proof.
  assert (getConfig k w = Val (JStr "")) as Hg.
  { unfold getConfig. now rewrite Hk, Hvar, Hempty. }
  split; [exact Hg |].
  intros Hin. apply missing_key_listed; [exact Hin |]. now rewrite Hg.
Qed.

Lemma empty_env_value_hides_stored_witness :
  getConfig "secret_key" blanked = Val (JStr "")
  /\ (In "secret_key" mandatory_keys -> In "secret_key" (validateMandatoryConfig blanked)).
Proof.
  apply (empty_env_value_hides_stored blanked "secret_key" "SECRET_KEY"
           {| sch_default := JNull; sch_security := "critical";
              sch_env := Some "SECRET_KEY"; sch_description := "Authentication Secret" |});
    reflexivity.
Defined.

(** ** Writing one key *)

Lemma setConfig_put (k : string) (v : json) (w : world) :
  plain_key k = true -> setConfig k (Val v) w = Returned tt (put k v w).
Proof. intros Hp. now apply setConfig_plain. Qed.

Lemma getConfig_put_other (k k' : string) (v : json) (w : world) :
  plain_key k = true -> plain_key k' = true -> k' <> k ->
  getConfig k' (put k v w) = getConfig k' w.
Proof.
  intros Hk Hk' Hne. unfold getConfig, put. cbn [env store set_store].
  rewrite !(conf_get_plain k' Hk').
  rewrite (assoc_stored_other k k' v (clock w) (store w) Hne
             (plain_key_not_meta k' Hk')).
  reflexivity.
Qed.

Lemma getConfig_put_same (k : string) (sch : schema_entry) (v : json) (w : world) :
  schema k = Some sch -> env_unset sch w -> getConfig k (put k v w) = Val v.
Proof.
  intros Hk Hunset. pose proof (schema_key_plain k sch Hk) as Hp.
  unfold getConfig, put. rewrite Hk. cbn [env store set_store].
  unfold env_unset in Hunset.
  destruct (sch_env sch) as [var|]; rewrite ?Hunset; now rewrite (conf_get_stored k Hp).
Qed.

Lemma res_map_In {A B} (f : A -> res B) (l : list A) (ys : list B) (x : A) :
  res_map f l = Got ys -> In x l -> exists y, In y ys /\ f x = Got y.
Proof.
  revert ys. induction l as [|a rest IH]; intros ys Hys Hin; [contradiction |].
  cbn [res_map] in Hys. destruct (f a) as [b | e] eqn:Efa; cbn [mbind res_bind] in Hys;
    [| discriminate].
  destruct (res_map f rest) as [bs | e]; cbn [mbind res_bind] in Hys; [| discriminate].
  injection Hys as <-. destruct Hin as [<- | Hin].
  - exists b. split; [now left | exact Efa].
  - destruct (IH bs eq_refl Hin) as (y & Hy & Hfy). exists y. split; [now right | exact Hfy].
Qed.

Lemma updatedAt_of_put (k : string) (v : json) (w : world) :
  plain_key k = true -> clock w <> "" ->
  updatedAt_of (jor (match assoc "_meta" (store (put k v w)) with
                     | Some j => Val j
                     | None => Undefined
                     end) (Val (JObj []))) k
  = Got (Val (JStr (clock w))).
Proof.
  intros Hp Hclock. unfold put, stored. cbn [store set_store].
  rewrite assoc_obj_set_eq. unfold jor at 1. cbn [truthy].
  unfold updatedAt_of. cbn [member mbind res_bind]. unfold obj_member.
  rewrite assoc_obj_set_eq. cbn [member mbind res_bind obj_member assoc].
  cbn. unfold jor. cbn [truthy].
  apply String.eqb_neq in Hclock. now rewrite Hclock.
Qed.

(** X5. [setConfig k v] on a schema key succeeds for every value [v] that
    JSON can hold.  Afterwards every other schema key resolves as before,
    and the detailed listing shows for [k] the time of the write and,
    unless an environment value overrides it, the value [v] with source
    "File".  For [undefined] it throws instead and writes nothing. *)
Theorem setConfig_writes_one_key (k : string) (sch : schema_entry) (v : json) (w : world)
    (Hk : schema k = Some sch) (Hclock : clock w <> "") :
  (exists w',
     setConfig k (Val v) w = Returned tt w'
     /\ (forall k' sch', schema k' = Some sch' -> k' <> k ->
                         getConfig k' w' = getConfig k' w)
     /\ exists rows r,
          getDetailedConfig w' = Got rows /\ In r rows /\ det_key r = k
          /\ det_updatedAt r = Val (JStr (clock w))
          /\ (env_unset sch w -> det_value r = Val v /\ det_source r = "File"))
  /\ (exists e, setConfig k Undefined w = Thrown e w).
Proof.
  pose proof (schema_key_plain k sch Hk) as Hp.
  split; [| unfold setConfig; cbn [Conf.set]; eauto].
  exists (put k v w). split; [now apply setConfig_put |]. split.
  - intros k' sch' Hk' Hne. apply getConfig_put_other; [exact Hp | | exact Hne].
    now apply (schema_key_plain k' sch').
  - destruct (getDetailedConfig_shape (put k v w)) as (srows & crows & E & _).
    pose proof E as E'. unfold getDetailedConfig in E'. cbv zeta in E'.
    set (meta := jor _ (Val (JObj []))) in E'.
    destruct (res_map (schema_row (put k v w) meta) CONFIG_SCHEMA) as [rs | e] eqn:Hrs;
      cbn [mbind res_bind] in E'; [| discriminate].
    assert (In (k, sch) CONFIG_SCHEMA) as Hin.
    { unfold schema in Hk. destruct (List.find _ CONFIG_SCHEMA) as [[k0 s0]|] eqn:Hf;
        [| discriminate].
      injection Hk as <-. destruct (find_some _ _ Hf) as [Hin0 He].
      apply String.eqb_eq in He. cbn in He. now subst k0. }
    destruct (res_map_In _ _ _ (k, sch) Hrs Hin) as (r & Hr & Hrow).
    destruct (res_map (custom_row (put k v w) meta) _) as [cs | e];
      cbn [mbind res_bind] in E'; [| discriminate].
    exists (rs ++ cs)%list, r. split; [now rewrite E, E' |].
    split; [apply in_or_app; now left |].
    unfold schema_row in Hrow. cbn [fst snd] in Hrow. unfold meta in Hrow.
    rewrite (updatedAt_of_put k v w Hp Hclock) in Hrow. cbn [mbind res_bind] in Hrow.
    injection Hrow as <-. cbn [det_key det_updatedAt det_value det_source].
    split; [reflexivity |]. split; [reflexivity |].
    intros Hunset. unfold env_unset in Hunset. unfold put. cbn [env store set_store].
    rewrite (conf_get_stored k Hp).
    destruct (sch_env sch) as [var|]; rewrite ?Hunset; now destruct v.
Qed.

Lemma setConfig_writes_one_key_witness :
  (exists w',
     setConfig "working_dir" (Val (JStr "/srv/next")) configured = Returned tt w'
     /\ (forall k' sch', schema k' = Some sch' -> k' <> "working_dir" ->
                         getConfig k' w' = getConfig k' configured)
     /\ exists rows r,
          getDetailedConfig w' = Got rows /\ In r rows /\ det_key r = "working_dir"
          /\ det_updatedAt r = Val (JStr (clock configured))
          /\ (env_unset {| sch_default := JNull; sch_security := "medium";
                           sch_env := Some "WORKING_DIR";
                           sch_description := "Working Directory" |} configured ->
              det_value r = Val (JStr "/srv/next") /\ det_source r = "File"))
  /\ (exists e, setConfig "working_dir" Undefined configured = Thrown e configured).
Proof.
  apply (setConfig_writes_one_key "working_dir" _ (JStr "/srv/next") configured eq_refl).
  discriminate.
Defined.

(** ** Clearing the configuration *)

Lemma getConfig_of_empty_store (k : string) (sch : schema_entry) (w : world) :
  schema k = Some sch -> store w = [] ->
  getConfig k w = match sch_env sch with
                  | Some var => match env w !! var with
                                | Some s => Val (JStr s)
                                | None => Val (sch_default sch)
                                end
                  | None => Val (sch_default sch)
                  end.
Proof.
  intros Hk Hst. pose proof (schema_key_plain k sch Hk) as Hp.
  unfold getConfig. rewrite Hk, (conf_get_plain k Hp), Hst. cbn [assoc].
  destruct (sch_env sch) as [var|]; [destruct (env w !! var) |]; reflexivity.
Qed.

(** X6. [config clear] wipes the recorded pid along with everything else
    and ends no process: afterwards every schema key resolves to its
    environment value or its default, [status] in native mode answers
    "Server is NOT running." whatever is still alive, and with no mandatory
    key in the environment all three are reported missing. *)
Theorem clear_forgets_the_running_server (w : world) (code : option Z)
    (Hnative : code <> Some 0%Z) :
  exists w1,
    config_clear_action w = Returned tt w1
    /\ procs w1 = procs w
    /\ (forall k sch, schema k = Some sch ->
          getConfig k w1 = match sch_env sch with
                           | Some var => match env w !! var with
                                         | Some s => Val (JStr s)
                                         | None => Val (sch_default sch)
                                         end
                           | None => Val (sch_default sch)
                           end)
    /\ status_action (Delivers [ChildClose code]) w1
       = Returned tt (emit (Log LInfo "Server is NOT running.")
                        (emit (Spawned "pm2" ["describe"; "redep-server"] false (env w)) w1))
    /\ (mandatory_env_unset w -> validateMandatoryConfig w1 = mandatory_keys).
Proof.
  eexists. split; [reflexivity |]. cbn [final_world].
  set (w1 := emit _ (set_store [] w)).
  assert (store w1 = []) as Hst by reflexivity.
  assert (env w1 = env w) as Henv by reflexivity.
  split; [reflexivity |]. split; [| split].
  - intros k sch Hk. now rewrite (getConfig_of_empty_store k sch w1 Hk Hst), Henv.
  - rewrite (status_native code w1 Hnative). cbv zeta.
    rewrite (getConfig_of_empty_store "server_pid" _ w1 eq_refl Hst), Henv. reflexivity.
  - intros (H1 & H2 & H3). unfold validateMandatoryConfig.
    rewrite (getConfig_of_empty_store "secret_key" _ w1 eq_refl Hst),
            (getConfig_of_empty_store "working_dir" _ w1 eq_refl Hst),
            (getConfig_of_empty_store "deployment_command" _ w1 eq_refl Hst).
    cbn [sch_env sch_default snd]. now rewrite Henv, H1, H2, H3.
Qed.

Lemma clear_forgets_the_running_server_witness :
  exists w1,
    config_clear_action running = Returned tt w1
    /\ procs w1 = procs running
    /\ (forall k sch, schema k = Some sch ->
          getConfig k w1 = match sch_env sch with
                           | Some var => match env running !! var with
                                         | Some s => Val (JStr s)
                                         | None => Val (sch_default sch)
                                         end
                           | None => Val (sch_default sch)
                           end)
    /\ status_action (Delivers [ChildClose (Some 1%Z)]) w1
       = Returned tt (emit (Log LInfo "Server is NOT running.")
                        (emit (Spawned "pm2" ["describe"; "redep-server"] false
                                 (env running)) w1))
    /\ (mandatory_env_unset running -> validateMandatoryConfig w1 = mandatory_keys).
Proof.
  apply (clear_forgets_the_running_server running (Some 1%Z)). discriminate.
Defined.

(** ** Descriptions and the client listing *)

Lemma lower_ascii_idempotent (c : ascii) : lower_ascii (lower_ascii c) = lower_ascii c.
Proof. destruct c as [[] [] [] [] [] [] [] []]; reflexivity. Qed.

Lemma toLowerCase_idempotent (s : string) : toLowerCase (toLowerCase s) = toLowerCase s.
Proof.
  induction s as [|c s IH]; [reflexivity |].
  cbn [toLowerCase]. now rewrite lower_ascii_idempotent, IH.
Qed.

(** X7. The description of a server depends on its name only up to the
    case of its ASCII letters, and it is never blank: two names with the
    same lower-case form get the same, truthy description. *)
Theorem description_ignores_case (a b : string)
    (Hsame : toLowerCase a = toLowerCase b) :
  getServerDescription a = getServerDescription b
  /\ getServerDescription (toLowerCase a) = getServerDescription a
  /\ truthy (getServerDescription a) = true.
Proof.
  unfold getServerDescription. rewrite toLowerCase_idempotent, Hsame.
  repeat split. now apply truthy_jor_r.
Qed.

Lemma description_ignores_case_witness :
  getServerDescription "PROD" = getServerDescription "Prod"
  /\ getServerDescription (toLowerCase "PROD") = getServerDescription "PROD"
  /\ truthy (getServerDescription "PROD") = true.
Proof. apply description_ignores_case. reflexivity. Defined.

Lemma assoc_of_key (k : string) (ss : list (string * json)) :
  In k (map fst ss) -> exists p, assoc k ss = Some p /\ In p (map snd ss).
Proof.
  induction ss as [|[k' p'] rest IH]; [contradiction |].
  cbn [map fst snd assoc]. intros Hin.
  destruct (String.eqb_spec k k') as [-> | Hne].
  - exists p'. split; [reflexivity | now left].
  - destruct Hin as [-> | Hin]; [contradiction |].
    destruct (IH Hin) as (p & Hp & Hin'). exists p. split; [exact Hp | now right].
Qed.

Lemma security_level_of_string (h : string) :
  exists lvl, getServerSecurityLevel (Val (JStr h)) = Got lvl.
Proof.
  unfold getServerSecurityLevel.
  destruct (negb (truthy (Val (JStr h)))); [eauto |].
  destruct (startsWith h "https://"); [eauto |].
  destruct (startsWith h "http://localhost" || startsWith h "http://127.0.0.1"); [eauto |].
  destruct (startsWith h "http://"); eauto.
Qed.

Lemma client_row_of_listable (ss : list (string * json)) (name : string) (p : json) :
  assoc name ss = Some p -> listable p ->
  exists r, client_row_of (Val (JObj ss)) name = Got r /\ row_server r = name.
Proof.
  intros Hp (fs & -> & Hurl). unfold client_row_of.
  assert (member (Val (JObj ss)) name = Got (Val (JObj fs))) as ->
      by (cbn [member]; unfold obj_member; now rewrite Hp).
  cbn [mbind res_bind].
  change (member (Val (JObj fs)) "url") with (Got (obj_member fs "url")).
  change (member (Val (JObj fs)) "secret") with (Got (obj_member fs "secret")).
  cbn [mbind res_bind].
  assert (exists lvl, getServerSecurityLevel (obj_member fs "url") = Got lvl) as [lvl ->].
  { unfold obj_member. change (in_list "url" object_prototype_members) with false.
    destruct (assoc "url" fs) as [[]|]; try apply security_level_of_string;
      unfold getServerSecurityLevel; rewrite ?Hurl; cbn; eauto. }
  cbn [mbind res_bind]. eauto.
Qed.

Lemma client_row_of_name (servers : jsval) (name : string) (r : client_row) :
  client_row_of servers name = Got r -> row_server r = name.
Proof.
  unfold client_row_of.
  destruct (member servers name) as [server | e]; cbn [mbind res_bind]; [| discriminate].
  destruct (member server "url") as [url | e]; cbn [mbind res_bind]; [| discriminate].
  destruct (member server "secret") as [sec | e]; cbn [mbind res_bind]; [| discriminate].
  destruct (getServerSecurityLevel url) as [lvl | e]; cbn [mbind res_bind]; [| discriminate].
  now intros [= <-].
Qed.

Lemma res_map_raised {A B} (f : A -> res B) (l : list A) (x : A) (e : error) :
  In x l -> f x = Raised e -> exists e', res_map f l = Raised e'.
Proof.
  induction l as [|a rest IH]; [contradiction |].
  intros Hin Hx. cbn [res_map].
  destruct (f a) as [b | ea] eqn:Efa; cbn [mbind res_bind]; [| eauto].
  destruct Hin as [-> | Hin]; [congruence |].
  destruct (IH Hin Hx) as [e' ->]. cbn [mbind res_bind]. eauto.
Qed.

(** X8. When every stored profile is an object whose [url] is a string,
    absent or falsy, [getClientConfig] returns one row per profile, named
    after the profiles in their order.  A single profile that is [null]
    makes the whole listing throw. *)
Theorem client_listing_rows (w : world) (ss : list (string * json))
    (Hss : Conf.get "servers" (store w) = Val (JObj ss)) :
  (Forall listable (map snd ss) ->
     exists rows, getClientConfig w = Got rows /\ map row_server rows = map fst ss)
  /\ (forall name, In name (map fst ss) -> assoc name ss = Some JNull ->
        exists e, getClientConfig w = Raised e).
Proof.
  rewrite (getClientConfig_of_map w ss Hss). split.
  - intros Hall.
    destruct (res_map_total (client_row_of (Val (JObj ss))) (map fst ss))
      as (rows & Hrows & Hf).
    { intros name Hin. destruct (assoc_of_key name ss Hin) as (p & Hp & Hin').
      rewrite List.Forall_forall in Hall.
      destruct (client_row_of_listable ss name p Hp (Hall p Hin')) as (r & Hr & _).
      eauto. }
    exists rows. split; [exact Hrows |].
    rewrite <- (map_id (map fst ss)). apply Forall2_map_eq.
    eapply Forall2_impl; [exact Hf |]. intros name r Hr.
    now apply (client_row_of_name (Val (JObj ss))).
  - intros name Hin Hnull.
    apply (res_map_raised _ _ name
             (TypeError ("Cannot read properties of null (reading '" +:+ "url" +:+ "')")));
      [exact Hin |].
    unfold client_row_of. cbn [member mbind res_bind]. unfold obj_member.
    rewrite Hnull. reflexivity.
Qed.

Lemma client_listing_rows_witness :
  exists rows, getClientConfig (client_with "hunter2") = Got rows
               /\ map row_server rows = map fst (prod_profile "hunter2").
Proof.
  apply (client_listing_rows (client_with "hunter2") (prod_profile "hunter2") eq_refl).
  constructor; [| constructor]. eexists. split; [reflexivity | exact I].
Defined.

(** ** Tokens *)

Lemma base64_char_url_safe (i : N) :
  (i < 64)%N -> url_safe (url_char (base64_char i)) = true.
Proof.
  intros Hi. destruct i as [|p]; [reflexivity |].
  do 7 (try destruct p as [p | p |]); try reflexivity; lia.
Qed.

Lemma sextet_url_safe (n k : N) : url_safe (url_char (sextet n k)) = true.
Proof. unfold sextet. apply base64_char_url_safe. now apply N.mod_upper_bound. Qed.

Lemma list_ind3 {A} (P : list A -> Prop) :
  P [] -> (forall a, P [a]) -> (forall a b, P [a; b]) ->
  (forall a b c rest, P rest -> P (a :: b :: c :: rest)) ->
  forall l, P l.
Proof.
  intros H0 H1 H2 H3. fix IH 1.
  intros [|a [|b [|c rest]]]; [exact H0 | apply H1 | apply H2 | apply H3; apply IH].
Qed.

Lemma base64_data_prefix_safe (bs : list Byte.byte) :
  forall k, (k <= data_length (length bs))%nat ->
            Forall (fun c => url_safe (url_char c) = true) (firstn k (base64 bs)).
Proof.
  induction bs as [| a | a b | a b c rest IH] using list_ind3; intros k Hk.
  - cbn in Hk. replace k with 0%nat by lia. constructor.
  - cbn in Hk. destruct k as [|[|[|k]]]; try lia; cbn [base64 firstn];
      repeat (constructor; [apply sextet_url_safe |]); constructor.
  - cbn in Hk. destruct k as [|[|[|[|k]]]]; try lia; cbn [base64 firstn];
      repeat (constructor; [apply sextet_url_safe |]); constructor.
  - cbn [length data_length] in Hk. cbn [base64].
    destruct k as [|[|[|[|k]]]]; cbn [firstn];
      repeat (constructor; [apply sextet_url_safe |]); try constructor.
    apply IH. lia.
Qed.

Lemma base64_length (bs : list Byte.byte) :
  (data_length (length bs) <= length (base64 bs))%nat.
Proof.
  induction bs as [| a | a b | a b c rest IH] using list_ind3; cbn; lia.
Qed.

Lemma data_length_carries (m : nat) : (4 * m <= 3 * data_length m)%nat.
Proof.
  induction m as [m IH] using (well_founded_induction lt_wf).
  destruct m as [|[|[|m]]]; cbn [data_length]; try lia.
  specialize (IH m). lia.
Qed.

Lemma bytes_needed_enough (n : nat) : (n <= data_length (bytes_needed n))%nat.
Proof.
  pose proof (data_length_carries (bytes_needed n)) as H.
  unfold bytes_needed in *.
  pose proof (Nat.div_mod_eq (3 * n + 3) 4) as Hd.
  pose proof (Nat.mod_upper_bound (3 * n + 3) 4) as Hm. lia.
Qed.

Lemma length_string_of_list_ascii (l : list ascii) :
  String.length (string_of_list_ascii l) = length l.
Proof. induction l as [|c l IH]; cbn; [reflexivity | now rewrite IH]. Qed.

Lemma Forall_map_url_safe (l : list ascii) :
  Forall (fun c => url_safe (url_char c) = true) l ->
  Forall (fun c => url_safe c = true) (map url_char l).
Proof. induction 1; cbn; constructor; auto. Qed.

Lemma token_length (length : nat) (entropy : list Byte.byte) :
  (bytes_needed length <= List.length entropy)%nat ->
  String.length (generateSecureToken length entropy) = length.
Proof.
  intros He. unfold generateSecureToken, randomBytes.
  set (bs := firstn (bytes_needed length) entropy).
  assert (List.length bs = bytes_needed length) as Hbs
      by (unfold bs; rewrite length_firstn; lia).
  pose proof (bytes_needed_enough length) as Hn. rewrite <- Hbs in Hn.
  pose proof (base64_length bs) as Hl.
  rewrite length_string_of_list_ascii, length_map, length_firstn. lia.
Qed.

Lemma token_chars (length : nat) (entropy : list Byte.byte) :
  (bytes_needed length <= List.length entropy)%nat ->
  Forall (fun c => url_safe c = true)
         (list_ascii_of_string (generateSecureToken length entropy)).
Proof.
  intros He. unfold generateSecureToken, randomBytes.
  set (bs := firstn (bytes_needed length) entropy).
  assert (List.length bs = bytes_needed length) as Hbs
      by (unfold bs; rewrite length_firstn; lia).
  pose proof (bytes_needed_enough length) as Hn. rewrite <- Hbs in Hn.
  rewrite list_ascii_of_string_of_list_ascii. apply Forall_map_url_safe.
  now apply base64_data_prefix_safe.
Qed.

(** X9. Given enough random bytes, [generateSecureToken(length)] returns a
    string of exactly [length] characters, each a letter, a digit, [-] or
    [_]: the padding of the base64 text is never reached, and no [+] or
    [/] remains. *)
Theorem secure_token_shape (length : nat) (entropy : list Byte.byte)
    (Hentropy : (bytes_needed length <= List.length entropy)%nat) :
  String.length (generateSecureToken length entropy) = length
  /\ Forall (fun c => url_safe c = true)
            (list_ascii_of_string (generateSecureToken length entropy)).
Proof. split; [now apply token_length | now apply token_chars]. Qed.

Lemma secure_token_shape_witness :
  String.length (generateSecureToken 32 (zero_bytes 24)) = 32%nat
  /\ Forall (fun c => url_safe c = true)
            (list_ascii_of_string (generateSecureToken 32 (zero_bytes 24))).
Proof. apply secure_token_shape. vm_compute. lia. Defined.

Lemma token_truthy (length : nat) (entropy : list Byte.byte) :
  (0 < length)%nat -> (bytes_needed length <= List.length entropy)%nat ->
  truthy (Val (JStr (generateSecureToken length entropy))) = true.
Proof.
  intros Hpos He. pose proof (token_length length entropy He) as Hlen.
  cbn [truthy]. destruct (generateSecureToken length entropy); [cbn in Hlen; lia | reflexivity].
Qed.

(** X10. [generate secret_key] always completes.  With 24 random bytes at
    hand and no [SECRET_KEY] in the environment, the secret that
    [getConfig] returns afterwards is a string of 32 letters, digits, [-]
    and [_], every other schema key resolves as before, and the secret is
    no longer reported missing. *)
Theorem generated_secret_is_stored (entropy : list Byte.byte) (w : world)
    (Hentropy : (24 <= List.length entropy)%nat)
    (Henv : env w !! "SECRET_KEY" = None) :
  exists w' token,
    generate_secret_key_action entropy w = Returned tt w'
    /\ getConfig "secret_key" w' = Val (JStr token)
    /\ String.length token = 32%nat
    /\ Forall (fun c => url_safe c = true) (list_ascii_of_string token)
    /\ (forall k sch, schema k = Some sch -> k <> "secret_key" ->
                      getConfig k w' = getConfig k w)
    /\ ~ In "secret_key" (validateMandatoryConfig w').
Proof.
  set (token := generateSecureToken default_token_length entropy).
  assert (plain_key "secret_key" = true) as Hp by (vm_compute; reflexivity).
  assert ((bytes_needed default_token_length <= List.length entropy)%nat) as He
      by (change (bytes_needed default_token_length) with 24%nat; lia).
  exists (emit (Log LSuccess ("Secret Key generated and saved: " +:+ token))
            (put "secret_key" (JStr token) w)), token.
  assert (getConfig "secret_key"
            (emit (Log LSuccess ("Secret Key generated and saved: " +:+ token))
               (put "secret_key" (JStr token) w)) = Val (JStr token)) as Hg.
  { rewrite (getConfig_same_store _ (put "secret_key" (JStr token) w)) by reflexivity.
    apply (getConfig_put_same "secret_key" _ (JStr token) w eq_refl). exact Henv. }
  split; [| split; [exact Hg | split; [| split; [| split]]]].
  - unfold generate_secret_key_action. run_action. fold token.
    now rewrite (setConfig_put "secret_key" (JStr token) w Hp).
  - apply (token_length default_token_length entropy He).
  - apply (token_chars default_token_length entropy He).
  - intros k sch Hk Hne.
    rewrite (getConfig_same_store _ (put "secret_key" (JStr token) w)) by reflexivity.
    apply getConfig_put_other; [exact Hp | now apply (schema_key_plain k sch) | exact Hne].
  - intros Hin. apply truthy_false_iff_listed in Hin as [_ Hf].
    rewrite Hg in Hf. unfold token in Hf.
    rewrite token_truthy in Hf; [discriminate | unfold default_token_length; lia | exact He].
Qed.

Lemma generated_secret_is_stored_witness :
  exists w' token,
    generate_secret_key_action (zero_bytes 24) blank = Returned tt w'
    /\ getConfig "secret_key" w' = Val (JStr token)
    /\ String.length token = 32%nat
    /\ Forall (fun c => url_safe c = true) (list_ascii_of_string token)
    /\ (forall k sch, schema k = Some sch -> k <> "secret_key" ->
                      getConfig k w' = getConfig k blank)
    /\ ~ In "secret_key" (validateMandatoryConfig w').
Proof.
  apply (generated_secret_is_stored (zero_bytes 24) blank); [vm_compute; lia | reflexivity].
Defined.

(** ** What the commands leave alone *)

Section Frames.

Variable R : world -> world -> Prop.
Hypothesis R_refl : forall w, R w w.
Hypothesis R_trans : forall w1 w2 w3, R w1 w2 -> R w2 w3 -> R w1 w3.
Hypothesis R_emit : forall e w, R w (emit e w).

Lemma keeps_ret {A} (a : A) : keeps R (mret a).
Proof. intros w. apply R_refl. Qed.

Lemma keeps_exit {A} (c : Z) : keeps R (@exit A c).
Proof. intros w. apply R_refl. Qed.

Lemma keeps_throw {A} (e : error) : keeps R (@throw A e).
Proof. intros w. apply R_refl. Qed.

Lemma keeps_gets {A} (f : world -> A) : keeps R (gets f).
Proof. intros w. apply R_refl. Qed.

Lemma keeps_lift_res {A} (r : res A) : keeps R (lift_res r).
Proof. intros w. destruct r; apply R_refl. Qed.

Lemma keeps_bind {A B} (m : M A) (k : A -> M B) :
  keeps R m -> (forall a, keeps R (k a)) -> keeps R (m ≫= k).
Proof.
  intros Hm Hk w. unfold mbind, M_bind, bind. specialize (Hm w).
  destruct (m w) as [a w' | c w' | e w']; cbn [final_world] in *; [| exact Hm | exact Hm].
  apply (R_trans w w'); [exact Hm | apply Hk].
Qed.

Lemma keeps_try_catch {A} (m : M A) (h : error -> M A) :
  keeps R m -> (forall e, keeps R (h e)) -> keeps R (try_catch m h).
Proof.
  intros Hm Hh w. unfold try_catch. specialize (Hm w).
  destruct (m w) as [a w' | c w' | e w']; cbn [final_world] in *; [exact Hm | exact Hm |].
  apply (R_trans w w'); [exact Hm | apply Hh].
Qed.

Lemma keeps_for_each {A} (f : A -> M unit) (l : list A) :
  (forall a, keeps R (f a)) -> keeps R (for_each f l).
Proof.
  intros Hf. induction l as [|x rest IH]; cbn [for_each].
  - apply keeps_ret.
  - apply keeps_bind; [apply Hf | intros _; exact IH].
Qed.

Lemma keeps_logger (l : level) (msg : string) : keeps R (logger l msg).
Proof. intros w. apply R_emit. Qed.

Lemma keeps_spawn_shell cmd args penv pm2 : keeps R (spawn_shell cmd args penv pm2).
Proof. intros w. destruct pm2; [apply R_refl | apply R_emit]. Qed.

Ltac keeps_step :=
  first
    [ apply keeps_bind; [| intros ?]
    | apply keeps_try_catch; [| intros ?]
    | apply keeps_for_each; intros ?
    | match goal with
      | |- keeps R (if ?b then _ else _) => destruct b
      | |- keeps R (match ?x with _ => _ end) => destruct x
      end
    | solve [ apply keeps_ret | apply keeps_exit | apply keeps_throw | apply keeps_gets
            | apply keeps_lift_res | apply keeps_logger | apply keeps_spawn_shell
            | auto ] ].

Lemma keeps_validate_or_exit : keeps R validate_or_exit.
Proof. unfold validate_or_exit. repeat keeps_step. Qed.

Hypothesis R_probe : forall pid, keeps R (kill pid SIG0).
Hypothesis R_record : forall v, keeps R (setConfig "server_pid" v).

Lemma keeps_status (pm2 : shell_run) : keeps R (status_action pm2).
Proof. unfold status_action, on_pm2_status_event. repeat keeps_step. Qed.

Hypothesis R_spawn : forall cmd args, keeps R (spawn_detached cmd args).

Lemma keeps_startNativeBackground (o : options) : keeps R (startNativeBackground o).
Proof. unfold startNativeBackground. repeat keeps_step. Qed.

Lemma keeps_start (o : options) (pm2 : shell_run) : keeps R (start_action o pm2).
Proof.
  pose proof keeps_validate_or_exit. pose proof keeps_startNativeBackground.
  unfold start_action, on_pm2_start_event. repeat keeps_step.
Qed.

Hypothesis R_terminate : forall pid, keeps R (kill pid SIGTERM).

Lemma keeps_stop (pm2 : shell_run) : keeps R (stop_action pm2).
Proof. unfold stop_action, on_pm2_stop_event. repeat keeps_step. Qed.

End Frames.

Lemma setConfig_frame (k : string) (v : jsval) (w : world) :
  env (final_world (setConfig k v w)) = env w
  /\ procs (final_world (setConfig k v w)) = procs w
  /\ pid_supply (final_world (setConfig k v w)) = pid_supply w.
Proof.
  unfold setConfig. destruct (Conf.set k v (store w)); [| now cbn].
  now destruct (Conf.set _ _ _).
Qed.

Lemma kill_frame (pid : jsval) (sig : signal) (w : world) :
  store (final_world (kill pid sig w)) = store w
  /\ env (final_world (kill pid sig w)) = env w
  /\ pid_supply (final_world (kill pid sig w)) = pid_supply w.
Proof.
  unfold kill. destruct (to_pid pid) as [p|]; [| now cbn].
  destruct (procs w !! p) as [[]|]; destruct sig; now cbn.
Qed.

Lemma probe_frame (pid : jsval) (w : world) :
  procs (final_world (kill pid SIG0 w)) = procs w.
Proof.
  unfold kill. destruct (to_pid pid) as [p|]; [| now cbn].
  now destruct (procs w !! p) as [[]|].
Qed.

Lemma spawn_detached_frame (cmd : string) (args : list string) (w : world) :
  store (final_world (spawn_detached cmd args w)) = store w
  /\ env (final_world (spawn_detached cmd args w)) = env w.
Proof. unfold spawn_detached. now destruct (pid_supply w). Qed.

Lemma setConfig_server_pid_store (v : jsval) (w : world) (k : string) :
  k <> "server_pid" -> k <> "_meta" ->
  assoc k (store (final_world (setConfig "server_pid" v w))) = assoc k (store w).
Proof.
  intros Hk Hm. destruct v as [|j|m]; [reflexivity | | reflexivity].
  rewrite setConfig_server_pid. cbn [final_world store set_store].
  now apply (assoc_stored_other "server_pid").
Qed.

Lemma only_pid_written_refl (w : world) : only_pid_written w w.
Proof. now split. Qed.

Lemma only_pid_written_trans (w1 w2 w3 : world) :
  only_pid_written w1 w2 -> only_pid_written w2 w3 -> only_pid_written w1 w3.
Proof.
  intros [He1 Hs1] [He2 Hs2]. split; [congruence |].
  intros k Hk Hm. rewrite Hs2, Hs1; auto.
Qed.

Lemma none_ended_trans (w1 w2 w3 : world) :
  none_ended w1 w2 -> none_ended w2 w3 -> none_ended w1 w3.
Proof. intros H1 H2 p Hp. auto. Qed.

Lemma same_processes_trans (w1 w2 w3 : world) :
  same_processes w1 w2 -> same_processes w2 w3 -> same_processes w1 w3.
Proof. intros [? ?] [? ?]. split; congruence. Qed.

(** X11. Whatever the process manager answers, [start], [stop] and
    [status] never touch the environment and write no key of the store
    other than [server_pid] and the timestamps under [_meta], however the
    run ends. *)
Theorem lifecycle_writes_only_the_pid (o : options) (pm2 : shell_run) :
  keeps only_pid_written (start_action o pm2)
  /\ keeps only_pid_written (stop_action pm2)
  /\ keeps only_pid_written (status_action pm2).
Proof.
  assert (forall e w, only_pid_written w (emit e w)) as Hemit by (intros; now split).
  assert (forall pid sig, keeps only_pid_written (kill pid sig)) as Hkill.
  { intros pid sig w. destruct (kill_frame pid sig w) as (Hs & He & _).
    split; [exact He | intros; now rewrite Hs]. }
  assert (forall v, keeps only_pid_written (setConfig "server_pid" v)) as Hset.
  { intros v w. split; [apply setConfig_frame |].
    intros k Hk Hm. now apply setConfig_server_pid_store. }
  assert (forall cmd args, keeps only_pid_written (spawn_detached cmd args)) as Hspawn.
  { intros cmd args w. destruct (spawn_detached_frame cmd args w) as [Hs He].
    split; [exact He | intros; now rewrite Hs]. }
  split; [| split].
  - apply keeps_start;
      [apply only_pid_written_refl | apply only_pid_written_trans | exact Hemit
      | intros pid; apply Hkill | exact Hset | exact Hspawn].
  - apply keeps_stop;
      [apply only_pid_written_refl | apply only_pid_written_trans | exact Hemit
      | exact Hset | intros pid; apply Hkill].
  - apply keeps_status;
      [apply only_pid_written_refl | apply only_pid_written_trans | exact Hemit
      | intros pid; apply Hkill | exact Hset].
Qed.


Lemma only_recorded_ended_refl (w : world) : only_recorded_ended w w.
Proof. split; [intros p Hp Hn; contradiction | split; [auto | now left]]. Qed.

Lemma only_recorded_ended_trans (w1 w2 w3 : world) :
  only_recorded_ended w1 w2 -> only_recorded_ended w2 w3 -> only_recorded_ended w1 w3.
Proof.
  intros (He1 & Hn1 & Hr1) (He2 & Hn2 & Hr2). split; [| split].
  - intros p Hp Hgone. destruct (procs w2 !! p) eqn:E2.
    + assert (to_pid (getConfig "server_pid" w2) = Some p) as Hrec
          by (apply He2; [now rewrite E2 | exact Hgone]).
      destruct Hr1 as [<- | Hnull]; [exact Hrec |].
      rewrite Hnull in Hrec. discriminate.
    + now apply He1.
  - intros p Hp. auto.
  - destruct Hr2 as [-> | ->]; [exact Hr1 | now right].
Qed.

Lemma only_recorded_ended_emit (e : event) (w : world) : only_recorded_ended w (emit e w).
Proof.
  destruct (only_recorded_ended_refl w) as (H1 & H2 & _).
  split; [exact H1 | split; [exact H2 | left; reflexivity]].
Qed.

Lemma stop_event_ends_recorded (e : child_event) :
  keeps only_recorded_ended (on_pm2_stop_event e).
Proof.
  intros w. destruct e as [err | code]; [apply only_recorded_ended_refl |].
  unfold on_pm2_stop_event.
  destruct (bool_decide (code = Some 0%Z)); [apply only_recorded_ended_emit |].
  run_action. set (pid := getConfig "server_pid" w).
  destruct (truthy pid); cbn [negb]; [| apply only_recorded_ended_emit].
  destruct (kill_cases pid SIGTERM w)
    as [[_ ->] | (p & Hp & [[Hgone ->] | [[Hforeign ->] | [Hlive ->]]])].
  - apply only_recorded_ended_emit.
  - change (bool_decide (err_code ESRCH = Some "ESRCH")) with true. cbv beta iota.
    rewrite setConfig_server_pid. cbn [final_world].
    split; [| split].
    + intros q Hq Hn. contradiction.
    + auto.
    + right. now apply (getConfig_server_pid_stored JNull (clock w) (store w)).
  - apply only_recorded_ended_emit.
  - cbv beta iota. rewrite setConfig_server_pid. cbn [final_world].
    split; [| split].
    + intros q Hq Hn. cbn [procs emit set_store set_procs] in Hn.
      destruct (decide (q = p)) as [-> | Hne]; [exact Hp |].
      rewrite lookup_delete_ne in Hn by congruence. contradiction.
    + intros q Hq. cbn [procs emit set_store set_procs].
      destruct (decide (q = p)) as [-> | Hne];
        [apply lookup_delete_eq | now rewrite lookup_delete_ne by congruence].
    + right. now apply (getConfig_server_pid_stored JNull (clock w) (store w)).
Qed.

Lemma stop_run_ends_recorded (pm2 : shell_run) :
  keeps only_recorded_ended (stop_action pm2).
Proof.
  unfold stop_action.
  apply (keeps_bind _ only_recorded_ended_trans);
    [apply keeps_gets, only_recorded_ended_refl | intros penv].
  apply (keeps_bind _ only_recorded_ended_trans);
    [apply keeps_spawn_shell;
       [apply only_recorded_ended_refl | apply only_recorded_ended_emit] | intros events].
  apply keeps_for_each;
    [apply only_recorded_ended_refl | apply only_recorded_ended_trans
    | apply stop_event_ends_recorded].
Qed.

Lemma own_record_pid (w : world) (p : Z) :
  own_record w -> to_pid (getConfig "server_pid" w) = Some p ->
  valid_pid p /\ getConfig "server_pid" w = Val (JNum p).
Proof.
  intros [Hnull | (q & Hq & Hrec)] Hp; rewrite ?Hnull, ?Hrec in Hp; [discriminate |].
  destruct (valid_pid_recorded q Hq) as [_ Hto]. rewrite Hto in Hp.
  injection Hp as <-. now split.
Qed.



(** ** Listening *)

Lemma env_fallback_redundant (k var : string) (sch : schema_entry) (w : world) :
  schema k = Some sch -> sch_env sch = Some var ->
  truthy (process_env var w) = true -> getConfig k w = process_env var w.
Proof.
  intros Hk Hvar. unfold getConfig, process_env. rewrite Hk, Hvar.
  now destruct (env w !! var).
Qed.

Lemma jor_truthy_l (a b : jsval) : truthy a = true -> jor a b = a.
Proof. intros H. unfold jor. now rewrite H. Qed.

Lemma listen_port_fallback (o : options) (w : world) :
  jor (jor (jor (options_port o) (getConfig "server_port" w))
           (process_env "SERVER_PORT" w)) (Val (JNum 3000))
  = listen_port o w.
Proof.
  unfold listen_port.
  destruct (truthy (jor (options_port o) (getConfig "server_port" w))) eqn:Hl.
  - now rewrite (jor_truthy_l _ (process_env "SERVER_PORT" w) Hl).
  - unfold jor at 2. rewrite Hl.
    destruct (truthy (process_env "SERVER_PORT" w)) eqn:He.
    + rewrite <- (env_fallback_redundant "server_port" "SERVER_PORT" _ w eq_refl eq_refl He)
        in He.
      unfold jor in Hl. destruct (truthy (options_port o)) eqn:Ho; congruence.
    + unfold jor at 1. rewrite He. symmetry. unfold jor at 1. now rewrite Hl.
Qed.

Lemma listen_port_truthy (o : options) (w : world) : truthy (listen_port o w) = true.
Proof. now apply truthy_jor_r. Qed.

Lemma listen_resolved (o : options) (w : world) :
  validateMandatoryConfig w = [] ->
  listen_action o w
  = Returned tt (emit (ServerStarted (listen_port o w) (getConfig "secret_key" w)
                         (getConfig "working_dir" w) (getConfig "deployment_command" w)) w).
Proof.
  intros Hv. pose proof Hv as Hv'. unfold listen_action.
  unfold mbind at 1, M_bind at 1, bind at 1.
  rewrite (validate_or_exit_complete w Hv). run_action. unfold startServer.
  rewrite listen_port_fallback.
  unfold validateMandatoryConfig in Hv'.
  destruct (truthy (getConfig "secret_key" w)) eqn:H1;
    destruct (truthy (getConfig "working_dir" w)) eqn:H2;
    destruct (truthy (getConfig "deployment_command" w)) eqn:H3; try discriminate.
  now rewrite !jor_truthy_l.
Qed.

(** X15. Once validation passes, [listen] hands [startServer] exactly the
    secret, working directory and deployment command that [getConfig]
    resolves, all truthy: the fallbacks to [process.env] in the action
    never supply a value.  The port is [--port] when given non-empty,
    else the resolved [server_port] when truthy, else 3000, and is always
    truthy. *)
Theorem listen_serves_the_resolved_config (o : options) (w : world)
    (Hvalid : validateMandatoryConfig w = []) :
  listen_action o w
  = Returned tt (emit (ServerStarted (listen_port o w) (getConfig "secret_key" w)
                         (getConfig "working_dir" w) (getConfig "deployment_command" w)) w)
  /\ truthy (listen_port o w) = true
  /\ truthy (getConfig "secret_key" w) = true
  /\ truthy (getConfig "working_dir" w) = true
  /\ truthy (getConfig "deployment_command" w) = true
  /\ (forall p, port o = Some p -> p <> "" -> listen_port o w = Val (JStr p))
  /\ (port o = None -> truthy (getConfig "server_port" w) = true ->
      listen_port o w = getConfig "server_port" w).
Proof.
  split; [now apply listen_resolved |].
  split; [apply listen_port_truthy |].
  pose proof Hvalid as Hv. unfold validateMandatoryConfig in Hv.
  destruct (truthy (getConfig "secret_key" w)) eqn:H1;
    destruct (truthy (getConfig "working_dir" w)) eqn:H2;
    destruct (truthy (getConfig "deployment_command" w)) eqn:H3; try discriminate.
  repeat split.
  - intros p Hp Hne. unfold listen_port, options_port. rewrite Hp. cbn [of_option_string].
    rewrite (jor_truthy_l (Val (JStr p))) by now apply truthy_nonempty.
    apply jor_truthy_l. now apply truthy_nonempty.
  - intros Hp Ht. unfold listen_port, options_port. rewrite Hp. cbn [of_option_string].
    unfold jor at 2. cbn [truthy]. now apply jor_truthy_l.
Qed.

Lemma listen_serves_the_resolved_config_witness :
  listen_action no_port configured
  = Returned tt (emit (ServerStarted (listen_port no_port configured)
                         (getConfig "secret_key" configured)
                         (getConfig "working_dir" configured)
                         (getConfig "deployment_command" configured)) configured)
  /\ truthy (listen_port no_port configured) = true
  /\ truthy (getConfig "secret_key" configured) = true
  /\ truthy (getConfig "working_dir" configured) = true
  /\ truthy (getConfig "deployment_command" configured) = true
  /\ (forall p, port no_port = Some p -> p <> "" ->
                listen_port no_port configured = Val (JStr p))
  /\ (port no_port = None -> truthy (getConfig "server_port" configured) = true ->
      listen_port no_port configured = getConfig "server_port" configured).
Proof. apply (listen_serves_the_resolved_config no_port configured). reflexivity. Defined.

(** ** Initialisation *)

Lemma init_server_run (a : answers) (token : string) (w : world) :
  init_action "server" (Answers a) token w = Returned tt (init_server_world a token w).
Proof.
  unfold init_action, init_server_world, chosen_secret, prompt.
  change (String.eqb "server" "client") with false.
  change (String.eqb "server" "server") with true.
  run_action.
  cbn [negb andb]. cbv beta iota.
  destruct (truthy (Val (JStr (secret_key a)))); cbn [negb]; cbv beta iota;
    rewrite (setConfig_put "server_port") by reflexivity; cbv beta iota;
    rewrite (setConfig_put "working_dir") by reflexivity; cbv beta iota;
    (destruct (truthy (Val (JStr (deployment_command a)))); cbv beta iota;
     rewrite ?(setConfig_put "deployment_command") by reflexivity; cbv beta iota;
     rewrite (setConfig_put "secret_key") by reflexivity; reflexivity).
Qed.

Lemma getConfig_emit (k : string) (e : event) (w : world) :
  getConfig k (emit e w) = getConfig k w.
Proof. reflexivity. Qed.

Ltac read_back :=
  repeat first
    [ rewrite getConfig_emit
    | rewrite getConfig_put_other by (reflexivity || discriminate)
    | erewrite getConfig_put_same by (reflexivity || assumption) ].

Lemma init_server_reads (a : answers) (token : string) (w : world) :
  mandatory_env_unset w ->
  let w' := init_server_world a token w in
  getConfig "working_dir" w' = Val (JStr (working_dir a))
  /\ getConfig "secret_key" w' = Val (JStr (chosen_secret a token))
  /\ getConfig "deployment_command" w'
     = (if truthy (Val (JStr (deployment_command a)))
        then Val (JStr (deployment_command a))
        else getConfig "deployment_command" w)
  /\ getConfig "servers" w' = getConfig "servers" w
  /\ getConfig "server_url" w' = getConfig "server_url" w
  /\ getConfig "server_pid" w' = getConfig "server_pid" w.
Proof.
  intros (Hs & Hd & Hc). unfold init_server_world. cbv zeta.
  destruct (truthy (Val (JStr (secret_key a))));
    destruct (truthy (Val (JStr (deployment_command a))));
    repeat split; read_back; reflexivity.
Qed.

Lemma chosen_secret_truthy (a : answers) (token : string) :
  token <> "" -> truthy (Val (JStr (chosen_secret a token))) = true.
Proof.
  intros Ht. unfold chosen_secret.
  destruct (truthy (Val (JStr (secret_key a)))) eqn:E; [exact E | now apply truthy_nonempty].
Qed.

(** X16. [init server], answered with a working directory and a deployment
    command and with none of the three mandatory variables in the
    environment, completes and leaves a configuration that passes
    validation: the secret is the one typed in, or the generated token when
    none was typed, and [listen] then starts the server with exactly the
    values entered.  Client settings and the recorded pid are left as they
    were. *)
Theorem init_server_completes_the_config (a : answers) (token : string) (w : world)
    (Henv : mandatory_env_unset w)
    (Hdir : working_dir a <> "") (Hcmd : deployment_command a <> "")
    (Htoken : token <> "") :
  exists w',
    init_action "server" (Answers a) token w = Returned tt w'
    /\ getConfig "secret_key" w' = Val (JStr (chosen_secret a token))
    /\ getConfig "working_dir" w' = Val (JStr (working_dir a))
    /\ getConfig "deployment_command" w' = Val (JStr (deployment_command a))
    /\ validateMandatoryConfig w' = []
    /\ (forall o, listen_action o w'
                  = Returned tt (emit (ServerStarted (listen_port o w')
                                         (Val (JStr (chosen_secret a token)))
                                         (Val (JStr (working_dir a)))
                                         (Val (JStr (deployment_command a)))) w'))
    /\ getConfig "servers" w' = getConfig "servers" w
    /\ getConfig "server_url" w' = getConfig "server_url" w
    /\ getConfig "server_pid" w' = getConfig "server_pid" w.
Proof.
  exists (init_server_world a token w).
  destruct (init_server_reads a token w Henv) as (Hd & Hs & Hc & Hrest).
  rewrite (truthy_nonempty _ Hcmd) in Hc.
  assert (validateMandatoryConfig (init_server_world a token w) = []) as Hvalid.
  { unfold validateMandatoryConfig. rewrite Hs, Hd, Hc.
    rewrite (chosen_secret_truthy a token Htoken).
    now rewrite (truthy_nonempty _ Hdir), (truthy_nonempty _ Hcmd). }
  split; [apply init_server_run |].
  repeat (split; [assumption |]).
  split; [| exact Hrest].
  intros o. rewrite (listen_resolved o _ Hvalid). now rewrite Hs, Hd, Hc.
Qed.

Lemma init_server_completes_the_config_witness :
  exists w',
    init_action "server" (Answers sample_answers) "t0ken" blank = Returned tt w'
    /\ getConfig "secret_key" w' = Val (JStr (chosen_secret sample_answers "t0ken"))
    /\ getConfig "working_dir" w' = Val (JStr (working_dir sample_answers))
    /\ getConfig "deployment_command" w' = Val (JStr (deployment_command sample_answers))
    /\ validateMandatoryConfig w' = []
    /\ (forall o, listen_action o w'
                  = Returned tt (emit (ServerStarted (listen_port o w')
                                         (Val (JStr (chosen_secret sample_answers "t0ken")))
                                         (Val (JStr (working_dir sample_answers)))
                                         (Val (JStr (deployment_command sample_answers))))
                                   w'))
    /\ getConfig "servers" w' = getConfig "servers" blank
    /\ getConfig "server_url" w' = getConfig "server_url" blank
    /\ getConfig "server_pid" w' = getConfig "server_pid" blank.
Proof.
  apply (init_server_completes_the_config sample_answers "t0ken" blank);
    [repeat split | discriminate | discriminate | discriminate].
Defined.

(** X17. When the optional deployment command is left empty at the prompt
    of [init server] and none resolved before, the initialisation still
    reports success, but [start] and [listen] then refuse to run: both log
    an error naming [deployment_command] and exit with code 1. *)
Theorem init_server_without_command_cannot_start (a : answers) (token : string)
    (o : options) (pm2 : shell_run) (w : world)
    (Hcmd : deployment_command a = "")
    (Hnone : truthy (getConfig "deployment_command" w) = false) :
  exists w' msg,
    init_action "server" (Answers a) token w = Returned tt w'
    /\ start_action o pm2 w' = Exited 1 (emit (Log LError msg) w')
    /\ listen_action o w' = Exited 1 (emit (Log LError msg) w')
    /\ names_key msg "deployment_command".
Proof.
  set (w' := init_server_world a token w).
  assert (getConfig "deployment_command" w' = getConfig "deployment_command" w) as Hsame.
  { unfold w', init_server_world. rewrite Hcmd. cbv zeta.
    change (truthy (Val (JStr ""))) with false. cbv iota.
    destruct (truthy (Val (JStr (secret_key a)))); read_back; reflexivity. }
  assert (In "deployment_command" (validateMandatoryConfig w')) as Hin.
  { apply missing_key_listed; [cbn; tauto | now rewrite Hsame]. }
  assert (validateMandatoryConfig w' <> []) as Hne.
  { intros He. rewrite He in Hin. contradiction. }
  exists w', (message_text (getMissingConfigMessage (validateMandatoryConfig w'))).
  split; [apply init_server_run | split; [| split]].
  - unfold start_action, mbind, M_bind, bind.
    now rewrite (validate_or_exit_missing w' Hne).
  - unfold listen_action, mbind, M_bind, bind.
    now rewrite (validate_or_exit_missing w' Hne).
  - now apply missing_message_names.
Qed.

Lemma init_server_without_command_cannot_start_witness :
  exists w' msg,
    init_action "server"
      (Answers {| server_name := ""; server_url := ""; secret_key := "";
                  server_port := "3000"; working_dir := "/srv/app";
                  deployment_command := "" |}) "t0ken" blank
    = Returned tt w'
    /\ start_action no_port (Delivers []) w' = Exited 1 (emit (Log LError msg) w')
    /\ listen_action no_port w' = Exited 1 (emit (Log LError msg) w')
    /\ names_key msg "deployment_command".
Proof.
  apply (init_server_without_command_cannot_start _ "t0ken" no_port (Delivers []) blank);
    reflexivity.
Defined.

Lemma profiles_of_servers (w : world) (ss : list (string * json)) :
  profiles_of w = Some ss ->
  jor (getConfig "servers" w) (Val (JObj [])) = Val (JObj ss).
Proof.
  unfold profiles_of, jor.
  destruct (getConfig "servers" w) as [|j|m]; cbn [truthy]; try congruence.
  destruct j as [|b|n|s|fs]; cbn [truthy]; try congruence;
    match goal with |- context [if ?c then _ else _] => destruct c end; congruence.
Qed.

Lemma getConfig_servers_put (ss : list (string * json)) (w : world) :
  getConfig "servers" (put "servers" (JObj ss) w) = Val (JObj ss).
Proof. now apply (getConfig_put_same "servers" _ (JObj ss) w eq_refl). Qed.

Lemma init_client_run (a : answers) (token : string) (w : world)
    (ss : list (string * json)) :
  profiles_of w = Some ss -> server_name a <> "__proto__" ->
  init_action "client" (Answers a) token w
  = Returned tt
      (emit (Log LSuccess ("Client configuration for '" +:+ server_name a
                           +:+ "' saved successfully."))
         (put "servers" (JObj (obj_set (server_name a) (profile_of a) ss)) w)).
Proof.
  intros Hss Hname. unfold init_action, prompt.
  change (String.eqb "client" "client") with true.
  run_action. cbn [negb andb]. cbv beta iota.
  rewrite (profiles_of_servers w ss Hss). unfold lift_res, assign.
  apply String.eqb_neq in Hname. rewrite Hname. cbv beta iota.
  rewrite (setConfig_put "servers") by reflexivity. reflexivity.
Qed.

Lemma deploy_target_same_profile (name : string) (w w' : world)
    (ss ss' : list (string * json)) :
  jor (getConfig "servers" w) (Val (JObj [])) = Val (JObj ss) ->
  jor (getConfig "servers" w') (Val (JObj [])) = Val (JObj ss') ->
  assoc name ss' = assoc name ss ->
  getConfig "server_url" w' = getConfig "server_url" w ->
  getConfig "secret_key" w' = getConfig "secret_key" w ->
  env w' = env w ->
  exists target,
    deploy_target name w = Returned target w
    /\ deploy_target name w' = Returned target w'.
Proof.
  intros Hs Hs' Ha Hu Hk He. unfold deploy_target. run_action.
  rewrite Hs, Hs'. unfold lift_res. cbn [member]. unfold obj_member. rewrite Ha.
  set (profile := match assoc name ss with
                  | Some j => Val j
                  | None => if in_list name object_prototype_members
                            then Inherited name else Undefined
                  end).
  destruct (truthy profile) eqn:Hp.
  - destruct (member_of_truthy profile "url" Hp) as [url ->].
    destruct (member_of_truthy profile "secret" Hp) as [sec ->]. eauto.
  - unfold process_env. rewrite Hu, Hk, He. eauto.
Qed.

(** X18. After [init client] has been answered, [deploy <name>] for the
    name entered triggers a deployment with exactly the URL and the secret
    entered, whatever the global settings and the environment hold, and
    every other name resolves to the same target as before.  This holds
    when [servers] held an object or a falsy value, for every name but
    [__proto__], and for a non-empty URL and secret. *)
Theorem init_client_then_deploy (a : answers) (token : string) (w : world)
    (ss : list (string * json))
    (Hservers : profiles_of w = Some ss)
    (Hname : server_name a <> "__proto__")
    (Hurl : server_url a <> "") (Hsecret : secret_key a <> "") :
  exists w',
    init_action "client" (Answers a) token w = Returned tt w'
    /\ deploy_target (server_name a) w'
       = Returned (Val (JStr (server_url a)), Val (JStr (secret_key a))) w'
    /\ deploy_action (server_name a) None w'
       = Returned tt (emit (Triggered (server_name a) (Val (JStr (server_url a)))
                              (Val (JStr (secret_key a)))) w')
    /\ (forall other, other <> server_name a ->
          exists target,
            deploy_target other w = Returned target w
            /\ deploy_target other w' = Returned target w').
Proof.
  set (ss' := obj_set (server_name a) (profile_of a) ss).
  set (w' := emit (Log LSuccess ("Client configuration for '" +:+ server_name a
                                 +:+ "' saved successfully."))
               (put "servers" (JObj ss') w)).
  assert (jor (getConfig "servers" w') (Val (JObj [])) = Val (JObj ss')) as Hs'.
  { unfold w'. rewrite getConfig_emit, getConfig_servers_put. reflexivity. }
  assert (deploy_target (server_name a) w'
          = Returned (Val (JStr (server_url a)), Val (JStr (secret_key a))) w') as Ht.
  { unfold deploy_target. run_action. rewrite Hs'. unfold lift_res. cbn [member].
    unfold obj_member, ss'. rewrite assoc_obj_set_eq. reflexivity. }
  exists w'. split; [now apply init_client_run | split; [exact Ht | split]].
  - rewrite (deploy_action_cases _ None w' _ _ Ht).
    now rewrite (truthy_nonempty _ Hurl), (truthy_nonempty _ Hsecret).
  - intros other Hother.
    apply (deploy_target_same_profile other w w' ss ss');
      [now apply profiles_of_servers | exact Hs' | | | | reflexivity].
    + unfold ss'. now apply assoc_obj_set_ne.
    + unfold w'. read_back. reflexivity.
    + unfold w'. read_back. reflexivity.
Qed.

Lemma init_client_then_deploy_witness :
  exists w',
    init_action "client" (Answers sample_answers) "t0ken" blank = Returned tt w'
    /\ deploy_target (server_name sample_answers) w'
       = Returned (Val (JStr (server_url sample_answers)),
                   Val (JStr (secret_key sample_answers))) w'
    /\ deploy_action (server_name sample_answers) None w'
       = Returned tt (emit (Triggered (server_name sample_answers)
                              (Val (JStr (server_url sample_answers)))
                              (Val (JStr (secret_key sample_answers)))) w')
    /\ (forall other, other <> server_name sample_answers ->
          exists target,
            deploy_target other blank = Returned target blank
            /\ deploy_target other w' = Returned target w').
Proof.
  apply (init_client_then_deploy sample_answers "t0ken" blank []);
    [reflexivity | discriminate | discriminate | discriminate].
Defined.

(** X19. When [servers] holds a truthy value that is not an object, such
    as a string written by [config set servers ...], [init client] cannot
    add a profile: it logs an error, exits with code 1 and stores
    nothing. *)
Theorem init_client_needs_an_object (a : answers) (token : string) (w : world)
    (Hservers : profiles_of w = None) :
  exists msg,
    init_action "client" (Answers a) token w = Exited 1 (emit (Log LError msg) w).
Proof.
  unfold init_action, prompt. change (String.eqb "client" "client") with true.
  run_action. cbn [negb andb]. cbv beta iota.
  unfold profiles_of in Hservers. unfold jor.
  destruct (getConfig "servers" w) as [|j|m]; cbn [truthy] in *; try discriminate.
  - destruct j as [|b|n|s|fs]; cbn [truthy] in *; try discriminate;
      match type of Hservers with
      | (if ?c then _ else _) = _ => destruct c; [| discriminate]
      end; cbn [lift_res assign]; eauto.
  - cbn [lift_res assign]. unfold setConfig. cbn [Conf.set]. eauto.
Qed.

Lemma init_client_needs_an_object_witness :
  exists msg,
    init_action "client" (Answers sample_answers) "t0ken"
      (put "servers" (JStr "none") blank)
    = Exited 1 (emit (Log LError msg) (put "servers" (JStr "none") blank)).
Proof. apply init_client_needs_an_object. reflexivity. Defined.

(** ** Deploying to a stored profile *)

(** X20. For a name that has a profile object, [deploy] takes the URL and
    the secret from that profile alone: a profile without a truthy [url]
    makes the command exit with code 1 reporting that the server was not
    found, and one without a truthy [secret] makes it exit with code 1
    too, whatever the global [server_url] and [secret_key] and the
    environment hold. *)
Theorem profile_fields_have_no_fallback (w : world) (serverName : string)
    (ss fs : list (string * json)) (rejection : option error)
    (Hservers : profiles_of w = Some ss)
    (Hprofile : assoc serverName ss = Some (JObj fs)) :
  deploy_target serverName w
  = Returned (obj_member fs "url", obj_member fs "secret") w
  /\ (truthy (obj_member fs "url") = false ->
      deploy_action serverName rejection w
      = Exited 1 (emit (Log LInfo init_hint_message)
                    (emit (Log LError (no_server_message serverName)) w)))
  /\ (truthy (obj_member fs "url") = true ->
      truthy (obj_member fs "secret") = false ->
      deploy_action serverName rejection w
      = Exited 1 (emit (Log LError no_secret_message) w)).
Proof.
  assert (deploy_target serverName w
          = Returned (obj_member fs "url", obj_member fs "secret") w) as Ht.
  { unfold deploy_target. run_action. rewrite (profiles_of_servers w ss Hservers).
    unfold lift_res. cbn [member].
    assert (obj_member ss serverName = Val (JObj fs)) as ->
        by (unfold obj_member; now rewrite Hprofile).
    reflexivity. }
  split; [exact Ht | split].
  - intros Hu. rewrite (deploy_action_cases _ rejection w _ _ Ht). now rewrite Hu.
  - intros Hu Hs. rewrite (deploy_action_cases _ rejection w _ _ Ht). now rewrite Hu, Hs.
Qed.

Lemma profile_fields_have_no_fallback_witness :
  deploy_target "dev" host_client
  = Returned (obj_member host_profile "url", obj_member host_profile "secret") host_client
  /\ (truthy (obj_member host_profile "url") = false ->
      deploy_action "dev" None host_client
      = Exited 1 (emit (Log LInfo init_hint_message)
                    (emit (Log LError (no_server_message "dev")) host_client)))
  /\ (truthy (obj_member host_profile "url") = true ->
      truthy (obj_member host_profile "secret") = false ->
      deploy_action "dev" None host_client
      = Exited 1 (emit (Log LError no_secret_message) host_client)).
Proof.
  apply (profile_fields_have_no_fallback host_client "dev" [("dev", JObj host_profile)]);
    reflexivity.
Defined.

(** ** Sorting the listing by security *)

Lemma schema_row_security (w : world) (meta : jsval) (entry : string * schema_entry)
    (r : detail_row) :
  schema_row w meta entry = Got r ->
  det_key r = fst entry /\ det_security r = sch_security (snd entry).
Proof.
  unfold schema_row.
  destruct (updatedAt_of meta (fst entry)) as [u | e]; cbn [mbind res_bind];
    [| discriminate].
  now intros [= <-].
Qed.

Lemma res_map_image {A B} (f : A -> res B) (l : list A) (ys : list B) (y : B) :
  res_map f l = Got ys -> In y ys -> exists x, In x l /\ f x = Got y.
Proof.
  revert ys. induction l as [|a rest IH]; intros ys Hys Hin.
  - injection Hys as <-. contradiction.
  - cbn [res_map] in Hys. destruct (f a) as [b | e] eqn:Efa; cbn [mbind res_bind] in Hys;
      [| discriminate].
    destruct (res_map f rest) as [bs | e]; cbn [mbind res_bind] in Hys; [| discriminate].
    injection Hys as <-. destruct Hin as [<- | Hin].
    + exists a. split; [now left | exact Efa].
    + destruct (IH bs eq_refl Hin) as (x & Hx & Hfx). exists x. split; [now right | exact Hfx].
Qed.

Lemma detailed_rows_levels (w : world) (rows : list detail_row) (r : detail_row) :
  getDetailedConfig w = Got rows -> In r rows -> In (det_security r) listing_levels.
Proof.
  unfold getDetailedConfig. cbv zeta. set (meta := jor _ (Val (JObj []))).
  destruct (res_map (schema_row w meta) CONFIG_SCHEMA) as [srows | e] eqn:Es;
    cbn [mbind res_bind]; [| discriminate].
  destruct (res_map (custom_row w meta) _) as [crows | e] eqn:Ec;
    cbn [mbind res_bind]; [| discriminate].
  intros [= <-] Hin. apply in_app_or in Hin as [Hin | Hin].
  - destruct (res_map_image _ _ _ r Es Hin) as (entry & He & Hr).
    apply schema_row_security in Hr as [_ ->].
    unfold CONFIG_SCHEMA in He. cbn [In] in He.
    repeat (destruct He as [<- | He]; [cbn; tauto |]). contradiction.
  - destruct (res_map_image _ _ _ r Ec Hin) as (key & _ & Hr).
    apply custom_row_key in Hr as [_ ->]. cbn. tauto.
Qed.

Lemma detailed_row_of_schema (w : world) (rows : list detail_row)
    (entry : string * schema_entry) :
  getDetailedConfig w = Got rows -> In entry CONFIG_SCHEMA ->
  exists r, In r rows /\ det_key r = fst entry
            /\ det_security r = sch_security (snd entry).
Proof.
  unfold getDetailedConfig. cbv zeta. set (meta := jor _ (Val (JObj []))).
  destruct (res_map (schema_row w meta) CONFIG_SCHEMA) as [srows | e] eqn:Es;
    cbn [mbind res_bind]; [| discriminate].
  destruct (res_map (custom_row w meta) _) as [crows | e] eqn:Ec;
    cbn [mbind res_bind]; [| discriminate].
  intros [= <-] Hin.
  destruct (res_map_In _ _ _ entry Es Hin) as (r & Hr & Hrow).
  exists r. split; [apply in_or_app; now left | now apply (schema_row_security w meta)].
Qed.

(** X21. With [--sort security] the comparator of [config list] never
    orders a row of level critical before any other row of the listing,
    and it orders the critical [secret_key] strictly after the low
    [server_port]: the rank 0 given to critical is falsy, so that level
    ranks 4, like unknown. *)
Theorem critical_rows_never_sort_first (w : world) :
  exists rows,
    getDetailedConfig w = Got rows
    /\ (forall a b, In a rows -> In b rows -> det_security a = "critical" ->
                    exists d, security_compare a b = Some d /\ (0 <= d)%Z)
    /\ (exists a b, In a rows /\ In b rows
                    /\ det_key a = "secret_key" /\ det_security a = "critical"
                    /\ det_key b = "server_port" /\ det_security b = "low"
                    /\ security_compare a b = Some 1%Z).
Proof.
  destruct (getDetailedConfig_shape w) as (srows & crows & E & _).
  exists (srows ++ crows)%list. split; [exact E | split].
  - intros a b Ha Hb Hcrit.
    pose proof (detailed_rows_levels w _ b E Hb) as Hlevel.
    unfold security_compare. rewrite Hcrit.
    unfold listing_levels in Hlevel. cbn [In] in Hlevel.
    repeat (destruct Hlevel as [<- | Hlevel];
            [eexists; split; [vm_compute; reflexivity | lia] |]).
    contradiction.
  - destruct (detailed_row_of_schema w _ ("secret_key", _) E
                ltac:(right; left; reflexivity)) as (a & Ha & Hka & Hsa).
    destruct (detailed_row_of_schema w _ ("server_port", _) E
                ltac:(left; reflexivity)) as (b & Hb & Hkb & Hsb).
    exists a, b. cbn [fst snd sch_security] in *.
    repeat (split; [assumption |]).
    unfold security_compare. now rewrite Hsa, Hsb.
Qed.

(** ** Setting values from the command line *)

Lemma config_set_run (k value : string) (w : world) :
  plain_key k = true ->
  config_set_action k value w
  = Returned tt (emit (Log LSuccess ("Configuration updated: " +:+ k +:+ " = " +:+ value))
                   (put k (JStr value) w)).
Proof.
  intros Hp. unfold config_set_action. run_action.
  now rewrite (setConfig_put k (JStr value) w Hp).
Qed.

Lemma generate_secret_key_run (entropy : list Byte.byte) (w : world) :
  generate_secret_key_action entropy w
  = Returned tt
      (emit (Log LSuccess ("Secret Key generated and saved: "
                           +:+ generateSecureToken default_token_length entropy))
         (put "secret_key" (JStr (generateSecureToken default_token_length entropy)) w)).
Proof.
  unfold generate_secret_key_action. run_action.
  now rewrite (setConfig_put "secret_key" _ w eq_refl).
Qed.

Lemma generate_working_dir_run (cwd : string) (w : world) :
  generate_working_dir_action cwd w
  = Returned tt (emit (Log LSuccess ("Working Directory set to: " +:+ cwd))
                   (put "working_dir" (JStr cwd) w)).
Proof.
  unfold generate_working_dir_action. run_action.
  now rewrite (setConfig_put "working_dir" _ w eq_refl).
Qed.

(** X22. [config set k v] followed by [config get k], for a schema key
    that no environment variable overrides: both complete, the second
    logs [k: v] at level info and changes nothing, and every other schema
    key resolves as before the write. *)
Theorem config_set_then_get (k value : string) (sch : schema_entry) (w : world)
    (Hk : schema k = Some sch) (Henv : env_unset sch w) :
  exists w',
    config_set_action k value w = Returned tt w'
    /\ config_get_action k w' = Returned tt (emit (Log LInfo (k +:+ ": " +:+ value)) w')
    /\ (forall k' sch', schema k' = Some sch' -> k' <> k ->
                        getConfig k' w' = getConfig k' w).
Proof.
  pose proof (schema_key_plain k sch Hk) as Hp.
  eexists. split; [now apply config_set_run | split].
  - unfold config_get_action. run_action. rewrite getConfig_emit.
    now rewrite (getConfig_put_same k sch (JStr value) w Hk Henv).
  - intros k' sch' Hk' Hne. rewrite getConfig_emit.
    apply getConfig_put_other; [exact Hp | now apply (schema_key_plain k' sch') | exact Hne].
Qed.

Lemma config_set_then_get_witness :
  exists w',
    config_set_action "server_url" "http://10.0.0.5:3000" blank = Returned tt w'
    /\ config_get_action "server_url" w'
       = Returned tt (emit (Log LInfo ("server_url" +:+ ": " +:+ "http://10.0.0.5:3000")) w')
    /\ (forall k' sch', schema k' = Some sch' -> k' <> "server_url" ->
                        getConfig k' w' = getConfig k' blank).
Proof.
  apply (config_set_then_get "server_url" "http://10.0.0.5:3000" _ blank eq_refl).
  reflexivity.
Defined.

(** X23. Setting a server up by hand: [generate secret_key], then
    [generate working_dir] in a directory with a non-empty path, then
    [config set deployment_command <cmd>] with a non-empty command, with
    none of the three mandatory variables in the environment and 24 random
    bytes at hand, all complete and leave a configuration that passes
    validation, with the working directory and the command as given. *)
Theorem manual_setup_passes_validation (entropy : list Byte.byte) (cwd cmd : string)
    (w : world)
    (Henv : mandatory_env_unset w)
    (Hentropy : (24 <= List.length entropy)%nat)
    (Hcwd : cwd <> "") (Hcmd : cmd <> "") :
  exists w1 w2 w3,
    generate_secret_key_action entropy w = Returned tt w1
    /\ generate_working_dir_action cwd w1 = Returned tt w2
    /\ config_set_action "deployment_command" cmd w2 = Returned tt w3
    /\ getConfig "working_dir" w3 = Val (JStr cwd)
    /\ getConfig "deployment_command" w3 = Val (JStr cmd)
    /\ validateMandatoryConfig w3 = [].
Proof.
  destruct Henv as (Hs & Hd & Hc).
  eexists _, _, _.
  split; [apply generate_secret_key_run |].
  split; [apply generate_working_dir_run |].
  split; [now apply config_set_run |].
  assert ((bytes_needed default_token_length <= List.length entropy)%nat) as He
      by (change (bytes_needed default_token_length) with 24%nat; lia).
  split; [read_back; reflexivity |].
  split; [read_back; reflexivity |].
  unfold validateMandatoryConfig. read_back.
  rewrite (token_truthy default_token_length entropy)
    by first [exact He | unfold default_token_length; lia].
  now rewrite (truthy_nonempty _ Hcwd), (truthy_nonempty _ Hcmd).
Qed.

Lemma manual_setup_passes_validation_witness :
  exists w1 w2 w3,
    generate_secret_key_action (zero_bytes 24) blank = Returned tt w1
    /\ generate_working_dir_action "/srv/app" w1 = Returned tt w2
    /\ config_set_action "deployment_command" "make deploy" w2 = Returned tt w3
    /\ getConfig "working_dir" w3 = Val (JStr "/srv/app")
    /\ getConfig "deployment_command" w3 = Val (JStr "make deploy")
    /\ validateMandatoryConfig w3 = [].
Proof.
  apply (manual_setup_passes_validation (zero_bytes 24) "/srv/app" "make deploy" blank);
    [repeat split | vm_compute; lia | discriminate | discriminate].
Defined.

(** ** Stopping what cannot be signalled *)

Lemma letter_is_no_pid (c : ascii) (rest : string) :
  is_letter c = true -> to_pid (Val (JStr (String c rest))) = None.
Proof.
  intros Hc. unfold to_pid, decimal_int.
  assert (digit_of c = None) as Hd.
  { revert Hc. destruct c as [[] [] [] [] [] [] [] []]; vm_compute; congruence. }
  assert (c <> "-"%char) as Hm.
  { intros ->. vm_compute in Hc. discriminate. }
  assert (digits_value 0 (String c rest) = None) as Hv
      by (cbn [digits_value]; now rewrite Hd).
  destruct c as [[] [] [] [] [] [] [] []]; try congruence; now rewrite Hv.
Qed.

(** [stop] in native mode when [process.kill] throws anything but ESRCH
    and leaves the world as it was. *)
Lemma stop_signal_refused (code : option Z) (w : world) (e : error) :
  code <> Some 0%Z ->
  truthy (getConfig "server_pid" w) = true ->
  (forall w0, procs w0 = procs w -> kill (getConfig "server_pid" w) SIGTERM w0 = Thrown e w0) ->
  err_code e <> Some "ESRCH" ->
  stop_action (Delivers [ChildClose code]) w
  = Returned tt (emit (Log LError ("Failed to stop server: " +:+ err_message e))
                   (emit (Spawned "pm2" ["stop"; "redep-server"] false (env w)) w)).
Proof.
  intros Hnative Hrecorded Hkill Hother.
  rewrite (stop_native code w Hnative Hrecorded). cbv zeta.
  rewrite Hkill by reflexivity.
  now rewrite (bool_decide_eq_false_2 _ Hother).
Qed.

Lemma stop_not_permitted (code : option Z) (w : world) (p : Z) :
  code <> Some 0%Z -> valid_pid p ->
  getConfig "server_pid" w = Val (JNum p) ->
  procs w !! p = Some ForeignProcess ->
  stop_action (Delivers [ChildClose code]) w
  = Returned tt (emit (Log LError "Failed to stop server: kill EPERM")
                   (emit (Spawned "pm2" ["stop"; "redep-server"] false (env w)) w)).
Proof.
  intros Hnative Hp Hrec Hforeign. destruct (valid_pid_recorded p Hp) as [Ht Hto].
  apply (stop_signal_refused code w EPERM Hnative);
    [now rewrite Hrec | | discriminate].
  intros w0 Hprocs. unfold kill. now rewrite Hrec, Hto, Hprocs, Hforeign.
Qed.

Lemma stop_not_a_pid (code : option Z) (w : world) (c : ascii) (rest : string) :
  code <> Some 0%Z -> is_letter c = true ->
  getConfig "server_pid" w = Val (JStr (String c rest)) ->
  exists msg,
    stop_action (Delivers [ChildClose code]) w
    = Returned tt (emit (Log LError ("Failed to stop server: " +:+ msg))
                     (emit (Spawned "pm2" ["stop"; "redep-server"] false (env w)) w)).
Proof.
  intros Hnative Hc Hrec. exists (err_message ERR_INVALID_ARG_TYPE).
  apply (stop_signal_refused code w ERR_INVALID_ARG_TYPE Hnative);
    [now rewrite Hrec | | discriminate].
  intros w0 _. unfold kill. now rewrite Hrec, (letter_is_no_pid c rest Hc).
Qed.

(** X24. In native mode, when the recorded pid is a string that begins
    with a letter, or the positive pid of a process of another user,
    [stop] logs "Failed to stop server: ..." at level error (with the text
    "kill EPERM" in the second case) and still completes with exit status
    0; the record, the rest of the store and the process table stay as
    they were. *)
Theorem stop_failure_keeps_the_record (code : option Z) (w : world)
    (Hnative : code <> Some 0%Z)
    (Hfail : (exists c rest, is_letter c = true
                             /\ getConfig "server_pid" w = Val (JStr (String c rest)))
             \/ (exists p, valid_pid p /\ getConfig "server_pid" w = Val (JNum p)
                           /\ procs w !! p = Some ForeignProcess)) :
  exists msg w',
    stop_action (Delivers [ChildClose code]) w = Returned tt w'
    /\ trace w' = (trace w ++ [ Spawned "pm2" ["stop"; "redep-server"] false (env w);
                                 Log LError ("Failed to stop server: " +:+ msg) ])%list
    /\ ((exists p, getConfig "server_pid" w = Val (JNum p)) -> msg = "kill EPERM")
    /\ store w' = store w /\ procs w' = procs w
    /\ getConfig "server_pid" w' = getConfig "server_pid" w
    /\ exit_code (stop_action (Delivers [ChildClose code]) w) = 0%Z.
Proof.
  assert (exists msg,
            stop_action (Delivers [ChildClose code]) w
            = Returned tt (emit (Log LError ("Failed to stop server: " +:+ msg))
                             (emit (Spawned "pm2" ["stop"; "redep-server"] false (env w)) w))
            /\ ((exists p, getConfig "server_pid" w = Val (JNum p)) -> msg = "kill EPERM"))
    as (msg & Hrun & Hmsg).
  { destruct Hfail as [(c & rest & Hc & Hrec) | (p & Hp & Hrec & Hforeign)].
    - destruct (stop_not_a_pid code w c rest Hnative Hc Hrec) as [msg Hrun].
      exists msg. split; [exact Hrun |]. intros [p Hp]. congruence.
    - exists "kill EPERM". split; [| reflexivity].
      now apply (stop_not_permitted code w p). }
  exists msg. eexists. rewrite Hrun. split; [reflexivity |].
  split; [cbn [trace emit]; now rewrite <- app_assoc |].
  split; [exact Hmsg |]. repeat split.
Qed.

Lemma stop_failure_keeps_the_record_witness :
  exists msg w',
    stop_action (Delivers [ChildClose (Some 1%Z)]) guarded = Returned tt w'
    /\ trace w' = (trace guarded
                   ++ [ Spawned "pm2" ["stop"; "redep-server"] false (env guarded);
                        Log LError ("Failed to stop server: " +:+ msg) ])%list
    /\ ((exists p, getConfig "server_pid" guarded = Val (JNum p)) -> msg = "kill EPERM")
    /\ store w' = store guarded /\ procs w' = procs guarded
    /\ getConfig "server_pid" w' = getConfig "server_pid" guarded
    /\ exit_code (stop_action (Delivers [ChildClose (Some 1%Z)]) guarded) = 0%Z.
Proof.
  apply (stop_failure_keeps_the_record (Some 1%Z) guarded); [discriminate |].
  right. exists 4242%Z. split; [unfold valid_pid; lia | split; reflexivity].
Defined.

(** ** One server per start *)

Lemma detached_spawns_emit (e : event) (w : world) :
  detached_spawns (trace (emit e w))
  = (detached_spawns (trace w)
     + match e with Spawned _ _ true _ => 1 | _ => 0 end)%nat.
Proof.
  unfold detached_spawns. cbn [trace emit]. rewrite List.filter_app, length_app.
  destruct e as [| ? ? [] ? | | |]; reflexivity.
Qed.

Lemma settled_same (w w' : world) :
  store w' = store w -> env w' = env w -> procs w' = procs w -> settled w -> settled w'.
Proof.
  intros Hs He Hp [Ht Hpr]. unfold settled.
  rewrite (getConfig_same_store _ w w' Hs He). split; [exact Ht |].
  now rewrite (probe_same_table _ w w' Hp).
Qed.

(** A start against a settled record spawns nothing and leaves it settled. *)
Lemma start_native_when_settled (o : options) (w : world) :
  settled w ->
  exists w', startNativeBackground o w = Returned tt w'
             /\ settled w'
             /\ detached_spawns (trace w') = detached_spawns (trace w).
Proof.
  intros [Ht Hpr].
  destruct (start_native_cases o w)
    as [(p & _ & _ & _ & E) | [(p & rest & w0 & _ & Hw0 & _) | (e & w0 & _ & Hw0 & _)]].
  - eexists. split; [exact E | split].
    + apply (settled_same w); [reflexivity .. | now split].
    + now rewrite !detached_spawns_emit, !Nat.add_0_r.
  - destruct Hw0 as [[_ Hf] | (_ & _ & Hf)]; congruence.
  - destruct Hw0 as [[_ Hf] | (_ & _ & Hf)]; congruence.
Qed.

(** Any start spawns at most one child, and is settled when it returns. *)
Lemma start_native_once (o : options) (w : world) :
  supply_valid w ->
  (detached_spawns (trace (final_world (startNativeBackground o w)))
   <= detached_spawns (trace w) + 1)%nat
  /\ (forall w', startNativeBackground o w = Returned tt w' -> settled w').
Proof.
  intros Hsup. split.
  - destruct (start_native_cases o w)
      as [(p & _ & _ & _ & E) | [(p & rest & w0 & _ & Hw0 & E) | (e & w0 & _ & Hw0 & E)]];
      rewrite E; cbn [final_world].
    + rewrite !detached_spawns_emit. lia.
    + unfold launched. cbv zeta. rewrite detached_spawns_emit.
      cbn [trace set_store]. rewrite detached_spawns_emit. cbn [trace set_procs set_pid_supply].
      destruct Hw0 as [[-> _] | (-> & _)]; cbn [trace cleared set_store]; lia.
    + destruct Hw0 as [[-> _] | (-> & _)]; cbn [trace cleared set_store]; lia.
  - intros w' Hrun. now apply (start_native_settled o w w').
Qed.

Lemma start_events_when_settled (o : options) (evs : list child_event) (w : world) :
  settled w ->
  detached_spawns (trace (final_world (for_each (on_pm2_start_event o) evs w)))
  = detached_spawns (trace w).
Proof.
  revert w. induction evs as [|ev rest IH]; intros w Hw; [reflexivity |].
  cbn [for_each]. unfold mbind, M_bind, bind.
  assert (exists w', on_pm2_start_event o ev w = Returned tt w' /\ settled w'
                     /\ detached_spawns (trace w') = detached_spawns (trace w))
    as (w' & -> & Hw' & Hc).
  { assert (forall l msg, settled (emit (Log l msg) w)) as Hlog
        by (intros; now apply (settled_same w)).
    destruct ev as [e | code]; cbn [on_pm2_start_event].
    - unfold mbind, M_bind, bind, logger.
      destruct (start_native_when_settled o _
                  (Hlog LInfo "PM2 not found, falling back to native background process..."))
        as (w' & -> & Hs & Hc).
      exists w'. now rewrite Hc, detached_spawns_emit, Nat.add_0_r.
    - destruct (bool_decide (code = Some 0%Z)); cbn [negb].
      + eexists. split; [reflexivity | split; [apply Hlog |]].
        now rewrite detached_spawns_emit, Nat.add_0_r.
      + unfold mbind, M_bind, bind, logger.
        destruct (start_native_when_settled o _
                    (Hlog LWarn "PM2 start failed, falling back to native background process..."))
          as (w' & -> & Hs & Hc).
        exists w'. now rewrite Hc, detached_spawns_emit, Nat.add_0_r. }
  rewrite (IH w' Hw'). exact Hc.
Qed.

Lemma start_events_once (o : options) (evs : list child_event) (w : world) :
  supply_valid w ->
  (detached_spawns (trace (final_world (for_each (on_pm2_start_event o) evs w)))
   <= detached_spawns (trace w) + 1)%nat.
Proof.
  revert w. induction evs as [|ev rest IH]; intros w Hsup; [cbn; lia |].
  cbn [for_each]. unfold mbind, M_bind, bind.
  assert (forall l msg,
            match (logger l msg;; startNativeBackground o) w with
            | Returned _ w' =>
                (detached_spawns (trace (final_world
                                           (for_each (on_pm2_start_event o) rest w')))
                 <= detached_spawns (trace w) + 1)%nat
            | o' => (detached_spawns (trace (final_world o'))
                     <= detached_spawns (trace w) + 1)%nat
            end) as Hfall.
  { intros l msg. unfold mbind, M_bind, bind, logger.
    assert (supply_valid (emit (Log l msg) w)) as Hsup' by exact Hsup.
    destruct (start_native_once o _ Hsup') as [Hle Hset].
    rewrite detached_spawns_emit, Nat.add_0_r in Hle.
    destruct (startNativeBackground o (emit (Log l msg) w)) as [[] w' | c w' | e w'];
      cbn [final_world] in *; try exact Hle.
    rewrite (start_events_when_settled o rest w' (Hset w' eq_refl)). exact Hle. }
  destruct ev as [e | code]; cbn [on_pm2_start_event].
  - specialize (Hfall LInfo "PM2 not found, falling back to native background process...").
    destruct ((logger LInfo _;; startNativeBackground o) w) as [[] w' | c w' | e' w'];
      exact Hfall.
  - destruct (bool_decide (code = Some 0%Z)); cbn [negb].
    + unfold logger. etransitivity; [apply IH; exact Hsup |].
      now rewrite detached_spawns_emit, Nat.add_0_r.
    + specialize (Hfall LWarn "PM2 start failed, falling back to native background process...").
      destruct ((logger LWarn _;; startNativeBackground o) w) as [[] w' | c w' | e' w'];
        exact Hfall.
Qed.

(** X25. One run of [start] spawns at most one detached server, whatever
    the process manager does: also when its child delivers both an error
    and a failing close, so that the native path is entered twice, the
    second entry finds the pid the first one recorded alive and spawns
    nothing. *)
Theorem start_spawns_at_most_one_server (o : options) (pm2 : shell_run) (w : world)
    (Hsupply : supply_valid w) :
  (detached_spawns (trace (final_world (start_action o pm2 w)))
   <= detached_spawns (trace w) + 1)%nat.
Proof.
  destruct (validateMandatoryConfig w) as [|k ks] eqn:Hv.
  - rewrite (start_action_valid o pm2 w Hv). destruct pm2 as [e | evs].
    + now apply start_native_once.
    + etransitivity; [apply start_events_once; exact Hsupply |].
      unfold pm2_asked. now rewrite detached_spawns_emit, Nat.add_0_r.
  - unfold start_action. unfold mbind at 1, M_bind at 1, bind at 1.
    rewrite validate_or_exit_missing by (rewrite Hv; discriminate).
    cbn [final_world]. rewrite detached_spawns_emit. lia.
Qed.

Lemma start_spawns_at_most_one_server_witness :
  (detached_spawns
     (trace (final_world
               (start_action no_port
                  (Delivers [ChildError ESRCH; ChildClose None]) stale)))
   <= detached_spawns (trace stale) + 1)%nat.
Proof.
  apply (start_spawns_at_most_one_server no_port
           (Delivers [ChildError ESRCH; ChildClose None]) stale).
  intros p rest Hs. change ([4243%Z] = p :: rest) in Hs. injection Hs as <- _.
  unfold valid_pid. lia.
Defined.

(** ** Start, status, stop *)

Lemma settled_live (w : world) :
  settled w ->
  exists p, to_pid (getConfig "server_pid" w) = Some p
            /\ (procs w !! p = Some Daemon \/ procs w !! p = Some OwnProcess).
Proof.
  intros [_ Hpr]. destruct (kill_SIG0_cases (getConfig "server_pid" w) w)
    as [(p & Hp & Hlive & _) | (e & _ & Hf)]; [eauto | congruence].
Qed.

Lemma start_native_own_record (o : options) (w w' : world) :
  own_record w -> supply_valid w ->
  startNativeBackground o w = Returned tt w' -> own_record w'.
Proof.
  intros Hrec Hsup Hrun.
  destruct (start_native_cases o w)
    as [(p & _ & _ & _ & E) | [(p & rest & w0 & Hs & _ & E) | (e & w0 & _ & _ & E)]];
    rewrite E in Hrun; [| | discriminate]; injection Hrun as <-.
  - exact Hrec.
  - right. exists p. split; [exact (Hsup p rest Hs) | apply launched_recorded].
Qed.

(** X26. The native life cycle, with the process manager failing
    throughout and starting from a record as the program writes it (none,
    or the positive pid of a child it spawned): when [start] returns,
    a positive pid is on record and [status] reports it as running and
    changes nothing; [stop] then ends exactly that process and clears the
    record; and [status] after that answers "Server is NOT running.". *)
Theorem native_lifecycle_round_trip (o : options) (code : option Z) (w w1 : world)
    (Hvalid : validateMandatoryConfig w = [])
    (Hrecord : own_record w)
    (Hsupply : supply_valid w)
    (Hnative : code <> Some 0%Z)
    (Hstart : start_action o (Delivers [ChildClose code]) w = Returned tt w1) :
  exists p w2,
    valid_pid p
    /\ getConfig "server_pid" w1 = Val (JNum p)
    /\ procs w1 !! p <> None
    /\ status_action (Delivers [ChildClose code]) w1
       = Returned tt
           (emit (Log LSuccess ("Server is RUNNING (PID "
                                +:+ to_string (getConfig "server_pid" w1) +:+ ")"))
              (emit (Signalled p SIG0)
                 (emit (Spawned "pm2" ["describe"; "redep-server"] false (env w1)) w1)))
    /\ stop_action (Delivers [ChildClose code]) w1 = Returned tt w2
    /\ procs w2 = delete p (procs w1)
    /\ getConfig "server_pid" w2 = Val JNull
    /\ status_action (Delivers [ChildClose code]) w2
       = Returned tt
           (emit (Log LInfo "Server is NOT running.")
              (emit (Spawned "pm2" ["describe"; "redep-server"] false (env w2)) w2)).
Proof.
  assert (settled w1 /\ own_record w1) as [Hset Hrec1].
  { rewrite (start_action_valid o _ w Hvalid) in Hstart.
    cbn [for_each on_pm2_start_event] in Hstart.
    rewrite (bool_decide_eq_false_2 _ Hnative) in Hstart. cbn [negb] in Hstart.
    rewrite then_done in Hstart. unfold mbind, M_bind, bind, logger in Hstart.
    split.
    - apply (start_native_settled o _ w1) in Hstart; [exact Hstart | exact Hsupply].
    - apply (start_native_own_record o _ w1) in Hstart;
        [exact Hstart | exact Hrecord | exact Hsupply]. }
  destruct (settled_live w1 Hset) as (p & Hp & Hlive). destruct Hset as [Ht Hpr].
  destruct (own_record_pid w1 p Hrec1 Hp) as [Hvp Hnum].
  set (pid := getConfig "server_pid" w1) in *.
  set (w2 := emit (Log LSuccess ("Server stopped (PID " +:+ to_string pid +:+ ")"))
               (cleared (emit (Signalled p SIGTERM)
                           (set_procs (delete p (procs w1))
                              (emit (Spawned "pm2" ["stop"; "redep-server"] false (env w1))
                                 w1))))).
  assert (getConfig "server_pid" w2 = Val JNull) as Hnull.
  { unfold w2. rewrite getConfig_emit. apply cleared_recorded. }
  exists p, w2. split; [exact Hvp | split; [exact Hnum |]].
  split; [destruct Hlive; congruence |].
  split; [| split; [| split; [reflexivity | split; [exact Hnull |]]]].
  - rewrite (status_native code w1 Hnative). cbv zeta. fold pid. rewrite Ht. cbn [negb].
    unfold kill. rewrite Hp. cbn [procs emit].
    destruct Hlive as [-> | ->]; reflexivity.
  - rewrite (stop_native code w1 Hnative Ht). cbv zeta. fold pid.
    unfold kill. rewrite Hp. cbn [procs emit].
    destruct Hlive as [-> | ->]; reflexivity.
  - rewrite (status_native code w2 Hnative). cbv zeta. now rewrite Hnull.
Qed.

Lemma native_lifecycle_round_trip_witness :
  exists p w2,
    valid_pid p
    /\ getConfig "server_pid" first_start = Val (JNum p)
    /\ procs first_start !! p <> None
    /\ status_action no_pm2 first_start
       = Returned tt
           (emit (Log LSuccess ("Server is RUNNING (PID "
                                +:+ to_string (getConfig "server_pid" first_start) +:+ ")"))
              (emit (Signalled p SIG0)
                 (emit (Spawned "pm2" ["describe"; "redep-server"] false (env first_start))
                    first_start)))
    /\ stop_action no_pm2 first_start = Returned tt w2
    /\ procs w2 = delete p (procs first_start)
    /\ getConfig "server_pid" w2 = Val JNull
    /\ status_action no_pm2 w2
       = Returned tt
           (emit (Log LInfo "Server is NOT running.")
              (emit (Spawned "pm2" ["describe"; "redep-server"] false (env w2)) w2)).
Proof.
  apply (native_lifecycle_round_trip no_port (Some 127%Z) two_pids first_start).
  - reflexivity.
  - left. reflexivity.
  - intros p rest Hs. change ([4243%Z; 4244%Z] = p :: rest) in Hs. injection Hs as <- _.
    unfold valid_pid. lia.
  - discriminate.
  - vm_compute. reflexivity.
Defined.

(** ** Exit codes, command by command *)

Lemma error_logs_emit (e : event) (w : world) :
  error_logs (trace (emit e w))
  = (error_logs (trace w) ++ (if is_error_log e then [e] else []))%list.
Proof. unfold error_logs. cbn [trace emit]. rewrite List.filter_app. reflexivity. Qed.

Lemma error_logs_quiet (e : event) (w : world) :
  is_error_log e = false -> error_logs (trace (emit e w)) = error_logs (trace w).
Proof. intros He. rewrite error_logs_emit, He. apply app_nil_r. Qed.

Lemma accounted_ret {A} (a : A) : accounted (mret a).
Proof. now intros w. Qed.

Lemma accounted_throw {A} (e : error) : accounted (@throw A e).
Proof. now intros w. Qed.

Lemma accounted_gets {A} (f : world -> A) : accounted (gets f).
Proof. now intros w. Qed.

Lemma accounted_lift_res {A} (r : res A) : accounted (lift_res r).
Proof. intros w. now destruct r. Qed.

Lemma accounted_bind {A B} (m : M A) (k : A -> M B) :
  accounted m -> (forall a, accounted (k a)) -> accounted (m ≫= k).
Proof.
  intros Hm Hk w. unfold mbind, M_bind, bind. specialize (Hm w).
  destruct (m w) as [a w1 | c w1 | e w1]; [| exact Hm | exact Hm].
  specialize (Hk a w1). rewrite <- Hm. exact Hk.
Qed.

Lemma accounted_try_catch {A} (m : M A) (h : error -> M A) :
  accounted m -> (forall e, accounted (h e)) -> accounted (try_catch m h).
Proof.
  intros Hm Hh w. unfold try_catch. specialize (Hm w).
  destruct (m w) as [a w1 | c w1 | e w1]; [exact Hm | exact Hm |].
  specialize (Hh e w1). rewrite <- Hm. exact Hh.
Qed.

Lemma accounted_for_each {A} (f : A -> M unit) (l : list A) :
  (forall a, accounted (f a)) -> accounted (for_each f l).
Proof.
  intros Hf. induction l as [|x rest IH]; cbn [for_each].
  - apply accounted_ret.
  - apply accounted_bind; [apply Hf | intros _; exact IH].
Qed.

Lemma accounted_logger (l : level) (msg : string) :
  l <> LError -> accounted (logger l msg).
Proof.
  intros Hl w. unfold logger. apply error_logs_quiet. now destruct l.
Qed.

(** [logger.error(msg); process.exit(1)]. *)
Lemma accounted_fail {A} (msg : string) : accounted (logger LError msg ≫= fun _ => @exit A 1).
Proof. intros w. cbn. split; [reflexivity |]. exists msg. apply error_logs_emit. Qed.

(** [logger.error(msg); logger.info(hint); process.exit(1)]. *)
Lemma accounted_fail_hint {A} (msg hint : string) :
  accounted (logger LError msg ≫= fun _ => logger LInfo hint ≫= fun _ => @exit A 1).
Proof.
  intros w. cbn. split; [reflexivity |]. exists msg.
  rewrite error_logs_quiet by reflexivity. apply error_logs_emit.
Qed.

Lemma accounted_kill (pid : jsval) (sig : signal) : accounted (kill pid sig).
Proof.
  intros w. unfold kill. destruct (to_pid pid) as [p|]; [| reflexivity].
  destruct (procs w !! p) as [[]|]; try reflexivity;
    destruct sig; now rewrite error_logs_quiet.
Qed.

Lemma accounted_setConfig (k : string) (v : jsval) : accounted (setConfig k v).
Proof.
  intros w. unfold setConfig. destruct (Conf.set k v (store w)); [| reflexivity].
  now destruct (Conf.set _ _ _).
Qed.

Lemma accounted_spawn_detached (cmd : string) (args : list string) :
  accounted (spawn_detached cmd args).
Proof.
  intros w. unfold spawn_detached. destruct (pid_supply w); [reflexivity |].
  now rewrite error_logs_quiet.
Qed.

Lemma accounted_spawn_shell cmd args penv pm2 : accounted (spawn_shell cmd args penv pm2).
Proof. intros w. destruct pm2; [reflexivity | now apply error_logs_quiet]. Qed.

Lemma accounted_prompt (answered : prompt_run) : accounted (prompt answered).
Proof. intros w. now destruct answered. Qed.

Lemma accounted_deploy name url secret rejection :
  accounted (deploy name url secret rejection).
Proof. intros w. unfold deploy. destruct rejection; now apply error_logs_quiet. Qed.

Lemma accounted_startServer a b c d : accounted (startServer a b c d).
Proof. intros w. now apply error_logs_quiet. Qed.

Ltac accounted_step :=
  first
    [ apply accounted_fail
    | apply accounted_fail_hint
    | apply accounted_bind; [| intros ?]
    | apply accounted_try_catch; [| intros ?]
    | apply accounted_for_each; intros ?
    | match goal with
      | |- accounted (if ?b then _ else _) => destruct b
      | |- accounted (match ?x with _ => _ end) => destruct x
      end
    | solve [ apply accounted_ret | apply accounted_throw | apply accounted_gets
            | apply accounted_lift_res | apply accounted_kill | apply accounted_setConfig
            | apply accounted_spawn_detached | apply accounted_spawn_shell
            | apply accounted_prompt | apply accounted_deploy | apply accounted_startServer
            | apply accounted_logger; discriminate ] ].

Lemma accounted_run (c : command) : is_stop c = false -> accounted (run c).
Proof.
  destruct c; cbn [run is_stop]; intros Hc; try discriminate;
    unfold init_action, start_action, status_action, listen_action, deploy_action,
      deploy_target, validate_or_exit, startNativeBackground, on_pm2_start_event,
      on_pm2_status_event;
    repeat accounted_step.
Qed.

Lemma never_throws_bind {A B} (m : M A) (k : A -> M B) :
  never_throws m -> (forall a, never_throws (k a)) -> never_throws (m ≫= k).
Proof.
  intros Hm Hk w. unfold mbind, M_bind, bind. specialize (Hm w).
  destruct (m w) as [a w1 | c w1 | e w1]; [apply Hk | exact I | contradiction].
Qed.

Lemma never_throws_try_catch {A} (m : M A) (h : error -> M A) :
  (forall e, never_throws (h e)) -> never_throws (try_catch m h).
Proof.
  intros Hh w. unfold try_catch.
  destruct (m w) as [a w1 | c w1 | e w1]; [exact I | exact I | apply Hh].
Qed.

Lemma never_throws_fail {A} (msg : string) :
  never_throws (logger LError msg ≫= fun _ => @exit A 1).
Proof. now intros w. Qed.

Lemma never_throws_init (type : string) (answered : prompt_run) (token : string) :
  never_throws (init_action type answered token).
Proof.
  unfold init_action. apply never_throws_bind.
  - destruct (negb (String.eqb type "client") && negb (String.eqb type "server"));
      [apply never_throws_fail | now intros w].
  - intros _. apply never_throws_try_catch. intros e. apply never_throws_fail.
Qed.

Lemma never_throws_deploy (serverName : string) (rejection : option error) :
  never_throws (deploy_action serverName rejection).
Proof.
  intros w. destruct (deploy_target_returns serverName w) as (url & sec & Ht).
  rewrite (deploy_action_cases serverName rejection w url sec Ht).
  destruct (truthy url); cbn [negb]; [| exact I].
  destruct (truthy sec); cbn [negb]; [| exact I].
  now destruct rejection.
Qed.

Lemma never_throws_run (c : command) : settles c = true -> never_throws (run c).
Proof.
  destruct c; cbn [settles run]; intros Hc; try discriminate.
  - apply never_throws_init.
  - apply never_throws_deploy.
Qed.



